(** * FinanceBot web front end: session store, pin/delete bookkeeping,
      markdown rendering and tool dispatch of [web_finbot.py]

    A shallow embedding of the Python module.  Python [str] values are
    [string]s (one [ascii] per character; the regular expressions of the
    module only inspect single characters, so the alphabet is not
    essential), JSON documents are values of [json], the [chats] directory
    is a finite map from file names to files, and every function that can
    raise returns a [result]. *)

From Stdlib Require Import ZArith NArith Ascii String List Lia.
From stdpp Require Import gmap strings list sorting.

(** ** Characters and strings *)

Abbreviation chars := (list ascii).

Definition in_range (lo hi c : ascii) : bool :=
  (N_of_ascii lo <=? N_of_ascii c)%N && (N_of_ascii c <=? N_of_ascii hi)%N.

Definition is_char (x c : ascii) : bool := Stdlib.Strings.Ascii.eqb x c.

(** [\s] of the [re] module on [str] patterns: the Unicode white space
    below code point 256. *)
Definition is_space (c : ascii) : bool :=
  (in_range "009" "013" c || in_range "028" "032" c
   || is_char "133" c || is_char "160" c)%char.

Definition newline : ascii := "010"%char.
Definition carriage_return : ascii := "013"%char.

Abbreviation str := list_ascii_of_string.
Abbreviation pystr := string_of_list_ascii.

(** ** A backtracking matcher for the patterns of the module

    The [re] module matches by backtracking with a fixed priority: the left
    branch of an alternation first, one more iteration first for a greedy
    repetition, the exit first for a lazy one.  [exec] follows that order
    in continuation-passing style.  A cursor keeps the text still to read
    and the character just before it, all that [^] needs to look at. *)

Inductive regex :=
| Eps
| Chr (c : ascii)
| Cls (p : ascii → bool)
| Bol (multiline : bool)
| Eol (multiline : bool)
| Seq (r1 r2 : regex)
| Alt (r1 r2 : regex)
| Star (greedy : bool) (r : regex)
| Group (n : nat) (r : regex).

Record cursor := Cursor { prev : option ascii; rest : chars }.

Abbreviation captures := (list (nat * chars)).

Definition at_bol (multiline : bool) (cu : cursor) : bool :=
  match prev cu with
  | None => true
  | Some c => multiline && is_char newline c
  end.

Definition at_eol (multiline : bool) (cu : cursor) : bool :=
  match rest cu with
  | [] => true
  | c :: tl => is_char newline c && (multiline || bool_decide (tl = []))
  end.

Definition step (p : ascii → bool) {R} (cu : cursor) (k : cursor → option R)
  : option R :=
  match rest cu with
  | x :: tl => if p x then k (Cursor (Some x) tl) else None
  | [] => None
  end.

(** The text read between two cursors of one scan. *)
Definition consumed (cu cu' : cursor) : chars :=
  take (length (rest cu) - length (rest cu')) (rest cu).

Definition or_else {R} (a b : option R) : option R :=
  match a with Some x => Some x | None => b end.

(** The loop of a repetition: [n] bounds the iterations still possible,
    each of which has to read at least one character. *)
Fixpoint star_loop {R}
    (body : cursor → captures → (cursor → captures → option R) → option R)
    (greedy : bool) (k : cursor → captures → option R)
    (n : nat) (cu : cursor) (caps : captures) : option R :=
  let again :=
    match n with
    | 0 => None
    | S n' =>
        body cu caps (fun cu' caps' =>
          if length (rest cu') <? length (rest cu)
          then star_loop body greedy k n' cu' caps' else None)
    end in
  if greedy then or_else again (k cu caps) else or_else (k cu caps) again.

Fixpoint exec {R} (r : regex) (cu : cursor) (caps : captures)
    (k : cursor → captures → option R) : option R :=
  match r with
  | Eps => k cu caps
  | Chr c => step (is_char c) cu (fun cu' => k cu' caps)
  | Cls p => step p cu (fun cu' => k cu' caps)
  | Bol m => if at_bol m cu then k cu caps else None
  | Eol m => if at_eol m cu then k cu caps else None
  | Seq r1 r2 => exec r1 cu caps (fun cu' caps' => exec r2 cu' caps' k)
  | Alt r1 r2 => or_else (exec r1 cu caps k) (exec r2 cu caps k)
  | Star greedy r1 =>
      star_loop (exec r1) greedy k (length (rest cu)) cu caps
  | Group n r1 =>
      exec r1 cu caps (fun cu' caps' => k cu' ((n, consumed cu cu') :: caps'))
  end.

(** [pattern.match] at a cursor: the end cursor and the groups. *)
Definition match_at (r : regex) (cu : cursor) : option (cursor * captures) :=
  exec r cu [] (fun cu' caps => Some (cu', caps)).

(** Pattern building blocks. *)
Definition seqs (rs : list regex) : regex := foldr Seq Eps rs.
Definition lit (s : string) : regex := seqs (Chr <$> str s).
Definition dot : regex := Cls (fun c => negb (is_char newline c)).
Definition dot_all : regex := Cls (fun _ => true).
Definition plus (greedy : bool) (r : regex) : regex := Seq r (Star greedy r).
Definition opt (r : regex) : regex := Alt r Eps.

(** Replacement templates: literal text and group references; group 0 is
    the whole match. *)
Inductive titem := TLit (s : string) | TGroup (n : nat).

Fixpoint group (n : nat) (caps : captures) : chars :=
  match caps with
  | [] => []
  | (m, g) :: caps' => if Nat.eqb n m then g else group n caps'
  end.

Definition expand (t : list titem) (caps : captures) : chars :=
  concat ((fun i => match i with
                    | TLit s => str s
                    | TGroup n => group n caps
                    end) <$> t).

(** [re.sub]: scan from the left, replace each leftmost match and resume
    after it.  None of the patterns of this module matches the empty
    string, where the scan copies one character and moves on.  The fuel
    bounds the number of steps by the length of the text. *)
Fixpoint sub_from (r : regex) (t : list titem) (fuel : nat) (cu : cursor)
  : chars :=
  match fuel with
  | 0 => rest cu
  | S fuel' =>
      let skip :=
        match rest cu with
        | [] => []
        | c :: tl => c :: sub_from r t fuel' (Cursor (Some c) tl)
        end in
      match match_at r cu with
      | None => skip
      | Some (cu', caps) =>
          let out := expand t ((0, consumed cu cu') :: caps) in
          if length (rest cu') <? length (rest cu)
          then out ++ sub_from r t fuel' cu'
          else out ++ skip
      end
  end.

Definition re_sub (r : regex) (t : list titem) (s : string) : string :=
  pystr (sub_from r t (S (String.length s)) (Cursor None (str s))).

(** [re.sub] with a replacement computed from each match by a function,
    as the module [re] proceeds for a callable and for a template with
    group references: the scan of [sub_from], with [f] applied to the
    groups of the match where [sub_from] expands a template. *)
Fixpoint sub_from_with (r : regex) (f : captures → chars) (fuel : nat)
    (cu : cursor) : chars :=
  match fuel with
  | 0 => rest cu
  | S fuel' =>
      let skip :=
        match rest cu with
        | [] => []
        | c :: tl => c :: sub_from_with r f fuel' (Cursor (Some c) tl)
        end in
      match match_at r cu with
      | None => skip
      | Some (cu', caps) =>
          let out := f ((0, consumed cu cu') :: caps) in
          if length (rest cu') <? length (rest cu)
          then out ++ sub_from_with r f fuel' cu'
          else out ++ skip
      end
  end.

Definition re_sub_with (r : regex) (f : captures → chars) (s : string)
  : string :=
  pystr (sub_from_with r f (S (String.length s)) (Cursor None (str s))).

(** [re.search]: the groups of the leftmost match, if any. *)
Fixpoint search_from (r : regex) (fuel : nat) (cu : cursor)
  : option captures :=
  match match_at r cu with
  | Some (cu', caps) => Some ((0, consumed cu cu') :: caps)
  | None =>
      match fuel, rest cu with
      | S fuel', c :: tl => search_from r fuel' (Cursor (Some c) tl)
      | _, _ => None
      end
  end.

Definition re_search (r : regex) (s : string) : option captures :=
  search_from r (String.length s) (Cursor None (str s)).

(** ** String helpers of the module *)

(** [safe_filename] replaces, with [re.sub], every character outside the
    class of letters, digits, underscore, dot and hyphen by an underscore.
    The argument is optional: [None] is Python's [None], which the source
    turns into the empty string first. *)
Definition filename_char (c : ascii) : bool :=
  (in_range "a" "z" c || in_range "A" "Z" c || in_range "0" "9" c
   || is_char "_" c || is_char "." c || is_char "-" c)%char.

Definition unsafe_char_re : regex := Cls (fun c => negb (filename_char c)).

Definition safe_filename (name : option string) : string :=
  re_sub unsafe_char_re [TLit "_"] (default EmptyString name).

(** [markupsafe.escape] on a plain [str]: the five characters below become
    entities, the ampersand first. *)
Definition escape_char (c : ascii) : chars :=
  (if is_char "&" c then str "&amp;"
   else if is_char ">" c then str "&gt;"
   else if is_char "<" c then str "&lt;"
   else if is_char "'" c then str "&#39;"
   else if is_char "034" c then str "&#34;"
   else [c])%char.

Definition escape (s : string) : string := pystr (str s ≫= escape_char).

(** [Markup.join], as the first [re.sub] of [markdown_to_html] comes to
    call it.  [escape] returns a [Markup] and so do the two [replace]
    calls of line 81, so that [re.sub] scans a [Markup].  Up to CPython
    3.11 a template with a group reference is expanded by
    [sre_parse.expand_template], which joins the literals of the template
    and the groups of the match with [match.string[:0].join]: here the
    [join] of [Markup], which escapes every piece that is a plain [str].
    The literals and the groups are plain [str]s, so the tags of the
    template are escaped, and the group, a slice of escaped text, is
    escaped once more.  [re.sub] returns a plain [str], so the later
    passes expand their templates as written. *)
Definition markup_join (t : list titem) (caps : captures) : chars :=
  concat ((fun i => match i with
                    | TLit s => str s
                    | TGroup n => group n caps
                    end ≫= escape_char) <$> t).

(** The two [str.replace] calls of line 81: CR LF becomes LF, then every
    remaining CR becomes LF. *)
Fixpoint replace_crlf (s : chars) : chars :=
  match s with
  | [] => []
  | c :: tl =>
      match tl with
      | d :: tl' =>
          if is_char carriage_return c && is_char newline d
          then newline :: replace_crlf tl'
          else c :: replace_crlf tl
      | [] => [c]
      end
  end.

Definition replace_cr (s : chars) : chars :=
  (fun c => if is_char carriage_return c then newline else c) <$> s.

Definition normalize_newlines (s : string) : string :=
  pystr (replace_cr (replace_crlf (str s))).

(** The patterns of [markdown_to_html], in source order. *)
Definition ws : regex := Cls is_space.
Definition non_ws : regex := Cls (fun c => negb (is_space c)).
Definition nl : regex := Chr newline.

(** Headings (lines 84 and 85, MULTILINE): line start, any white space,
    the hashes and one space, then group 1, the rest of the line. *)
Definition heading_re (hashes : string) : regex :=
  seqs [Bol true; Star true ws; lit hashes; Chr " ";
        Group 1 (Star true dot); Eol true].

(** Horizontal rule (line 88, MULTILINE): a line start or a newline,
    three or more hyphens, a newline or a line end. *)
Definition hr_re : regex :=
  seqs [Alt (Bol true) nl; lit "---"; Star true (Chr "-");
        Alt nl (Eol true)].

(** Bold and italic (lines 91 and 92): group 1 is a lazy, non-empty run
    of characters other than newline between the asterisks. *)
Definition bold_re : regex :=
  seqs [lit "**"; Group 1 (plus false dot); lit "**"].
Definition italic_re : regex :=
  seqs [lit "*"; Group 1 (plus false dot); lit "*"].

(** List item (line 95, MULTILINE): line start, any white space, a
    hyphen, at least one white space, then group 1, a rest of line that
    holds a character other than white space. *)
Definition li_re : regex :=
  seqs [Bol true; Star true ws; Chr "-"; plus true ws;
        Group 1 (seqs [Star true dot; non_ws; Star true dot]); Eol true].

(** Run of list items (line 101, DOTALL without MULTILINE): the start of
    the text or a newline, then one or more items, each an opening tag, a
    lazy run of any characters, a closing tag and an optional newline. *)
Definition ul_re : regex :=
  seqs [Alt (Bol false) nl;
        plus true (seqs [lit "<li>"; Star false dot_all; lit "</li>";
                         opt nl])].

(** Two or more newlines (line 104). *)
Definition br_re : regex := seqs [nl; nl; Star true nl].

Definition lf : string := String newline EmptyString.

Definition markdown_to_html (text : string) : string :=
  if bool_decide (text = EmptyString) then EmptyString else
  let text := escape text in
  let text := normalize_newlines text in
  let text := re_sub_with (heading_re "###")
                (markup_join [TLit "<h3>"; TGroup 1; TLit "</h3>"]) text in
  let text := re_sub (heading_re "##") [TLit "<h2>"; TGroup 1; TLit "</h2>"] text in
  let text := re_sub hr_re [TLit lf; TLit "<hr>"; TLit lf] text in
  let text := re_sub bold_re [TLit "<b>"; TGroup 1; TLit "</b>"] text in
  let text := re_sub italic_re [TLit "<i>"; TGroup 1; TLit "</i>"] text in
  let text := re_sub li_re [TLit "<li>"; TGroup 1; TLit "</li>"] text in
  let text := re_sub ul_re [TLit "<ul>"; TGroup 0; TLit "</ul>"] text in
  re_sub br_re [TLit "<br>"] text.

(** [extract_image_filename]: blank out every tag (an opening angle, one
    or more characters other than the closing angle, a closing angle),
    then search a [.png] name of letters, digits, underscores and hyphens,
    optionally wrapped in asterisks; group 1 is the name. *)
Definition tag_re : regex :=
  seqs [Chr "<"; plus true (Cls (fun c => negb (is_char ">" c))); Chr ">"].

Definition png_name_char (c : ascii) : bool :=
  (in_range "A" "Z" c || in_range "a" "z" c || in_range "0" "9" c
   || is_char "_" c || is_char "-" c)%char.

Definition png_re : regex :=
  seqs [opt (Chr "*");
        Group 1 (seqs [plus true (Cls png_name_char); lit ".png"]);
        opt (Chr "*")].

Definition extract_image_filename (text : string) : option string :=
  if bool_decide (text = EmptyString) then None else
  let raw := re_sub tag_re [TLit " "] text in
  match re_search png_re raw with
  | Some caps => Some (safe_filename (Some (pystr (group 1 caps))))
  | None => None
  end.

(** [str.strip()] without argument: white space off both ends. *)
Fixpoint lstrip (s : chars) : chars :=
  match s with
  | c :: tl => if is_space c then lstrip tl else s
  | [] => []
  end.
Definition strip (s : string) : string :=
  pystr (reverse (lstrip (reverse (lstrip (str s))))).

(** [fname.endswith(suffix)] and [fname[:-n]]. *)
Definition endswith (s suffix : string) : bool :=
  let n := String.length s - String.length suffix in
  bool_decide (drop n (str s) = str suffix ∧ String.length suffix ≤ String.length s).

Definition drop_last (n : nat) (s : string) : string :=
  pystr (take (String.length s - n) (str s)).

(** ** Exceptions, JSON documents and the chats directory *)

(** The classes of exception that matter to the handlers of the module.
    All of them derive from [Exception]. *)
Inductive exn :=
| FileNotFoundError
| JSONDecodeError
| UnicodeDecodeError
| TypeError
| AttributeError
| ValueError
| OSError.

Inductive result (A : Type) :=
| Ok (a : A)
| Raise (e : exn).
Arguments Ok {A} a.
Arguments Raise {A} e.

(** What [json.load] returns and [json.dump] accepts.  An object keeps its
    members in order, as a Python [dict] does. *)
#[warnings="-register-all"]
Inductive json :=
| JNull
| JBool (b : bool)
| JNum (n : Z)
| JStr (s : string)
| JArr (xs : list json)
| JObj (members : list (string * json)).

(** The content of a file of the chats directory, by what reading it as
    UTF-8 JSON does: bytes that do not decode, text that [json.load]
    rejects, or a document, which is also what [json.dump] leaves. *)
Inductive payload :=
| Undecodable
| Malformed
| Document (v : json).

Record file := File { content : payload; mtime : Z }.

(** The state the handlers act on: the chats directory by file name, the
    [chat_id] entry of the Flask session, a logical clock that stamps
    writes, and the number of UUIDs drawn so far. *)
Record world := World {
  chat_dir : gmap string file;
  cookie : option string;
  clock : Z;
  draws : nat
}.

Definition PINNED_CHATS_FILE : string := "pinned_chats.json".

Definition chat_file (chat_id : string) : string :=
  safe_filename (Some chat_id) +:+ ".json".

(** ** A state and exception monad for the handlers

    A raise keeps the effects made before it: files already written or
    removed stay so. *)
Definition M (A : Type) : Type := world → result A * world.

Definition ret {A} (a : A) : M A := fun w => (Ok a, w).
Definition raise {A} (e : exn) : M A := fun w => (Raise e, w).
Definition bind {A B} (m : M A) (f : A → M B) : M B :=
  fun w => match m w with
           | (Ok a, w') => f a w'
           | (Raise e, w') => (Raise e, w')
           end.
Definition lift {A} (r : result A) : M A := fun w => (r, w).

(** [try: m except classes: h], where [catches] tells the classes caught. *)
Definition try_except {A} (m : M A) (catches : exn → bool) (h : M A) : M A :=
  fun w => match m w with
           | (Ok a, w') => (Ok a, w')
           | (Raise e, w') => if catches e then h w' else (Raise e, w')
           end.

Declare Scope monad_scope.
Delimit Scope monad_scope with M.
Notation "'let*' x := m 'in' k" := (bind m (fun x => k))
  (at level 10, x name, m at level 100, k at level 200) : monad_scope.
Notation "'let*' ' p := m 'in' k" :=
  (bind m (fun x => match x with p => k end))
  (at level 10, p pattern, m at level 100, k at level 200) : monad_scope.
Local Open Scope monad_scope.

Definition when (b : bool) (m : M unit) : M unit := if b then m else ret ().

(** File system primitives on the chats directory. *)
Definition path_exists (name : string) : M bool :=
  fun w => (Ok (match chat_dir w !! name with
                | Some _ => true
                | None => false
                end), w).

Definition read_json (name : string) : M json :=
  fun w => match chat_dir w !! name with
           | None => (Raise FileNotFoundError, w)
           | Some f =>
               match content f with
               | Undecodable => (Raise UnicodeDecodeError, w)
               | Malformed => (Raise JSONDecodeError, w)
               | Document v => (Ok v, w)
               end
           end.

(** [open(path, "w")] and [json.dump]: the file holds the document
    afterwards.  The write is taken to succeed: what makes it fail in
    Python (a name the file system refuses, a number [json.dump] cannot
    print) is left out of the model. *)
Definition write_json (name : string) (v : json) : M unit :=
  fun w => (Ok (),
            {| chat_dir := <[name := File (Document v) (clock w)]> (chat_dir w);
               cookie := cookie w;
               clock := (clock w + 1)%Z;
               draws := draws w |}).

Definition os_remove (name : string) : M unit :=
  fun w => match chat_dir w !! name with
           | None => (Raise FileNotFoundError, w)
           | Some _ =>
               (Ok (), {| chat_dir := delete name (chat_dir w);
                          cookie := cookie w;
                          clock := clock w;
                          draws := draws w |})
           end.

Definition session_get : M (option string) := fun w => (Ok (cookie w), w).

Definition session_set (v : option string) : M unit :=
  fun w => (Ok (), {| chat_dir := chat_dir w; cookie := v;
                      clock := clock w; draws := draws w |}).

(** ** The Python operations the handlers apply to loaded documents

    A loaded document need not be a list; each operation says what Python
    does on every kind of JSON value.  The searched or inserted value is
    always a [str]. *)
Definition is_str (x : string) (v : json) : bool :=
  match v with
  | JStr s => bool_decide (s = x)
  | _ => false
  end.

Fixpoint is_prefix (p s : chars) : bool :=
  match p, s with
  | [], _ => true
  | a :: p', b :: s' => is_char a b && is_prefix p' s'
  | _ :: _, [] => false
  end.

Fixpoint is_substring (p s : chars) : bool :=
  is_prefix p s || match s with
                   | [] => false
                   | _ :: s' => is_substring p s'
                   end.

(** [x in v]. *)
Definition py_in (x : string) (v : json) : result bool :=
  match v with
  | JArr xs => Ok (existsb (is_str x) xs)
  | JObj members => Ok (bool_decide (x ∈ members.*1))
  | JStr s => Ok (is_substring (str x) (str s))
  | _ => Raise TypeError
  end.

Fixpoint remove_first (x : string) (xs : list json) : list json :=
  match xs with
  | [] => []
  | y :: ys => if is_str x y then ys else y :: remove_first x ys
  end.

(** [v.remove(x)], [v.insert(0, x)] and [v.append(m)]. *)
Definition py_remove (x : string) (v : json) : result json :=
  match v with
  | JArr xs =>
      if existsb (is_str x) xs then Ok (JArr (remove_first x xs))
      else Raise ValueError
  | _ => Raise AttributeError
  end.

Definition py_insert0 (x : string) (v : json) : result json :=
  match v with
  | JArr xs => Ok (JArr (JStr x :: xs))
  | _ => Raise AttributeError
  end.

Definition py_append (m : json) (v : json) : result json :=
  match v with
  | JArr xs => Ok (JArr (xs ++ [m]))
  | _ => Raise AttributeError
  end.

(** Iterating a document, and [set(v)], which also needs every item to be
    hashable. *)
Definition py_iter (v : json) : result (list json) :=
  match v with
  | JArr xs => Ok xs
  | JObj members => Ok (JStr <$> members.*1)
  | JStr s => Ok ((fun c => JStr (String c EmptyString)) <$> str s)
  | _ => Raise TypeError
  end.

Definition hashable (v : json) : bool :=
  match v with
  | JArr _ | JObj _ => false
  | _ => true
  end.

Definition py_set (v : json) : result (list json) :=
  match py_iter v with
  | Ok xs => if forallb hashable xs then Ok xs else Raise TypeError
  | Raise e => Raise e
  end.

(** The value a dict holds under a key; a dict holds each key once. *)
Fixpoint assoc (k : string) (members : list (string * json)) : option json :=
  match members with
  | [] => None
  | (k', v) :: members' =>
      if bool_decide (k' = k) then Some v else assoc k members'
  end.

(** ** The session store *)

Definition save_chat_history (chat_id : string) (history : json) : M unit :=
  write_json (chat_file chat_id) history.

Definition load_pinned_chats : M json :=
  let* there := path_exists PINNED_CHATS_FILE in
  if negb there then ret (JArr [])
  else try_except (read_json PINNED_CHATS_FILE)
         (fun e => match e with
                   | JSONDecodeError | FileNotFoundError => true
                   | _ => false
                   end)
         (ret (JArr [])).

Definition save_pinned_chats (pinned_ids : json) : M unit :=
  write_json PINNED_CHATS_FILE pinned_ids.

Definition load_chat_history (chat_id : string) : M json :=
  try_except (read_json (chat_file chat_id)) (fun _ => true) (ret (JArr [])).

(** [os.listdir(CHAT_DIR)]: the names of the directory, each once, in an
    order the operating system chooses; the model takes the order of the
    map. *)
Definition os_listdir : M (list string) :=
  fun w => (Ok (map_to_list (chat_dir w)).*1, w).

Definition os_getmtime (name : string) : M Z :=
  fun w => match chat_dir w !! name with
           | Some f => (Ok (mtime f), w)
           | None => (Raise FileNotFoundError, w)
           end.

Fixpoint mapM {A B} (f : A → M B) (l : list A) : M (list B) :=
  match l with
  | [] => ret []
  | x :: l' =>
      let* y := f x in
      let* ys := mapM f l' in
      ret (y :: ys)
  end.

(** [list.sort(key=..., reverse=True)]: stable, largest key first. *)
Fixpoint insert_desc (x : Z * string) (l : list (Z * string))
  : list (Z * string) :=
  match l with
  | [] => [x]
  | y :: l' => if (x.1 <? y.1)%Z then y :: insert_desc x l' else x :: y :: l'
  end.

Definition sort_desc (l : list (Z * string)) : list (Z * string) :=
  foldr insert_desc [] l.

Definition session_name (v : json) (sessions : list string) : option string :=
  match v with
  | JStr s => if bool_decide (s ∈ sessions) then Some s else None
  | _ => None
  end.

Definition list_chat_sessions : M (list string) :=
  let* loaded := load_pinned_chats in
  let* pinned_ids := lift (py_set loaded) in
  let* names := os_listdir in
  let sessions :=
    drop_last 5 <$>
      filter (fun fname => endswith fname ".json" = true
                           ∧ fname ≠ "pinned_chats.json") names in
  let* loaded' := load_pinned_chats in
  let* items := lift (py_iter loaded') in
  let pinned_sessions := omap (fun v => session_name v sessions) items in
  let unpinned_sessions :=
    filter (fun cid => existsb (is_str cid) pinned_ids = false) sessions in
  let* keys := mapM (fun cid => os_getmtime (cid +:+ ".json"))
                 unpinned_sessions in
  let unpinned_sessions := (sort_desc (zip keys unpinned_sessions)).*2 in
  ret (pinned_sessions ++ unpinned_sessions).

(** ** The pin and delete routes *)

Inductive response :=
| Redirect (endpoint : string) (args : list (string * string))
| Page (chat_history : json) (chat_sessions : list string)
       (chat_id : string) (pinned_chats : json).

Definition delete_chat (chat_id : string) : M response :=
  let path := chat_file chat_id in
  let* there := path_exists path in
  let* _ := when there (os_remove path) in
  let* pinned_ids := load_pinned_chats in
  let* pinned := lift (py_in chat_id pinned_ids) in
  let* _ :=
    (if pinned
     then let* pinned_ids := lift (py_remove chat_id pinned_ids) in
          save_pinned_chats pinned_ids
     else ret ()) in
  let* current := session_get in
  if bool_decide (current = Some chat_id)
  then let* _ := session_set None in
       ret (Redirect "home" [("new_chat", "1")])
  else ret (Redirect "home" []).

Definition pin_chat (chat_id : string) : M response :=
  let* pinned_ids := load_pinned_chats in
  let* pinned := lift (py_in chat_id pinned_ids) in
  let* pinned_ids :=
    lift (if pinned then py_remove chat_id pinned_ids
          else py_insert0 chat_id pinned_ids) in
  let* _ := save_pinned_chats pinned_ids in
  ret (Redirect "home" [("chat_id", chat_id)]).

(** ** Tool dispatch and the home route

    The [finbot] module, the charts its tools leave in the base directory
    and the UUID generator are outside this file; the section takes them
    as parameters. *)

(** A call into [finbot]: a value, or an exception with its [str(e)]. *)
Inductive outcome (A : Type) :=
| Returns (a : A)
| Throws (message : string).
Arguments Returns {A} a.
Arguments Throws {A} message.

(** The [tool_name] entry of a plan: absent or [None], a [str], another
    hashable value, or a list or dict. *)
Inductive tool_key :=
| KNone
| KStr (s : string)
| KOther
| KUnhashable.

Record uuid := Uuid { uuid_str : string; uuid_hex : string }.

Record request := Request {
  is_post : bool;
  form_user_query : option string;
  arg_chat_id : option string;
  arg_new_chat : option string
}.

Definition falsy (s : option string) : bool :=
  match s with
  | None => true
  | Some s => bool_decide (s = EmptyString)
  end.

Definition user_message (text : string) : json :=
  JObj [("role", JStr "user"); ("text", JStr text)].

Definition bot_message (text : string) (image : json) : json :=
  JObj [("role", JStr "bot"); ("text", JStr text); ("image", image)].

Definition tool_names : list string :=
  ["get_summary"; "get_financial_total"; "get_top_spending_category";
   "find_peak_spending_day_for_category"; "visualize_spending";
   "find_transaction_date"; "get_financial_advice"; "add_transaction";
   "get_balance"; "check_budgets"; "add_budget"; "check_goals";
   "contribute_to_goal"; "calculate_savings_plan"; "add_savings_goal";
   "identify_unnecessary_spending"].

Section Web.
(** Python objects the module only passes along, and [str] on them. *)
Variable pyobj : Type.
Variable py_str : pyobj → string.

Abbreviation kwargs := (gmap string pyobj).

(** What [get_tool_call] returns: something falsy, a dict with its
    [tool_name] and its [arguments] (when they are a non-empty dict), or
    a truthy value that is not a dict. *)
Inductive plan :=
| PlanFalsy
| PlanDict (tool_name : tool_key) (arguments : option kwargs)
| PlanOther.

Variable get_tool_call : string → pyobj → outcome plan.
(** The [finbot] function of each name of the tool belt, applied to
    keyword arguments. *)
Variable finbot : string → kwargs → outcome pyobj.
Variable load_data : outcome pyobj.
Variable empty_dict : pyobj.
(** [CACHE["data"]] when the request arrives. *)
Variable cached_data : option pyobj.
Variable uuid4 : nat → uuid.
(** [os.path.exists] and [os.rename] on a chart of the base directory. *)
Variable chart_exists : string → bool.
Variable os_rename : string → string → result unit.

Definition get_tool_belt : gmap string (kwargs → outcome pyobj) :=
  list_to_map ((fun name => (name, finbot name)) <$> tool_names).

Definition chatbot_response (user_query : string) (current_data : pyobj)
  : result string :=
  match get_tool_call user_query current_data with
  | Throws e =>
      Ok (markdown_to_html ("**Error planning tool call:** " +:+ e))
  | Returns PlanOther => Raise AttributeError
  | Returns p =>
      let '(tool_name, arguments) :=
        match p with
        | PlanDict n a => (n, default ∅ a)
        | _ => (KNone, ∅)
        end in
      let response : result string :=
        match tool_name with
        | KStr name =>
            if bool_decide (name = "greeting_response")
            then Ok (match arguments !! "response" with
                     | Some v => py_str v
                     | None => "Hi! How can I help?"
                     end)
            else
              match get_tool_belt !! name with
              | Some fn =>
                  let arguments :=
                    match arguments !! "data" with
                    | Some _ => arguments
                    | None => <["data" := current_data]> arguments
                    end in
                  match fn arguments with
                  | Returns v => Ok (py_str v)
                  | Throws e =>
                      Ok ("An error occurred while running the tool: " +:+ e)
                  end
              | None =>
                  Ok "I'm not sure how to do that. Please try rephrasing."
              end
        | KUnhashable => Raise TypeError
        | KNone | KOther =>
            Ok "I'm not sure how to do that. Please try rephrasing."
        end in
      match response with
      | Ok text => Ok (markdown_to_html text)
      | Raise e => Raise e
      end
  end.

Definition draw_uuid : M uuid :=
  fun w => (Ok (uuid4 (draws w)),
            {| chat_dir := chat_dir w; cookie := cookie w;
               clock := clock w; draws := S (draws w) |}).

Definition new_chat : M (string * json) :=
  let* u := draw_uuid in
  let chat_id := uuid_str u in
  let* _ := save_chat_history chat_id (JArr []) in
  ret (chat_id, JArr []).

Definition get_or_create_chat (chat_id : option string) (new : bool)
  : M (string * json) :=
  match chat_id with
  | Some cid =>
      if new || falsy chat_id then new_chat
      else try_except
             (let* chat_history := load_chat_history cid in
              ret (cid, chat_history))
             (fun _ => true) new_chat
  | None => new_chat
  end.

Definition current_data : pyobj :=
  match cached_data with
  | Some d => d
  | None => match load_data with
            | Returns d => d
            | Throws _ => empty_dict
            end
  end.

(** Lines 714 to 739: the bot's turn.  The list returned is the local
    [chat_history]; only [save_chat_history] persists it. *)
Definition bot_turn (chat_id : string) (chat_history : json)
    (user_query : string) : M json :=
  try_except
    (let* bot_response := lift (chatbot_response user_query current_data) in
     let image_filename := extract_image_filename bot_response in
     let* image_path :=
       (if negb (falsy image_filename)
           && chart_exists (default EmptyString image_filename)
        then
          let* u := draw_uuid in
          let new_name :=
            "chart_" +:+ pystr (take 8 (str (uuid_hex u))) +:+ ".png" in
          let* _ := lift (os_rename (default EmptyString image_filename)
                            new_name) in
          ret (JStr ("media/" +:+ new_name))
        else ret JNull) in
     let* chat_history :=
       lift (py_append (bot_message bot_response image_path) chat_history) in
     let* _ := save_chat_history chat_id chat_history in
     ret chat_history)
    (fun _ => true)
    (lift (py_append (bot_message "Sorry, I encountered an error." JNull)
             chat_history)).

(** Lines 703 to 739: the POST branch of [home]. *)
Definition home_post (req : request) : M unit :=
  let* current := session_get in
  let* chat_id :=
    (if falsy current
     then let* '(chat_id, _) := get_or_create_chat None true in
          let* _ := session_set (Some chat_id) in
          ret chat_id
     else ret (default EmptyString current)) in
  let* chat_history := load_chat_history chat_id in
  let user_query := strip (default EmptyString (form_user_query req)) in
  if bool_decide (user_query = EmptyString) then ret ()
  else
    let* chat_history :=
      lift (py_append (user_message user_query) chat_history) in
    let* _ := bot_turn chat_id chat_history user_query in
    ret ().

Definition home (req : request) : M response :=
  let* _ := when (is_post req) (home_post req) in
  let query_chat_id := arg_chat_id req in
  let new_chat := bool_decide (arg_new_chat req = Some "1") in
  let* '(chat_id, chat_history) :=
    (if new_chat then get_or_create_chat None true
     else let* current := session_get in
          get_or_create_chat
            (if falsy query_chat_id then current else query_chat_id)
            false) in
  let* _ := session_set (Some chat_id) in
  let* pinned_list := load_pinned_chats in
  let* chat_sessions := list_chat_sessions in
  ret (Page chat_history chat_sessions chat_id pinned_list).

(** The keyword arguments a tool is called with: the plan's own, with the
    cached data under [data] unless the plan supplies that key. *)
Definition call_arguments (arguments : option (gmap string pyobj))
    (data : pyobj) : gmap string pyobj :=
  match default ∅ arguments !! "data" with
  | Some _ => default ∅ arguments
  | None => <["data" := data]> (default ∅ arguments)
  end.

(** The directory and the session a POST works on, once a session has
    been created for a request that comes without one. *)
Definition post_dir (w : world) : gmap string file :=
  if falsy (cookie w)
  then <[chat_file (uuid_str (uuid4 (draws w))) :=
           File (Document (JArr [])) (clock w)]> (chat_dir w)
  else chat_dir w.

Definition post_session (w : world) : string :=
  if falsy (cookie w) then uuid_str (uuid4 (draws w))
  else default EmptyString (cookie w).

End Web.

Arguments PlanFalsy {pyobj}.
Arguments PlanDict {pyobj} tool_name arguments.
Arguments PlanOther {pyobj}.
Arguments get_tool_belt {pyobj} finbot.
Arguments chatbot_response {pyobj} py_str get_tool_call finbot
  user_query current_data.
Arguments current_data {pyobj} load_data empty_dict cached_data.
Arguments bot_turn {pyobj}.
Arguments home_post {pyobj}.
Arguments home {pyobj}.
Arguments call_arguments {pyobj} arguments data.

(** ** The media route and the chat titles *)

(** What [serve_media] answers: the response of [send_file] on a file of
    the media directory, named by its path below that directory, with
    its MIME type; or a body with a status code. *)
Inductive media_response :=
| SendFile (path : string) (mimetype : string)
| Status (body : string) (code : Z).

(** [media_exists name] is [os.path.exists] on [name] joined to the media
    directory. *)
Definition serve_media (media_exists : string → bool) (filename : string)
  : media_response :=
  let filename := safe_filename (Some filename) in
  if media_exists filename then SendFile filename "image/png"
  else Status "File not found" 404.

(** The truth value Python gives a loaded document. *)
Definition truthy (v : json) : bool :=
  match v with
  | JNull => false
  | JBool b => b
  | JNum n => negb (n =? 0)%Z
  | JStr s => negb (bool_decide (s = EmptyString))
  | JArr xs => negb (bool_decide (xs = []))
  | JObj members => negb (bool_decide (members = []))
  end.

(** [text[:limit] + ("..." if len(text) > limit else "")] on a [str]. *)
Definition shorten (limit : nat) (text : string) : string :=
  pystr (take limit (str text))
  +:+ (if limit <? String.length text then "..." else EmptyString).

(** The loop of [get_chat_title] over the messages.  [None] stands for an
    exception: a message that is not a dict has no [get] (AttributeError),
    and a truthy text that is not a [str] cannot be cut and joined to one
    (TypeError, or KeyError for a dict from Python 3.12 on).  [msg.get]
    returns [None] for an absent key. *)
Fixpoint first_title (limit : nat) (history : list json) : option string :=
  match history with
  | [] => Some "New Chat"
  | msg :: history' =>
      match msg with
      | JObj members =>
          let role := default JNull (assoc "role" members) in
          let text := default JNull (assoc "text" members) in
          if is_str "user" role && truthy text
          then match text with
               | JStr s => Some (shorten limit s)
               | _ => None
               end
          else first_title limit history'
      | _ => None
      end
  end.

(** [get_chat_title] reads the store and leaves it as it is; it returns
    the title, or [None] when it raises. *)
Definition get_chat_title (chat_id : string) (is_pinned : bool) (w : world)
  : option string :=
  match (load_chat_history chat_id w).1 with
  | Ok history =>
      match py_iter history with
      | Ok msgs => first_title (if is_pinned then 10 else 20) msgs
      | Raise _ => None
      end
  | Raise _ => None
  end.

(** * Vocabulary of the properties

    The predicates, summaries and example stores the statements below are
    written with. *)

(** ** Strings *)

(** The replacement of a one-character class, character by character. *)
Definition replace_class (p : ascii → bool) (by_ : ascii) (l : chars) : chars :=
  (fun c => if p c then by_ else c) <$> l.

(** ** Reading the store *)

(** A read of [name] that does not yield a document: the file is missing,
    its bytes do not decode, or its text is not JSON. *)
Definition read_fails (w : world) (name : string) : Prop :=
  ∀ v, (read_json name w).1 ≠ Ok v.

Definition missing_or_malformed (w : world) (name : string) : Prop :=
  chat_dir w !! name = None
  ∨ ∃ m, chat_dir w !! name = Some (File Malformed m).

Definition empty_world : world :=
  {| chat_dir := ∅; cookie := None; clock := 0; draws := 0 |}.

(** ** The pinned list and the sessions *)

(** The pinned list as the handlers see it. *)
Definition pinned (w : world) : result json := (load_pinned_chats w).1.

(** The list [pin_chat] writes back. *)
Definition toggle (x : string) (l : list json) : list json :=
  if existsb (is_str x) l then remove_first x l else JStr x :: l.

(** A store with two pinned identifiers and their session files. *)
Definition two_pinned : world :=
  {| chat_dir :=
       {[ PINNED_CHATS_FILE := File (Document (JArr [JStr "a"; JStr "b"])) 0;
          "a.json" := File (Document (JArr [])) 1;
          "b.json" := File (Document (JArr [])) 2 ]};
     cookie := None; clock := 3; draws := 0 |}.

Definition remove_file (name : string) (w : world) : world :=
  {| chat_dir := delete name (chat_dir w); cookie := cookie w;
     clock := clock w; draws := draws w |}.

(** The session identifiers [list_chat_sessions] collects from the
    directory. *)
Definition sessions_of (w : world) : list string :=
  drop_last 5 <$>
    filter (fun fname => endswith fname ".json" = true
                         ∧ fname ≠ "pinned_chats.json")
      (map_to_list (chat_dir w)).*1.

(** A session of the store: an identifier other than [pinned_chats] with
    a [.json] file of its name. *)
Definition is_session (w : world) (cid : string) : Prop :=
  is_Some (chat_dir w !! (cid +:+ ".json")) ∧ cid ≠ "pinned_chats".

(** A store where one pinned identifier has no session file and one
    session is not pinned. *)
Definition ghost_pinned : world :=
  {| chat_dir :=
       {[ PINNED_CHATS_FILE :=
            File (Document (JArr [JStr "b"; JStr "ghost"; JStr "a"])) 0;
          "a.json" := File (Document (JArr [])) 1;
          "b.json" := File (Document (JArr [])) 2;
          "c.json" := File (Document (JArr [])) 3 ]};
     cookie := None; clock := 4; draws := 0 |}.

(** ** Requests and messages *)

(** Computations that only read the store. *)
Definition read_only {A} (m : M A) : Prop := ∀ w, (m w).2 = w.

(** The history [load_chat_history] finds in a directory. *)
Definition history_in (d : gmap string file) (chat_id : string) : json :=
  match d !! chat_file chat_id with
  | Some f => match content f with Document v => v | _ => JArr [] end
  | None => JArr []
  end.

(** The stripped query of a POST. *)
Definition post_query (req : request) : string :=
  strip (default EmptyString (form_user_query req)).

(** [t] is [s] without the white space at its two ends. *)
Definition stripped_of (s t : chars) : Prop :=
  ∃ lead trail,
    s = lead ++ t ++ trail
    ∧ Forall (fun c => is_space c = true) lead
    ∧ Forall (fun c => is_space c = true) trail
    ∧ (∀ c, head t = Some c → is_space c = false)
    ∧ (∀ c, last t = Some c → is_space c = false).

(** The [image] member of a bot message: [None] or a path under the
    media directory. *)
Definition image_ref (img : json) : Prop :=
  img = JNull ∨ ∃ name, img = JStr ("media/" +:+ name).

(** Computations that leave the chats directory as it is. *)
Definition keeps_dir {A} (m : M A) : Prop :=
  ∀ w, chat_dir (m w).2 = chat_dir w.

(** The member names of a JSON object, in order. *)
Definition keys (v : json) : list string :=
  match v with
  | JObj members => members.*1
  | _ => []
  end.

Definition member (k : string) (v : json) : option json :=
  match v with
  | JObj members => assoc k members
  | _ => None
  end.

(** ** What a successful match looks like

    [matches r cu caps cu' caps'] says that [r] can read from [cu] to
    [cu'], turning the groups [caps] into [caps'].  Every result of the
    backtracking matcher is such a reading. *)
Inductive matches : regex → cursor → captures → cursor → captures → Prop :=
| matches_eps cu caps : matches Eps cu caps cu caps
| matches_chr c pv x tl caps :
    is_char c x = true →
    matches (Chr c) (Cursor pv (x :: tl)) caps (Cursor (Some x) tl) caps
| matches_cls p pv x tl caps :
    p x = true →
    matches (Cls p) (Cursor pv (x :: tl)) caps (Cursor (Some x) tl) caps
| matches_bol m cu caps :
    at_bol m cu = true → matches (Bol m) cu caps cu caps
| matches_eol m cu caps :
    at_eol m cu = true → matches (Eol m) cu caps cu caps
| matches_seq r1 r2 cu caps cu1 caps1 cu2 caps2 :
    matches r1 cu caps cu1 caps1 → matches r2 cu1 caps1 cu2 caps2 →
    matches (Seq r1 r2) cu caps cu2 caps2
| matches_alt_l r1 r2 cu caps cu' caps' :
    matches r1 cu caps cu' caps' → matches (Alt r1 r2) cu caps cu' caps'
| matches_alt_r r1 r2 cu caps cu' caps' :
    matches r2 cu caps cu' caps' → matches (Alt r1 r2) cu caps cu' caps'
| matches_star_exit g r cu caps : matches (Star g r) cu caps cu caps
| matches_star_again g r cu caps cu1 caps1 cu2 caps2 :
    matches r cu caps cu1 caps1 → matches (Star g r) cu1 caps1 cu2 caps2 →
    matches (Star g r) cu caps cu2 caps2
| matches_group n r cu caps cu' caps' :
    matches r cu caps cu' caps' →
    matches (Group n r) cu caps cu' ((n, consumed cu cu') :: caps').

Definition last_of (pv : option ascii) (m : chars) : option ascii :=
  match last m with
  | Some x => Some x
  | None => pv
  end.

(** Syntactic summaries of a pattern: whether it is free of groups, the
    characters it can read, and whether it reads at least one. *)
Fixpoint no_groups (r : regex) : bool :=
  match r with
  | Group _ _ => false
  | Seq r1 r2 | Alt r1 r2 => no_groups r1 && no_groups r2
  | Star _ r1 => no_groups r1
  | _ => true
  end.

Fixpoint chars_of (r : regex) (c : ascii) : bool :=
  match r with
  | Chr x => is_char x c
  | Cls p => p c
  | Seq r1 r2 | Alt r1 r2 => chars_of r1 c || chars_of r2 c
  | Star _ r1 | Group _ r1 => chars_of r1 c
  | _ => false
  end.

Fixpoint nonnull (r : regex) : bool :=
  match r with
  | Chr _ | Cls _ => true
  | Seq r1 r2 => nonnull r1 || nonnull r2
  | Alt r1 r2 => nonnull r1 && nonnull r2
  | Group _ r1 => nonnull r1
  | _ => false
  end.

(** [reads r cu m cu']: from [cu] the text [m] is read and [cu'] reached. *)
Definition reads (r : regex) (cu : cursor) (m : chars) (cu' : cursor) : Prop :=
  rest cu = m ++ rest cu'
  ∧ prev cu' = last_of (prev cu) m
  ∧ Forall (fun c => chars_of r c = true) m
  ∧ (nonnull r = true → m ≠ []).

(** ** Tokens of a rendered text *)

Inductive token :=
| Tag (s : string)
| Ent (s : string)
| Plain (c : ascii).

(** The tags the renderer writes and the entities [escape] writes.  The
    tags of a third-level heading are not among them: the first pass
    writes them escaped. *)
Definition tags : list string :=
  ["<h2>"; "</h2>"; "<hr>"; "<b>"; "</b>"; "<i>"; "</i>";
   "<li>"; "</li>"; "<ul>"; "</ul>"; "<br>"].

Definition entities : list string :=
  ["&amp;"; "&gt;"; "&lt;"; "&#39;"; "&#34;"].

Definition markup_char (c : ascii) : bool :=
  (is_char "<" c || is_char ">" c || is_char "&" c)%char.

Definition valid (t : token) : Prop :=
  match t with
  | Tag s => s ∈ tags
  | Ent s => s ∈ entities
  | Plain c => markup_char c = false
  end.

Definition token_chars (t : token) : chars :=
  match t with
  | Tag s | Ent s => str s
  | Plain c => [c]
  end.

Definition flat (toks : list token) : chars := toks ≫= token_chars.

Definition ents (toks : list token) : list string :=
  omap (fun t => match t with Ent s => Some s | _ => None end) toks.

(** A text is HTML-safe when it is a sequence of valid tokens: every angle
    bracket in it belongs to a tag of the renderer and every ampersand
    starts an entity. *)
Definition html_safe (s : chars) (toks : list token) : Prop :=
  s = flat toks ∧ Forall valid toks.

(** Characters inside a tag or entity: [inner_left c] when [c] occurs
    before the last character of one, [inner_right c] when it occurs after
    the first. *)
Definition blocks : list chars := str <$> (tags ++ entities).

Definition inner_left (c : ascii) : bool :=
  existsb (fun b => existsb (is_char c) (removelast b)) blocks.

Definition inner_right (c : ascii) : bool :=
  existsb (fun b => existsb (is_char c) (tail b)) blocks.

(** A cursor is locally clean when the characters around it show that it
    is not inside a tag or entity. *)
Definition prev_ok (cu : cursor) : bool :=
  match prev cu with
  | None => true
  | Some x => negb (inner_left x)
  end.

Definition next_ok (cu : cursor) : bool :=
  match rest cu with
  | [] => true
  | y :: _ => negb (inner_right y)
  end.

Definition lclean (cu : cursor) : bool := prev_ok cu || next_ok cu.

(** A cut of a text between [a] and [b] is acceptable when the characters
    on its two sides do not both belong inside a tag or entity. *)
Definition boundary_ok (a b : chars) : Prop :=
  match last a, head b with
  | Some x, Some y => inner_left x = false ∨ inner_right y = false
  | _, _ => True
  end.

(** ** Where a match can start and end

    [starts_clean r]: a match of [r] can only start at a locally clean
    cursor.  [ends_clean r b]: a match of [r] ends at a locally clean
    cursor, given ([b]) that it starts at one. *)
Definition all_ascii : list ascii := ascii_of_nat <$> seq 0 256.

Definition class_within (p q : ascii → bool) : bool :=
  forallb (fun c => implb (p c) (q c)) all_ascii.

Fixpoint starts_clean (r : regex) : bool :=
  match r with
  | Chr c => negb (inner_right c)
  | Cls p => class_within p (fun c => negb (inner_right c))
  | Bol _ | Eol _ => true
  | Seq r1 _ => starts_clean r1
  | Alt r1 r2 => starts_clean r1 && starts_clean r2
  | Group _ r1 => starts_clean r1
  | Eps | Star _ _ => false
  end.

Fixpoint ends_clean (r : regex) (b : bool) : bool :=
  match r with
  | Eps => b
  | Chr c => negb (inner_left c)
  | Cls p => class_within p (fun c => negb (inner_left c))
  | Bol _ | Eol _ => true
  | Seq r1 r2 => ends_clean r2 (ends_clean r1 b)
  | Alt r1 r2 => ends_clean r1 b && ends_clean r2 b
  | Star _ r1 => b && ends_clean r1 true
  | Group _ r1 => ends_clean r1 b
  end.

(** ** One substitution pass keeps a text HTML-safe

    What is asked of a pattern and its replacement: no match starts
    inside a tag or entity; and a match that starts between two tokens
    ends between two tokens, reads at least one, and is replaced by valid
    tokens that carry the same entities. *)
Definition sub_ok (r : regex) (t : list titem) : Prop :=
  (∀ cu, lclean cu = false → match_at r cu = None)
  ∧ (∀ cu cu' caps toks,
       Forall valid toks → rest cu = flat toks →
       match_at r cu = Some (cu', caps) →
       ∃ t_m t_rest t_out,
         toks = t_m ++ t_rest ∧ t_m ≠ [] ∧ rest cu' = flat t_rest
         ∧ expand t ((0, consumed cu cu') :: caps) = flat t_out
         ∧ Forall valid t_out ∧ ents t_out = ents t_m).

(** The token [escape] writes for one character of the raw text. *)
Definition escape_token (c : ascii) : token :=
  (if is_char "&" c then Ent "&amp;"
   else if is_char ">" c then Ent "&gt;"
   else if is_char "<" c then Ent "&lt;"
   else if is_char "'" c then Ent "&#39;"
   else if is_char "034" c then Ent "&#34;"
   else Plain c)%char.

(** The entities of the characters of a raw text that [escape] replaces,
    in the order of the text. *)
Definition raw_entities (text : string) : list string :=
  ents (escape_token <$> str text).

(** The characters [escape] leaves in no text: the angle brackets and
    the two quotes. *)
Definition escaped_away (c : ascii) : bool :=
  (is_char "<" c || is_char ">" c || is_char "'" c || is_char "034" c)%char.

(** The entities of a third-level heading line whose text holds the
    entities [g]: two for the brackets of the escaped opening tag, an
    ampersand for every entity of the text, escaped once more, and two
    for the brackets of the escaped closing tag. *)
Definition heading_entities (g : list string) : list string :=
  ["&lt;"; "&gt;"] ++ ((fun _ => "&amp;") <$> g) ++ ["&lt;"; "&gt;"].

(** The entities of a rendered text against those of the raw text: an
    entity outside the third-level headings is kept, the entities of such
    a heading line are replaced by its [heading_entities]. *)
Inductive reescaped : list string → list string → Prop :=
| reescaped_nil : reescaped [] []
| reescaped_keep e es es' :
    reescaped es es' → reescaped (e :: es) (e :: es')
| reescaped_heading g es es' :
    reescaped es es' → reescaped (g ++ es) (heading_entities g ++ es').

(** What is asked of the first pass, which runs on the escaped text and
    escapes what it writes: as for [sub_ok], but the tokens written for a
    match carry the [heading_entities] of the tokens read. *)
Definition sub_ok_escaping (r : regex) (f : captures → chars) : Prop :=
  (∀ cu, lclean cu = false → match_at r cu = None)
  ∧ (∀ cu cu' caps toks,
       Forall valid toks →
       Forall (fun c => escaped_away c = false) (flat toks) →
       rest cu = flat toks →
       match_at r cu = Some (cu', caps) →
       ∃ t_m t_rest t_out,
         toks = t_m ++ t_rest ∧ t_m ≠ [] ∧ rest cu' = flat t_rest
         ∧ f ((0, consumed cu cu') :: caps) = flat t_out
         ∧ Forall valid t_out ∧ ents t_out = heading_entities (ents t_m)).

(** ** Instances: a planner and tools that fail, one session, one POST *)

Definition demo_plan (q : string) (_ : string) : outcome (plan string) :=
  if bool_decide (q = "boom") then Throws "planner down"
  else if bool_decide (q = "balance")
       then Returns (PlanDict (KStr "get_balance") None)
       else Returns (PlanDict (KStr "fly") None).

Definition demo_finbot (_ : string) (_ : gmap string string)
  : outcome string := Throws "no data".

Definition demo_uuid (_ : nat) : uuid :=
  Uuid "00000000-0000-4000-8000-000000000000"
       "00000000000040008000000000000000".

Definition demo_home : request → M response :=
  home (fun s : string => s) demo_plan demo_finbot (Returns "data") "{}" None
    demo_uuid (fun _ => false) (fun _ _ => Ok ()).

(** A store with one empty session, selected by the cookie, and a POST
    of a query with white space around it. *)
Definition one_session : world :=
  {| chat_dir := {[ "s.json" := File (Document (JArr [])) 0 ]};
     cookie := Some "s"; clock := 1; draws := 0 |}.

Definition post_hi : request :=
  {| is_post := true; form_user_query := Some "  hi ";
     arg_chat_id := None; arg_new_chat := None |}.

Definition not_sure : string :=
  "I&#39;m not sure how to do that. Please try rephrasing.".

(** A planner that always picks the summary tool, which answers with a
    heading line and markup characters. *)
Definition report_plan (_ : string) (_ : string) : outcome (plan string) :=
  Returns (PlanDict (KStr "get_summary") None).

Definition report_text : string :=
  "### Food & drink" +:+ lf +:+ "**12** < 20".

Definition report_finbot (_ : string) (_ : gmap string string)
  : outcome string := Returns report_text.

Definition report_home : request → M response :=
  home (fun s : string => s) report_plan report_finbot (Returns "data") "{}"
    None demo_uuid (fun _ => false) (fun _ _ => Ok ()).

(** ** The store around a deletion *)

(** The store once [delete_chat] has removed the session file, if there
    was one. *)
Definition without_file (name : string) (w : world) : world :=
  match chat_dir w !! name with
  | Some _ => remove_file name w
  | None => w
  end.

(** The end of [delete_chat]: the session entry is dropped when it names
    the deleted chat, and the redirect says so. *)
Definition answer_delete (chat_id : string) (w : world)
  : result response * world :=
  if bool_decide (cookie w = Some chat_id)
  then (Ok (Redirect "home" [("new_chat", "1")]), (session_set None w).2)
  else (Ok (Redirect "home" []), w).

(** ** The order of the sessions *)

(** The modification time of the file of a session. *)
Definition mtime_of (w : world) (cid : string) : Z :=
  match chat_dir w !! (cid +:+ ".json") with
  | Some f => mtime f
  | None => 0%Z
  end.

(** [newer w a b]: the file of [a] was modified no earlier than that of
    [b]. *)
Definition newer (w : world) (a b : string) : Prop :=
  (mtime_of w b ≤ mtime_of w a)%Z.

Definition by_key_desc (a b : Z * string) : Prop := (b.1 ≤ a.1)%Z.

(** ** What every match of a pattern reads *)

(** [needs r c]: every match of [r] reads the character [c].
    [first_is r c] and [last_is r c]: every match reads at least one
    character, and the first (the last) it reads is [c].
    [needs_pair r a b]: every match reads [a] immediately followed by
    [b]. *)
Fixpoint needs (r : regex) (c : ascii) : bool :=
  match r with
  | Chr x => is_char x c
  | Seq r1 r2 => needs r1 c || needs r2 c
  | Alt r1 r2 => needs r1 c && needs r2 c
  | Group _ r1 => needs r1 c
  | _ => false
  end.

Fixpoint first_is (r : regex) (c : ascii) : bool :=
  match r with
  | Chr x => is_char x c
  | Seq r1 _ => first_is r1 c
  | Alt r1 r2 => first_is r1 c && first_is r2 c
  | Group _ r1 => first_is r1 c
  | _ => false
  end.

Fixpoint last_is (r : regex) (c : ascii) : bool :=
  match r with
  | Chr x => is_char x c
  | Seq _ r2 => last_is r2 c
  | Alt r1 r2 => last_is r1 c && last_is r2 c
  | Group _ r1 => last_is r1 c
  | _ => false
  end.

Fixpoint needs_pair (r : regex) (a b : ascii) : bool :=
  match r with
  | Seq r1 r2 =>
      needs_pair r1 a b || needs_pair r2 a b || (last_is r1 a && first_is r2 b)
  | Alt r1 r2 => needs_pair r1 a b && needs_pair r2 a b
  | Group _ r1 => needs_pair r1 a b
  | _ => false
  end.

(** [a] immediately followed by [b] somewhere in a text. *)
Fixpoint has_pair (a b : ascii) (l : chars) : bool :=
  match l with
  | x :: tl =>
      match tl with
      | y :: _ => (is_char a x && is_char b y) || has_pair a b tl
      | [] => false
      end
  | [] => false
  end.

(** A text no match of [r] can lie in: a character, or a pair of adjacent
    characters, that every match reads does not occur in it. *)
Definition unread (r : regex) (l : chars) : Prop :=
  (∃ c, needs r c = true ∧ c ∉ l)
  ∨ (∃ a b, needs_pair r a b = true ∧ has_pair a b l = false).

(** ** Classes of characters of raw and rendered texts *)

(** The characters the markdown patterns look for in a raw text: hash,
    hyphen, asterisk and the two line ends. *)
Definition syntax_char (c : ascii) : bool :=
  (is_char "#" c || is_char "-" c || is_char "*" c)%char
  || is_char newline c || is_char carriage_return c.

(** What is left of those, and of the opening angle, in an escaped text
    of a raw text without them. *)
Definition quiet_char (c : ascii) : bool :=
  negb ((is_char "-" c || is_char "*" c || is_char "<" c)%char
        || is_char newline c || is_char carriage_return c).

(** Characters on which the patterns for rules, emphasis, list items and
    line breaks find nothing to start from. *)
Definition calm_char (c : ascii) : bool :=
  negb ((is_char "-" c || is_char "*" c)%char || is_char newline c).

(** The two quotes and the carriage return. *)
Definition quote_or_cr (c : ascii) : bool :=
  (is_char "'" c || is_char "034" c)%char || is_char carriage_return c.

(** The literal text of a replacement template. *)
Definition template_text (t : list titem) : chars :=
  concat ((fun i => match i with TLit s => str s | TGroup _ => [] end) <$> t).

(** ** The session a request selects *)

(** The identifier the GET part of [home] works on: the [chat_id] argument
    of the query string when it is not empty, the session's otherwise. *)
Definition selected (req : request) (w : world) : option string :=
  if falsy (arg_chat_id req) then cookie w else arg_chat_id req.

(** The store after a new chat was created: one more session file, empty,
    under the next UUID. *)
Definition with_new_chat (uuid4 : nat → uuid) (w : world) : world :=
  {| chat_dir := <[chat_file (uuid_str (uuid4 (draws w))) :=
                     File (Document (JArr [])) (clock w)]> (chat_dir w);
     cookie := cookie w; clock := (clock w + 1)%Z; draws := S (draws w) |}.

(** Lines 750 to 760 of [home]: the session entry is set and the page
    built from the store. *)
Definition render_page (x : string * json) : M response :=
  let '(chat_id, chat_history) := x in
  let* _ := session_set (Some chat_id) in
  let* pinned_list := load_pinned_chats in
  let* chat_sessions := list_chat_sessions in
  ret (Page chat_history chat_sessions chat_id pinned_list).

(** ** Charts *)

(** The name [home] gives a chart it moves to the media directory. *)
Definition chart_name (u : uuid) : string :=
  "chart_" +:+ pystr (take 8 (str (uuid_hex u))) +:+ ".png".

(** The digits of [UUID.hex]. *)
Definition is_hex (c : ascii) : bool :=
  (in_range "0" "9" c || in_range "a" "f" c)%char.

(** ** More instances: odd pinned files, a tool that draws a chart, a
       session with a first message *)

(** A pinned file that holds an empty object, and one whose list holds a
    list. *)
Definition pinned_object : world :=
  {| chat_dir := {[ PINNED_CHATS_FILE := File (Document (JObj [])) 0 ]};
     cookie := None; clock := 1; draws := 0 |}.

Definition pinned_nested : world :=
  {| chat_dir :=
       {[ PINNED_CHATS_FILE := File (Document (JArr [JArr [JStr "a"]])) 0 ]};
     cookie := None; clock := 1; draws := 0 |}.

(** A planner that always picks the chart tool, which answers with the
    name of the chart it drew; the chart is there and can be moved. *)
Definition chart_plan (_ : string) (_ : string) : outcome (plan string) :=
  Returns (PlanDict (KStr "visualize_spending") None).

Definition chart_finbot (_ : string) (_ : gmap string string)
  : outcome string := Returns "Saved spending.png".

Definition hex_uuid (_ : nat) : uuid :=
  Uuid "01234567-89ab-4cde-8f01-23456789abcd"
       "0123456789ab4cde8f0123456789abcd".

Definition chart_there (name : string) : bool :=
  bool_decide (name = "spending.png").

Definition chart_home_post : request → M unit :=
  home_post (fun s : string => s) chart_plan chart_finbot (Returns "data")
    "{}" None hex_uuid chart_there (fun _ _ => Ok ()).

Definition chart_bot_turn : string → json → string → M json :=
  bot_turn (fun s : string => s) chart_plan chart_finbot (Returns "data")
    "{}" None hex_uuid chart_there (fun _ _ => Ok ()).

Definition demo_home_post : request → M unit :=
  home_post (fun s : string => s) demo_plan demo_finbot (Returns "data")
    "{}" None demo_uuid (fun _ => false) (fun _ _ => Ok ()).

(** A planner whose answer is not a dict. *)
Definition list_plan (_ : string) (_ : string) : outcome (plan string) :=
  Returns PlanOther.

(** A planner that greets. *)
Definition greeting_plan (_ : string) (_ : string) : outcome (plan string) :=
  Returns (PlanDict (KStr "greeting_response") None).

(** A session with a first exchange, selected by the cookie; a session
    file that holds an object; a GET of the home page, and a POST of a
    blank query. *)
Definition titled_session : world :=
  {| chat_dir :=
       {[ "s.json" :=
            File (Document
                    (JArr [user_message "What did I spend on food in March?";
                           bot_message "A lot." JNull])) 0 ]};
     cookie := Some "s"; clock := 1; draws := 0 |}.

Definition object_session : world :=
  {| chat_dir := {[ "s.json" := File (Document (JObj [])) 0 ]};
     cookie := Some "s"; clock := 1; draws := 0 |}.

Definition get_home : request :=
  {| is_post := false; form_user_query := None;
     arg_chat_id := None; arg_new_chat := None |}.

Definition post_blank : request :=
  {| is_post := true; form_user_query := Some "   ";
     arg_chat_id := None; arg_new_chat := None |}.

(** * Properties *)

(** ** Strings and the scan of a one-character pattern *)

Lemma str_pystr (l : chars) : str (pystr l) = l.
Proof. apply list_ascii_of_string_of_list_ascii. Qed.

Lemma pystr_str (s : string) : pystr (str s) = s.
Proof. apply string_of_list_ascii_of_string. Qed.

Lemma length_str (s : string) : length (str s) = String.length s.
Proof. induction s as [|c s IH]; simpl; [reflexivity | by rewrite IH]. Qed.

Lemma is_char_true (x c : ascii) : is_char x c = true ↔ x = c.
Proof. apply Stdlib.Strings.Ascii.eqb_eq. Qed.

Lemma is_char_refl (c : ascii) : is_char c c = true.
Proof. by apply is_char_true. Qed.

Lemma sub_from_class (p : ascii → bool) (by_ : ascii) (fuel : nat)
    (pv : option ascii) (l : chars) :
  length l < fuel →
  sub_from (Cls p) [TLit (String by_ EmptyString)] fuel (Cursor pv l)
  = replace_class p by_ l.
Proof.
  revert pv l. induction fuel as [|fuel IH]; intros pv l Hlen; [lia|].
  destruct l as [|c tl]; [reflexivity|].
  simpl in Hlen. cbn [sub_from match_at exec step rest].
  destruct (p c) eqn:Hp.
  - cbn [rest length]. rewrite (proj2 (Nat.ltb_lt _ _)) by lia.
    unfold replace_class. cbn [fmap list_fmap]. rewrite Hp.
    cbn. f_equal. apply IH. lia.
  - unfold replace_class. cbn [fmap list_fmap]. rewrite Hp.
    f_equal. apply IH. lia.
Qed.

Lemma safe_filename_chars (name : option string) :
  str (safe_filename name)
  = replace_class (fun c => negb (filename_char c)) "_"
      (str (default EmptyString name)).
Proof.
  unfold safe_filename, re_sub, unsafe_char_re.
  rewrite str_pystr. apply sub_from_class. rewrite length_str. lia.
Qed.

Lemma replace_class_fix (p : ascii → bool) (by_ : ascii) (l : chars) :
  p by_ = false → Forall (fun c => p c = false) (replace_class p by_ l).
Proof.
  intros Hby. unfold replace_class. apply Forall_fmap, Forall_forall.
  intros c _. simpl. by destruct (p c) eqn:Hp.
Qed.

Lemma replace_class_id (p : ascii → bool) (by_ : ascii) (l : chars) :
  Forall (fun c => p c = false) l → replace_class p by_ l = l.
Proof.
  unfold replace_class. induction 1 as [|c l Hc _ IH]; [reflexivity|].
  cbn [fmap list_fmap]. rewrite Hc. f_equal. exact IH.
Qed.

(** C9. For every input, [None] included (it is read as the empty
    string), [safe_filename] returns a string of the same length in which
    every character of the class of letters, digits, underscore, dot and
    hyphen is kept and every other character is an underscore; so every
    character of the result is in the class, no slash or backslash occurs
    in it, and sanitising the result again changes nothing. *)
Theorem safe_filename_sanitises (name : option string) :
  let out := safe_filename name in
  str out = (fun c => if filename_char c then c else "_"%char)
              <$> str (default EmptyString name)
  ∧ Forall (fun c => filename_char c = true) (str out)
  ∧ ("/"%char ∉ str out)
  ∧ ("\"%char ∉ str out)
  ∧ safe_filename (Some out) = out
  ∧ safe_filename None = EmptyString.
Proof.
  intros out.
  assert (Hin : Forall (fun c => negb (filename_char c) = false) (str out)).
  { unfold out. rewrite safe_filename_chars. by apply replace_class_fix. }
  assert (Hcls : Forall (fun c => filename_char c = true) (str out)).
  { eapply Forall_impl; [exact Hin|]. intros c Hc. simpl in Hc.
    by destruct (filename_char c). }
  split; [|split; [exact Hcls|split; [|split; [|split]]]].
  - unfold out. rewrite safe_filename_chars. unfold replace_class.
    apply list_fmap_ext. intros _ c _. simpl. by destruct (filename_char c).
  - intros Hsep. rewrite Forall_forall in Hcls. by apply Hcls in Hsep.
  - intros Hsep. rewrite Forall_forall in Hcls. by apply Hcls in Hsep.
  - rewrite <- (pystr_str (safe_filename (Some out))), safe_filename_chars.
    simpl. rewrite replace_class_id by exact Hin. apply pystr_str.
  - reflexivity.
Qed.

(** ** Loading falls back to the empty list *)

Ltac unfold_monad :=
  unfold bind, ret, raise, lift, when, try_except, path_exists, read_json,
    write_json, os_remove, session_get, session_set in *.

Lemma load_chat_history_total (chat_id : string) (w : world) :
  ∃ v, load_chat_history chat_id w = (Ok v, w).
Proof.
  unfold load_chat_history. unfold_monad.
  destruct (chat_dir w !! chat_file chat_id) as [[[| |v] m]|]; simpl; eauto.
Qed.

Lemma load_pinned_chats_eq (w : world) :
  load_pinned_chats w
  = (match chat_dir w !! PINNED_CHATS_FILE with
     | None => Ok (JArr [])
     | Some f =>
         match content f with
         | Undecodable => Raise UnicodeDecodeError
         | Malformed => Ok (JArr [])
         | Document v => Ok v
         end
     end, w).
Proof.
  unfold load_pinned_chats. unfold_monad.
  destruct (chat_dir w !! PINNED_CHATS_FILE) as [[[| |v] m]|] eqn:E;
    simpl; rewrite ?E; reflexivity.
Qed.

Lemma load_pinned_chats_world (w : world) :
  (load_pinned_chats w).2 = w.
Proof. by rewrite load_pinned_chats_eq. Qed.

(** The pinned loader lets a decoding error through: its handler names
    two classes only. *)
Lemma load_pinned_chats_undecodable (w : world) (m : Z) :
  chat_dir w !! PINNED_CHATS_FILE = Some (File Undecodable m) →
  load_pinned_chats w = (Raise UnicodeDecodeError, w).
Proof. intros E. by rewrite load_pinned_chats_eq, E. Qed.

(** C4. [load_chat_history] never raises and returns the empty list
    whenever the read of the session file fails in any way (missing file,
    bytes that do not decode, text that is not JSON); [load_pinned_chats]
    returns the empty list, without raising, when the pinned file is
    missing or its text is not JSON.  Neither changes the store. *)
Theorem load_failures_fall_back (w : world) :
  (∀ chat_id, ∃ v, load_chat_history chat_id w = (Ok v, w))
  ∧ (∀ chat_id, read_fails w (chat_file chat_id) →
       load_chat_history chat_id w = (Ok (JArr []), w))
  ∧ (missing_or_malformed w PINNED_CHATS_FILE →
       load_pinned_chats w = (Ok (JArr []), w)).
Proof.
  split; [|split].
  - intros chat_id. apply load_chat_history_total.
  - intros chat_id Hfail. unfold read_fails in Hfail.
    unfold load_chat_history. unfold_monad.
    destruct (chat_dir w !! chat_file chat_id) as [[[| |v] m]|]; simpl in *;
      try reflexivity.
    by destruct (Hfail v).
  - intros [E|[m E]]; by rewrite load_pinned_chats_eq, E.
Qed.

Lemma load_failures_fall_back_witness :
  load_chat_history "abc" empty_world = (Ok (JArr []), empty_world)
  ∧ load_pinned_chats empty_world = (Ok (JArr []), empty_world).
Proof.
  destruct (load_failures_fall_back empty_world) as (_ & Hhist & Hpin).
  split.
  - apply Hhist. intros v. unfold read_json, empty_world. simpl.
    rewrite lookup_empty. discriminate.
  - apply Hpin. left. apply lookup_empty.
Defined.

(** ** Pinning *)

Lemma is_str_true (x : string) (v : json) : is_str x v = true ↔ v = JStr x.
Proof.
  destruct v; simpl; try (split; discriminate).
  rewrite bool_decide_eq_true. split; [intros ->; reflexivity | congruence].
Qed.

Lemma existsb_is_str (x : string) (l : list json) :
  existsb (is_str x) l = true ↔ JStr x ∈ l.
Proof.
  rewrite existsb_exists. split.
  - intros (v & Hin & Hv). apply is_str_true in Hv as ->.
    by apply list_elem_of_In.
  - intros Hin. exists (JStr x). split; [by apply list_elem_of_In|].
    by apply is_str_true.
Qed.

Lemma existsb_is_str_false (x : string) (l : list json) :
  existsb (is_str x) l = false ↔ JStr x ∉ l.
Proof.
  rewrite <- existsb_is_str. destruct (existsb (is_str x) l); split; congruence.
Qed.

Lemma remove_first_other (x : string) (l : list json) (v : json) :
  v ≠ JStr x → v ∈ remove_first x l ↔ v ∈ l.
Proof.
  intros Hne. induction l as [|y l IH]; simpl; [reflexivity|].
  destruct (is_str x y) eqn:E.
  - apply is_str_true in E as ->. rewrite elem_of_cons. tauto.
  - rewrite !elem_of_cons, IH. reflexivity.
Qed.

Lemma remove_first_sublist (x : string) (l : list json) :
  sublist (remove_first x l) l.
Proof.
  induction l as [|y l IH]; simpl; [constructor|].
  destruct (is_str x y); [by apply sublist_cons | by apply sublist_skip].
Qed.

Lemma remove_first_NoDup (x : string) (l : list json) :
  NoDup l → NoDup (remove_first x l) ∧ JStr x ∉ remove_first x l.
Proof.
  induction 1 as [|y l Hy Hl IH]; simpl.
  - split; [constructor | apply not_elem_of_nil].
  - destruct (is_str x y) eqn:E.
    + apply is_str_true in E as ->. by split.
    + destruct IH as [IH1 IH2]. split.
      * constructor; [|exact IH1].
        intros Hin. apply Hy. eapply elem_of_sublist; [exact Hin|].
        apply remove_first_sublist.
      * rewrite elem_of_cons. intros [<-|Hin]; [|by apply IH2].
        simpl in E. by rewrite bool_decide_eq_false in E.
Qed.

Lemma pinned_after_write (w : world) (v : json) :
  pinned (write_json PINNED_CHATS_FILE v w).2 = Ok v.
Proof.
  unfold pinned. rewrite load_pinned_chats_eq. unfold write_json. simpl.
  by rewrite lookup_insert_eq.
Qed.

Lemma pin_chat_eq (w : world) (chat_id : string) (l : list json) :
  pinned w = Ok (JArr l) →
  pin_chat chat_id w
  = (Ok (Redirect "home" [("chat_id", chat_id)]),
     (write_json PINNED_CHATS_FILE (JArr (toggle chat_id l)) w).2).
Proof.
  unfold pinned. rewrite load_pinned_chats_eq. simpl. intros Hl.
  unfold pin_chat, bind. rewrite load_pinned_chats_eq, Hl.
  unfold lift, ret, save_pinned_chats, py_in, toggle. simpl.
  destruct (existsb (is_str chat_id) l) eqn:Ex; simpl; rewrite ?Ex; reflexivity.
Qed.

Lemma toggle_NoDup (x : string) (l : list json) :
  NoDup l → NoDup (toggle x l).
Proof.
  intros Hl. unfold toggle. destruct (existsb (is_str x) l) eqn:E.
  - by apply remove_first_NoDup.
  - constructor; [by apply existsb_is_str_false | exact Hl].
Qed.

Lemma toggle_elem_of (x : string) (l : list json) :
  NoDup l → JStr x ∈ toggle x l ↔ JStr x ∉ l.
Proof.
  intros Hl. unfold toggle. destruct (existsb (is_str x) l) eqn:E.
  - apply existsb_is_str in E. pose proof (remove_first_NoDup x l Hl) as [_ H].
    split; [by intros ?%H | by intros []].
  - apply existsb_is_str_false in E. rewrite elem_of_cons. naive_solver.
Qed.

(** The handlers keep the pinned list a set. *)
Lemma pin_chat_keeps_set (w : world) (chat_id : string) (l : list json) :
  pinned w = Ok (JArr l) → NoDup l →
  ∃ l', pinned (pin_chat chat_id w).2 = Ok (JArr l') ∧ NoDup l'.
Proof.
  intros Hl Hnd. exists (toggle chat_id l). split; [|by apply toggle_NoDup].
  rewrite (pin_chat_eq w chat_id l Hl). apply pinned_after_write.
Qed.

(** C1. On a pinned list that is a set (no identifier twice), [pin_chat]
    toggles the identifier: it is a member afterwards exactly when it
    was not one before, so an identifier already pinned is removed; and
    two calls in a row leave its membership as it was. *)
Theorem pin_chat_toggles (w : world) (chat_id : string) (l : list json) :
  pinned w = Ok (JArr l) →
  NoDup l →
  let w1 := (pin_chat chat_id w).2 in
  let w2 := (pin_chat chat_id w1).2 in
  ∃ l1 l2,
    pinned w1 = Ok (JArr l1) ∧ pinned w2 = Ok (JArr l2)
    ∧ (JStr chat_id ∈ l → JStr chat_id ∉ l1)
    ∧ (JStr chat_id ∈ l1 ↔ JStr chat_id ∉ l)
    ∧ (JStr chat_id ∈ l2 ↔ JStr chat_id ∈ l).
Proof.
  intros Hl Hnd w1 w2.
  assert (H1 : pinned w1 = Ok (JArr (toggle chat_id l))).
  { unfold w1. rewrite (pin_chat_eq w chat_id l Hl). apply pinned_after_write. }
  assert (H2 : pinned w2 = Ok (JArr (toggle chat_id (toggle chat_id l)))).
  { unfold w2. rewrite (pin_chat_eq w1 chat_id _ H1). apply pinned_after_write. }
  exists (toggle chat_id l), (toggle chat_id (toggle chat_id l)).
  pose proof (toggle_elem_of chat_id l Hnd) as T1.
  pose proof (toggle_elem_of chat_id _ (toggle_NoDup chat_id l Hnd)) as T2.
  split; [exact H1|]. split; [exact H2|]. split; [|split].
  - intros Hin Hin'. by apply T1 in Hin'.
  - exact T1.
  - rewrite T2, T1. split; [|by intros ? ?].
    intros Hnn. destruct (existsb (is_str chat_id) l) eqn:E.
    + by apply existsb_is_str.
    + by apply existsb_is_str_false in E.
Qed.

Lemma NoDup_a_b : NoDup [JStr "a"; JStr "b"].
Proof.
  apply NoDup_cons. split; [|apply NoDup_singleton].
  intros H. apply list_elem_of_singleton in H. discriminate.
Qed.

Lemma pin_chat_toggles_witness :
  let w1 := (pin_chat "a" two_pinned).2 in
  let w2 := (pin_chat "a" w1).2 in
  ∃ l1 l2,
    pinned w1 = Ok (JArr l1) ∧ pinned w2 = Ok (JArr l2)
    ∧ (JStr "a" ∈ [JStr "a"; JStr "b"] → JStr "a" ∉ l1)
    ∧ (JStr "a" ∈ l1 ↔ JStr "a" ∉ [JStr "a"; JStr "b"])
    ∧ (JStr "a" ∈ l2 ↔ JStr "a" ∈ [JStr "a"; JStr "b"]).
Proof.
  apply (pin_chat_toggles two_pinned "a" [JStr "a"; JStr "b"]).
  - vm_compute. reflexivity.
  - exact NoDup_a_b.
Defined.

(** C2. When the identifier is not in the pinned list, [pin_chat] answers
    with a redirect and the list persisted afterwards is the identifier
    followed by the former list, unchanged. *)
Theorem pin_chat_inserts_at_front (w : world) (chat_id : string)
    (l : list json) :
  pinned w = Ok (JArr l) →
  JStr chat_id ∉ l →
  (pin_chat chat_id w).1 = Ok (Redirect "home" [("chat_id", chat_id)])
  ∧ pinned (pin_chat chat_id w).2 = Ok (JArr (JStr chat_id :: l))
  ∧ (JStr chat_id :: l) !! 0 = Some (JStr chat_id)
  ∧ ∀ i, (JStr chat_id :: l) !! S i = l !! i.
Proof.
  intros Hl Hnot. rewrite (pin_chat_eq w chat_id l Hl). cbn [fst snd].
  rewrite pinned_after_write. unfold toggle.
  apply existsb_is_str_false in Hnot. rewrite Hnot. auto.
Qed.

Lemma pin_chat_inserts_at_front_witness :
  pinned (pin_chat "c" two_pinned).2
  = Ok (JArr [JStr "c"; JStr "a"; JStr "b"]).
Proof.
  apply (pin_chat_inserts_at_front two_pinned "c" [JStr "a"; JStr "b"]).
  - vm_compute. reflexivity.
  - intros H. rewrite !elem_of_cons in H.
    destruct H as [H|[H|H]]; [discriminate..|]. by apply elem_of_nil in H.
Defined.

(** ** Deleting *)

Lemma remove_first_absent (x : string) (l : list json) :
  JStr x ∉ l → remove_first x l = l.
Proof.
  induction l as [|y l IH]; simpl; [reflexivity|].
  rewrite not_elem_of_cons. intros [Hy Hl].
  destruct (is_str x y) eqn:E.
  - apply is_str_true in E. congruence.
  - f_equal. by apply IH.
Qed.

(** After the removal of the session file, which is not the pinned file,
    the handler sees the pinned list it had before. *)
Lemma pinned_after_remove (w : world) (name : string) :
  name ≠ PINNED_CHATS_FILE →
  pinned (remove_file name w) = pinned w.
Proof.
  intros Hne. unfold pinned. rewrite !load_pinned_chats_eq. simpl.
  by rewrite lookup_delete_ne.
Qed.

Lemma pinned_session_set (w : world) (v : option string) :
  pinned (session_set v w).2 = pinned w.
Proof. unfold pinned. by rewrite !load_pinned_chats_eq. Qed.

(** [delete_chat] away from the pinned file: the session file is gone, the
    identifier is out of the pinned list, and the other identifiers keep
    their places. *)
Lemma delete_chat_spec (w : world) (chat_id : string) (l : list json) :
  chat_file chat_id ≠ PINNED_CHATS_FILE →
  pinned w = Ok (JArr l) →
  NoDup l →
  let w' := (delete_chat chat_id w).2 in
  (∃ args, (delete_chat chat_id w).1 = Ok (Redirect "home" args))
  ∧ chat_dir w' !! chat_file chat_id = None
  ∧ pinned w' = Ok (JArr (remove_first chat_id l))
  ∧ (JStr chat_id ∉ remove_first chat_id l)
  ∧ sublist (remove_first chat_id l) l
  ∧ ∀ v, v ≠ JStr chat_id → v ∈ remove_first chat_id l ↔ v ∈ l.
Proof.
  intros Hne Hl Hnd w'.
  assert (Hrest : (JStr chat_id ∉ remove_first chat_id l)
                  ∧ sublist (remove_first chat_id l) l
                  ∧ ∀ v, v ≠ JStr chat_id → v ∈ remove_first chat_id l ↔ v ∈ l).
  { split; [by apply remove_first_NoDup|].
    split; [apply remove_first_sublist|].
    intros v Hv. by apply remove_first_other. }
  set (w0 := match chat_dir w !! chat_file chat_id with
             | Some _ => remove_file (chat_file chat_id) w
             | None => w
             end).
  assert (Hgone : chat_dir w0 !! chat_file chat_id = None).
  { unfold w0. destruct (chat_dir w !! chat_file chat_id) eqn:E; simpl.
    - apply lookup_delete_eq.
    - exact E. }
  assert (Hp0 : pinned w0 = Ok (JArr l)).
  { unfold w0. destruct (chat_dir w !! chat_file chat_id) eqn:E; [|exact Hl].
    by rewrite pinned_after_remove. }
  assert (Hstep : ∀ k : unit → M response,
             bind (bind (path_exists (chat_file chat_id))
                     (fun there => when there (os_remove (chat_file chat_id))))
                  k w = k () w0).
  { intros k. unfold bind, path_exists, when, os_remove, ret, w0.
    destruct (chat_dir w !! chat_file chat_id) eqn:E; simpl; rewrite ?E;
      reflexivity. }
  assert (Heq : delete_chat chat_id w
    = (let w1 := if existsb (is_str chat_id) l
                 then (write_json PINNED_CHATS_FILE
                         (JArr (remove_first chat_id l)) w0).2
                 else w0 in
       if bool_decide (cookie w1 = Some chat_id)
       then (Ok (Redirect "home" [("new_chat", "1")]),
             (session_set None w1).2)
       else (Ok (Redirect "home" []), w1))).
  { unfold delete_chat.
    transitivity (bind (bind (path_exists (chat_file chat_id))
                     (fun there => when there (os_remove (chat_file chat_id))))
        (fun _ =>
           let* pinned_ids := load_pinned_chats in
           let* pinned := lift (py_in chat_id pinned_ids) in
           let* _ :=
             (if pinned
              then let* pinned_ids := lift (py_remove chat_id pinned_ids) in
                   save_pinned_chats pinned_ids
              else ret ()) in
           let* current := session_get in
           if bool_decide (current = Some chat_id)
           then let* _ := session_set None in
                ret (Redirect "home" [("new_chat", "1")])
           else ret (Redirect "home" [])) w).
    { unfold bind. destruct (path_exists (chat_file chat_id) w) as [[]]; 
        [|reflexivity]. destruct (when _ _ _) as [[]]; reflexivity. }
    rewrite Hstep. unfold pinned in Hp0. rewrite load_pinned_chats_eq in Hp0.
    simpl in Hp0. unfold bind at 1. rewrite load_pinned_chats_eq, Hp0.
    unfold bind, lift, ret, py_in, py_remove, save_pinned_chats, session_get.
    destruct (existsb (is_str chat_id) l) eqn:Ex; simpl; rewrite ?Ex; simpl;
      case_bool_decide; reflexivity. }
  unfold w'. rewrite Heq. clear Heq Hstep.
  destruct (existsb (is_str chat_id) l) eqn:Ex; cbn zeta.
  - set (w1 := (write_json _ _ w0).2).
    assert (Hd : chat_dir w1 !! chat_file chat_id = None).
    { unfold w1, write_json. simpl. by rewrite lookup_insert_ne. }
    assert (Hp : pinned w1 = Ok (JArr (remove_first chat_id l))).
    { apply pinned_after_write. }
    case_bool_decide; cbn [fst snd]; rewrite ?pinned_session_set;
      (split; [eauto|]); (split; [exact Hd|]);
      (split; [exact Hp|exact Hrest]).
  - apply existsb_is_str_false in Ex.
    rewrite (remove_first_absent chat_id l Ex) in *.
    case_bool_decide; cbn [fst snd]; rewrite ?pinned_session_set;
      (split; [eauto|]); (split; [exact Hgone|]);
      (split; [exact Hp0|exact Hrest]).
Qed.

(** C3. At the identifier [pinned_chats], whose session file is the
    pinned file itself, [delete_chat] removes the pinned file: the
    handler completes, and the identifiers that were pinned are pinned no
    more.  [list_chat_sessions] guards against that file name;
    [delete_chat] does not. *)
Theorem delete_chat_pinned_chats_wipes_list :
  chat_file "pinned_chats" = PINNED_CHATS_FILE
  ∧ pinned two_pinned = Ok (JArr [JStr "a"; JStr "b"])
  ∧ (delete_chat "pinned_chats" two_pinned).1 = Ok (Redirect "home" [])
  ∧ pinned (delete_chat "pinned_chats" two_pinned).2 = Ok (JArr [])
  ∧ chat_dir (delete_chat "pinned_chats" two_pinned).2 !! PINNED_CHATS_FILE
    = None.
Proof. vm_compute. repeat split; reflexivity. Qed.

(** Away from that file name the deletion does what is expected of it. *)
Lemma delete_chat_spec_witness :
  pinned (delete_chat "a" two_pinned).2 = Ok (JArr [JStr "b"])
  ∧ chat_dir (delete_chat "a" two_pinned).2 !! "a.json" = None.
Proof.
  destruct (delete_chat_spec two_pinned "a" [JStr "a"; JStr "b"])
    as (_ & Hfile & Hpin & _).
  - vm_compute. discriminate.
  - vm_compute. reflexivity.
  - exact NoDup_a_b.
  - split; [exact Hpin | exact Hfile].
Defined.

(** ** Listing the sessions *)

Lemma str_app (a b : string) : str (a +:+ b) = str a ++ str b.
Proof. induction a as [|c a IH]; simpl; [reflexivity | by rewrite IH]. Qed.

Lemma str_inj (a b : string) : str a = str b → a = b.
Proof. intros H. by rewrite <- (pystr_str a), <- (pystr_str b), H. Qed.

Lemma string_app_inj_r (a b suffix : string) :
  a +:+ suffix = b +:+ suffix → a = b.
Proof.
  intros H. apply str_inj. apply (f_equal str) in H.
  rewrite !str_app in H. by apply app_inv_tail in H.
Qed.

Lemma endswith_app (s suffix : string) : endswith (s +:+ suffix) suffix = true.
Proof.
  unfold endswith. apply bool_decide_eq_true.
  rewrite <- !length_str, str_app, length_app. split; [|lia].
  replace (length (str s) + length (str suffix) - length (str suffix))
    with (length (str s)) by lia.
  by rewrite drop_app_length.
Qed.

Lemma drop_last_app (s suffix : string) :
  drop_last (String.length suffix) (s +:+ suffix) = s.
Proof.
  unfold drop_last. rewrite <- !length_str, str_app, length_app.
  replace (length (str s) + length (str suffix) - length (str suffix))
    with (length (str s)) by lia.
  rewrite take_app_length. apply pystr_str.
Qed.

Lemma endswith_split (s suffix : string) :
  endswith s suffix = true →
  s = drop_last (String.length suffix) s +:+ suffix.
Proof.
  unfold endswith, drop_last. rewrite bool_decide_eq_true. intros [Hd _].
  apply str_inj. rewrite str_app, str_pystr, <- Hd. symmetry.
  apply take_drop.
Qed.

Lemma elem_of_names (w : world) (fname : string) :
  fname ∈ (map_to_list (chat_dir w)).*1 ↔ is_Some (chat_dir w !! fname).
Proof.
  rewrite list_elem_of_fmap. split.
  - intros ([k f] & -> & Hin). apply elem_of_map_to_list in Hin. by eexists.
  - intros [f Hf]. exists (fname, f). split; [reflexivity|].
    by apply elem_of_map_to_list.
Qed.

Lemma elem_of_sessions_of (w : world) (cid : string) :
  cid ∈ sessions_of w ↔ is_session w cid.
Proof.
  unfold sessions_of, is_session. rewrite list_elem_of_fmap. split.
  - intros (fname & -> & Hin). apply list_elem_of_filter in Hin as [[He Hp] Hin].
    apply elem_of_names in Hin. apply endswith_split in He. simpl in He.
    rewrite <- He. split; [exact Hin|]. intros Heq. apply Hp.
    rewrite He, Heq. reflexivity.
  - intros [Hf Hne]. exists (cid +:+ ".json"). split.
    + symmetry. apply (drop_last_app cid ".json").
    + apply list_elem_of_filter. split; [split|].
      * apply endswith_app.
      * intros Heq. apply Hne.
        by apply (string_app_inj_r cid "pinned_chats" ".json").
      * by apply elem_of_names.
Qed.

Lemma sessions_of_NoDup (w : world) : NoDup (sessions_of w).
Proof.
  unfold sessions_of. apply NoDup_fmap_2_strong.
  - intros a b Ha Hb Heq.
    apply list_elem_of_filter in Ha as [[Ha _] _].
    apply list_elem_of_filter in Hb as [[Hb _] _].
    apply endswith_split in Ha, Hb. simpl in Ha, Hb.
    rewrite Ha, Hb, Heq. reflexivity.
  - apply NoDup_filter, NoDup_fst_map_to_list.
Qed.

Lemma insert_desc_Permutation (x : Z * string) (l : list (Z * string)) :
  insert_desc x l ≡ₚ x :: l.
Proof.
  induction l as [|y l IH]; simpl; [reflexivity|].
  destruct (x.1 <? y.1)%Z; [|reflexivity].
  rewrite IH. apply Permutation_swap.
Qed.

Lemma sort_desc_Permutation (l : list (Z * string)) : sort_desc l ≡ₚ l.
Proof.
  unfold sort_desc. induction l as [|x l IH]; simpl; [reflexivity|].
  by rewrite insert_desc_Permutation, IH.
Qed.

Lemma mapM_getmtime (w : world) (l : list string) :
  Forall (fun cid => is_Some (chat_dir w !! (cid +:+ ".json"))) l →
  ∃ keys, mapM (fun cid => os_getmtime (cid +:+ ".json")) l w = (Ok keys, w)
          ∧ length keys = length l.
Proof.
  induction 1 as [|cid l [f Hf] _ (keys & IH & Hlen)]; simpl.
  - by exists [].
  - exists (mtime f :: keys). unfold bind, os_getmtime, ret in *.
    rewrite Hf, IH. simpl. by rewrite Hlen.
Qed.

Lemma existsb_is_str_ids (cid : string) (ids : list string) :
  existsb (is_str cid) (JStr <$> ids) = false ↔ cid ∉ ids.
Proof.
  rewrite existsb_is_str_false, list_elem_of_fmap. split.
  - intros Hn Hin. apply Hn. by exists cid.
  - intros Hn (y & Heq & Hin). by injection Heq as ->.
Qed.

Lemma omap_session_name (ids sessions : list string) :
  omap (fun v => session_name v sessions) (JStr <$> ids)
  = filter (fun cid => cid ∈ sessions) ids.
Proof.
  induction ids as [|cid ids IH]; [reflexivity|].
  cbn [fmap list_fmap omap list_omap session_name].
  rewrite filter_cons. fold (fmap (M:=list) JStr ids).
  case_bool_decide; case_decide; try tauto; by rewrite <- IH.
Qed.

Lemma forallb_hashable_ids (ids : list string) :
  forallb hashable (JStr <$> ids) = true.
Proof. induction ids as [|cid ids IH]; [reflexivity | exact IH]. Qed.

(** The list the handler returns on a pinned file that holds identifiers. *)
Lemma list_chat_sessions_eq (w : world) (ids : list string) :
  pinned w = Ok (JArr (JStr <$> ids)) →
  ∃ unpinned,
    list_chat_sessions w
    = (Ok (filter (fun cid => cid ∈ sessions_of w) ids ++ unpinned), w)
    ∧ unpinned ≡ₚ filter (fun cid => existsb (is_str cid) (JStr <$> ids) = false)
                    (sessions_of w).
Proof.
  unfold pinned. rewrite load_pinned_chats_eq. cbn [fst]. intros Hl.
  set (unp := filter (fun cid => existsb (is_str cid) (JStr <$> ids) = false)
                (sessions_of w)).
  destruct (mapM_getmtime w unp) as (keys & Hkeys & Hlen).
  { apply Forall_forall. intros cid Hin.
    apply list_elem_of_filter in Hin as [_ Hin].
    by apply elem_of_sessions_of in Hin as [Hf _]. }
  exists (sort_desc (zip keys unp)).*2. split.
  - unfold list_chat_sessions, bind at 1. rewrite load_pinned_chats_eq, Hl.
    unfold bind at 1, lift at 1, py_set, py_iter.
    rewrite forallb_hashable_ids.
    unfold bind at 1, os_listdir.
    unfold bind at 1. rewrite load_pinned_chats_eq, Hl.
    unfold bind at 1, lift, py_iter.
    fold (sessions_of w). fold unp.
    unfold bind. rewrite Hkeys. unfold ret.
    by rewrite omap_session_name.
  - rewrite sort_desc_Permutation. by rewrite snd_zip by lia.
Qed.

(** C10. On a pinned file that holds a set of identifiers,
    [list_chat_sessions] returns, without changing the store, the pinned
    identifiers that are sessions, in the order of the pinned list,
    followed by exactly the sessions that are not pinned; a pinned
    identifier without a session file is left out, [pinned_chats] never
    occurs, and no identifier occurs twice. *)
Theorem list_chat_sessions_spec (w : world) (ids : list string) :
  pinned w = Ok (JArr (JStr <$> ids)) →
  NoDup ids →
  ∃ unpinned,
    list_chat_sessions w
    = (Ok (filter (is_session w) ids ++ unpinned), w)
    ∧ (∀ cid, cid ∈ unpinned ↔ is_session w cid ∧ cid ∉ ids)
    ∧ (∀ cid, cid ∈ ids → ¬ is_session w cid →
              cid ∉ filter (is_session w) ids ++ unpinned)
    ∧ NoDup (filter (is_session w) ids ++ unpinned)
    ∧ "pinned_chats" ∉ filter (is_session w) ids ++ unpinned.
Proof.
  intros Hl Hnd. destruct (list_chat_sessions_eq w ids Hl) as (unp & Heq & Hp).
  assert (Hf : filter (fun cid => cid ∈ sessions_of w) ids
               = filter (is_session w) ids).
  { apply list_filter_iff. intros cid. apply elem_of_sessions_of. }
  rewrite Hf in Heq. exists unp.
  assert (Hunp : ∀ cid, cid ∈ unp ↔ is_session w cid ∧ cid ∉ ids).
  { intros cid. rewrite Hp, list_elem_of_filter, existsb_is_str_ids.
    rewrite elem_of_sessions_of. tauto. }
  split; [exact Heq|]. split; [exact Hunp|]. split; [|split].
  - intros cid Hin Hns. rewrite elem_of_app, list_elem_of_filter, Hunp. tauto.
  - apply NoDup_app. split; [by apply NoDup_filter|]. split.
    + intros cid Hin. apply list_elem_of_filter in Hin as [_ Hin].
      rewrite Hunp. tauto.
    + rewrite Hp. apply NoDup_filter, sessions_of_NoDup.
  - rewrite elem_of_app, list_elem_of_filter, Hunp. unfold is_session. tauto.
Qed.

Example list_chat_sessions_ghost_pinned :
  (list_chat_sessions ghost_pinned).1 = Ok ["b"; "a"; "c"].
Proof. vm_compute. reflexivity. Qed.

Lemma list_chat_sessions_spec_witness :
  ∃ unpinned,
    list_chat_sessions ghost_pinned
    = (Ok (filter (is_session ghost_pinned) ["b"; "ghost"; "a"] ++ unpinned),
       ghost_pinned)
    ∧ (∀ cid, cid ∈ unpinned
              ↔ is_session ghost_pinned cid ∧ cid ∉ ["b"; "ghost"; "a"])
    ∧ (∀ cid, cid ∈ ["b"; "ghost"; "a"] → ¬ is_session ghost_pinned cid →
              cid ∉ filter (is_session ghost_pinned) ["b"; "ghost"; "a"]
                    ++ unpinned)
    ∧ NoDup (filter (is_session ghost_pinned) ["b"; "ghost"; "a"] ++ unpinned)
    ∧ "pinned_chats"
        ∉ filter (is_session ghost_pinned) ["b"; "ghost"; "a"] ++ unpinned.
Proof.
  apply (list_chat_sessions_spec ghost_pinned ["b"; "ghost"; "a"]).
  - vm_compute. reflexivity.
  - apply (bool_decide_unpack _). vm_compute. exact I.
Defined.

(** ** The home route: what a request persists *)

Section WebProperties.
Context {pyobj : Type} (py_str : pyobj → string)
  (get_tool_call : string → pyobj → outcome (plan pyobj))
  (finbot : string → gmap string pyobj → outcome pyobj)
  (load_data : outcome pyobj) (empty_dict : pyobj)
  (cached_data : option pyobj) (uuid4 : nat → uuid)
  (chart_exists : string → bool) (os_rename : string → string → result unit).

Local Abbreviation chatbot_response_ :=
  (chatbot_response py_str get_tool_call finbot).
Local Abbreviation bot_turn_ :=
  (bot_turn py_str get_tool_call finbot load_data empty_dict cached_data
     uuid4 chart_exists os_rename).
Local Abbreviation home_post_ :=
  (home_post py_str get_tool_call finbot load_data empty_dict cached_data
     uuid4 chart_exists os_rename).
Local Abbreviation home_ :=
  (home py_str get_tool_call finbot load_data empty_dict cached_data
     uuid4 chart_exists os_rename).

(** Tool dispatch. *)

Lemma get_tool_belt_lookup (name : string) :
  get_tool_belt finbot !! name
  = if bool_decide (name ∈ tool_names) then Some (finbot name) else None.
Proof.
  assert (Hkeys : ((fun name => (name, finbot name)) <$> tool_names).*1
                  = tool_names) by reflexivity.
  unfold get_tool_belt. case_bool_decide as Hin.
  - apply elem_of_list_to_map_1.
    + rewrite Hkeys. apply (bool_decide_unpack _). vm_compute. exact I.
    + apply list_elem_of_fmap. by exists name.
  - apply not_elem_of_list_to_map_1. by rewrite Hkeys.
Qed.

Lemma not_sure_rendered :
  markdown_to_html "I'm not sure how to do that. Please try rephrasing."
  = "I&#39;m not sure how to do that. Please try rephrasing.".
Proof. vm_compute. reflexivity. Qed.

(** C5. [chatbot_response] returns, and does not raise, in the three
    cases: when [get_tool_call] raises, the rendered planning-error text
    with the exception message; when the tool of the plan raises, the
    rendered tool-error text with the exception message; when the planned
    name is neither the greeting nor a name of the tool belt, or the plan
    names no tool, the fixed rendered message. *)
Theorem chatbot_response_reports_errors (user_query : string) (data : pyobj) :
  (∀ e, get_tool_call user_query data = Throws e →
        chatbot_response_ user_query data
        = Ok (markdown_to_html ("**Error planning tool call:** " +:+ e)))
  ∧ (∀ name arguments e,
        get_tool_call user_query data
        = Returns (PlanDict (KStr name) arguments) →
        name ∈ tool_names →
        finbot name (call_arguments arguments data) = Throws e →
        chatbot_response_ user_query data
        = Ok (markdown_to_html
                ("An error occurred while running the tool: " +:+ e)))
  ∧ (∀ name arguments,
        get_tool_call user_query data
        = Returns (PlanDict (KStr name) arguments) →
        name ≠ "greeting_response" →
        name ∉ tool_names →
        chatbot_response_ user_query data
        = Ok "I&#39;m not sure how to do that. Please try rephrasing.")
  ∧ (∀ arguments,
        get_tool_call user_query data = Returns (PlanDict KNone arguments) →
        chatbot_response_ user_query data
        = Ok "I&#39;m not sure how to do that. Please try rephrasing.").
Proof.
  split; [|split; [|split]].
  - intros e He. unfold chatbot_response. by rewrite He.
  - intros name arguments e Hp Hin He. unfold chatbot_response. rewrite Hp.
    assert (Hng : name ≠ "greeting_response").
    { intros ->. revert Hin. apply (bool_decide_unpack _). vm_compute. exact I. }
    rewrite bool_decide_eq_false_2 by exact Hng.
    rewrite get_tool_belt_lookup, bool_decide_eq_true_2 by exact Hin.
    unfold call_arguments in He.
    destruct (default ∅ arguments !! "data"); by rewrite He.
  - intros name arguments Hp Hng Hin. unfold chatbot_response. rewrite Hp.
    rewrite bool_decide_eq_false_2 by exact Hng.
    rewrite get_tool_belt_lookup, bool_decide_eq_false_2 by exact Hin.
    by rewrite not_sure_rendered.
  - intros arguments Hp. unfold chatbot_response. rewrite Hp.
    by rewrite not_sure_rendered.
Qed.

(** What the home route writes. *)

Lemma read_only_ret {A} (a : A) : read_only (ret a).
Proof. by intros w. Qed.

Lemma read_only_lift {A} (r : result A) : read_only (lift r).
Proof. by intros w. Qed.

Lemma read_only_bind {A B} (m : M A) (f : A → M B) :
  read_only m → (∀ a, read_only (f a)) → read_only (bind m f).
Proof.
  intros Hm Hf w. unfold bind. specialize (Hm w).
  destruct (m w) as [[a|e] w1]; simpl in *; subst w1; [apply Hf | reflexivity].
Qed.

Lemma read_only_try_except {A} (m : M A) (c : exn → bool) (h : M A) :
  read_only m → read_only h → read_only (try_except m c h).
Proof.
  intros Hm Hh w. unfold try_except. specialize (Hm w).
  destruct (m w) as [[a|e] w1]; simpl in *; subst w1; [reflexivity|].
  destruct (c e); [apply Hh | reflexivity].
Qed.

Lemma read_only_read_json (name : string) : read_only (read_json name).
Proof.
  intros w. unfold read_json.
  by destruct (chat_dir w !! name) as [[[| |v] m]|].
Qed.

Lemma read_only_load_pinned_chats : read_only load_pinned_chats.
Proof. intros w. apply load_pinned_chats_world. Qed.

Lemma read_only_load_chat_history (chat_id : string) :
  read_only (load_chat_history chat_id).
Proof.
  apply read_only_try_except; [apply read_only_read_json | apply read_only_ret].
Qed.

Lemma read_only_getmtime (name : string) : read_only (os_getmtime name).
Proof. intros w. unfold os_getmtime. by destruct (chat_dir w !! name). Qed.

Lemma read_only_mapM {A B} (f : A → M B) (l : list A) :
  (∀ a, read_only (f a)) → read_only (mapM f l).
Proof.
  intros Hf. induction l as [|a l IH]; simpl; [apply read_only_ret|].
  apply read_only_bind; [apply Hf|]. intros b.
  apply read_only_bind; [exact IH|]. intros bs. apply read_only_ret.
Qed.

Lemma read_only_list_chat_sessions : read_only list_chat_sessions.
Proof.
  unfold list_chat_sessions.
  apply read_only_bind; [apply read_only_load_pinned_chats|]. intros v.
  apply read_only_bind; [apply read_only_lift|]. intros ids.
  apply read_only_bind; [by intros w|]. intros names.
  apply read_only_bind; [apply read_only_load_pinned_chats|]. intros v'.
  apply read_only_bind; [apply read_only_lift|]. intros items.
  apply read_only_bind.
  - apply read_only_mapM. intros cid. apply read_only_getmtime.
  - intros keys. apply read_only_ret.
Qed.

Lemma load_chat_history_eq (chat_id : string) (w : world) :
  load_chat_history chat_id w = (Ok (history_in (chat_dir w) chat_id), w).
Proof.
  unfold load_chat_history, history_in. unfold_monad.
  by destruct (chat_dir w !! chat_file chat_id) as [[[| |v] m]|].
Qed.

Local Abbreviation data_ := (current_data load_data empty_dict cached_data).

Lemma bot_turn_dir (cid : string) (l : list json) (q : string) (w : world) :
  let w' := (bot_turn_ cid (JArr l) q w).2 in
  chat_dir w' = chat_dir w
  ∨ ∃ r img t,
      chatbot_response_ q data_ = Ok r
      ∧ image_ref img
      ∧ chat_dir w'
        = <[chat_file cid :=
              File (Document (JArr (l ++ [bot_message r img]))) t]>
            (chat_dir w).
Proof.
  intros w'. unfold w'. clear w'.
  unfold bot_turn, try_except, bind, lift, ret, draw_uuid, save_chat_history,
    write_json, py_append.
  destruct (chatbot_response_ q data_) as [r|e]; [|by left].
  destruct (negb _ && _); [destruct (os_rename _ _) as [[]|e]|];
    cbn [fst snd chat_dir]; [|by left|];
    right; eexists _, _, _; (split; [reflexivity|]);
    (split; [|reflexivity]); unfold image_ref; eauto.
Qed.

Lemma home_post_dir (req : request) (w : world) :
  let w' := (home_post_ req w).2 in
  chat_dir w' = post_dir uuid4 w
  ∨ ∃ hist r img t,
      history_in (post_dir uuid4 w) (post_session uuid4 w) = JArr hist
      ∧ post_query req ≠ EmptyString
      ∧ chatbot_response_ (post_query req) data_ = Ok r
      ∧ image_ref img
      ∧ chat_dir w'
        = <[chat_file (post_session uuid4 w) :=
              File (Document
                      (JArr (hist ++ [user_message (post_query req);
                                      bot_message r img]))) t]>
            (post_dir uuid4 w).
Proof.
  intros w'. unfold w'. clear w'.
  set (rest := fun chat_id : string =>
         let* chat_history := load_chat_history chat_id in
         if bool_decide (post_query req = EmptyString) then ret ()
         else
           let* chat_history :=
             lift (py_append (user_message (post_query req)) chat_history) in
           let* _ := bot_turn_ chat_id chat_history (post_query req) in
           ret ()).
  assert (Hrest : ∀ cid w1,
    chat_dir (rest cid w1).2 = chat_dir w1
    ∨ ∃ hist r img t,
        history_in (chat_dir w1) cid = JArr hist
        ∧ post_query req ≠ EmptyString
        ∧ chatbot_response_ (post_query req) data_ = Ok r
        ∧ image_ref img
        ∧ chat_dir (rest cid w1).2
          = <[chat_file cid :=
                File (Document
                        (JArr (hist ++ [user_message (post_query req);
                                        bot_message r img]))) t]>
              (chat_dir w1)).
  { intros cid w1. remember (rest cid w1) as out eqn:Hout.
    unfold rest in Hout. unfold bind at 1 in Hout.
    rewrite load_chat_history_eq in Hout.
    case_bool_decide as Hq; [subst out; by left|].
    unfold bind at 1, lift at 1 in Hout.
    destruct (history_in (chat_dir w1) cid) as [| | | |hist|] eqn:Hh;
      try (subst out; by left).
    cbn [py_append] in Hout. unfold bind, ret in Hout.
    pose proof (bot_turn_dir cid (hist ++ [user_message (post_query req)])
                  (post_query req) w1) as Hb. cbn zeta in Hb.
    destruct (bot_turn_ cid _ (post_query req) w1) as [[v|e] w2];
      subst out; cbn [snd] in *;
      (destruct Hb as [Hb|(r & img & t & Hr & Hi & Hb)]; [by left|]);
      right; exists hist, r, img, t; rewrite <- app_assoc in Hb; auto. }
  set (uid := uuid_str (uuid4 (draws w))).
  set (w1 := if falsy (cookie w)
             then {| chat_dir := <[chat_file uid :=
                                     File (Document (JArr [])) (clock w)]>
                                   (chat_dir w);
                     cookie := Some uid; clock := (clock w + 1)%Z;
                     draws := S (draws w) |}
             else w).
  assert (Heq : home_post_ req w = rest (post_session uuid4 w) w1).
  { unfold home_post, post_session, w1, uid. unfold bind at 1, session_get.
    destruct (falsy (cookie w)); reflexivity. }
  rewrite Heq.
  replace (post_dir uuid4 w) with (chat_dir w1)
    by (unfold post_dir, w1, uid; by destruct (falsy (cookie w))).
  apply Hrest.
Qed.

Lemma keeps_dir_read_only {A} (m : M A) : read_only m → keeps_dir m.
Proof. intros H w. by rewrite H. Qed.

Lemma keeps_dir_bind {A B} (m : M A) (f : A → M B) :
  keeps_dir m → (∀ a, keeps_dir (f a)) → keeps_dir (bind m f).
Proof.
  intros Hm Hf w. unfold bind. specialize (Hm w).
  destruct (m w) as [[a|e] w1]; simpl in *; [|exact Hm].
  by rewrite Hf.
Qed.

Lemma get_or_create_chat_dir (cid : option string) (new : bool) (w : world) :
  let w' := (get_or_create_chat uuid4 cid new w).2 in
  chat_dir w' = chat_dir w
  ∨ ∃ k t, chat_dir w'
           = <[chat_file (uuid_str (uuid4 k)) := File (Document (JArr [])) t]>
               (chat_dir w).
Proof.
  intros w'. unfold w'. clear w'.
  assert (Hnew : ∃ k t, chat_dir (new_chat uuid4 w).2
           = <[chat_file (uuid_str (uuid4 k)) := File (Document (JArr [])) t]>
               (chat_dir w)).
  { by exists (draws w), (clock w). }
  unfold get_or_create_chat. destruct cid as [cid|]; [|by right].
  destruct (new || falsy (Some cid)); [by right|].
  left. unfold try_except, bind. rewrite load_chat_history_eq. reflexivity.
Qed.

Lemma home_dir (req : request) (w : world) :
  let w' := (home_ req w).2 in
  let wp := (when (is_post req) (home_post_ req) w).2 in
  chat_dir w' = chat_dir wp
  ∨ ∃ k t, chat_dir w'
           = <[chat_file (uuid_str (uuid4 k)) := File (Document (JArr [])) t]>
               (chat_dir wp).
Proof.
  intros w' wp. unfold w', wp. clear w' wp. unfold home.
  set (page := fun x : string * json =>
         let '(chat_id, chat_history) := x in
         let* _ := session_set (Some chat_id) in
         let* pinned_list := load_pinned_chats in
         let* chat_sessions := list_chat_sessions in
         ret (Page chat_history chat_sessions chat_id pinned_list)).
  assert (Hpage : ∀ x, keeps_dir (page x)).
  { intros [chat_id chat_history]. unfold page.
    apply keeps_dir_bind; [by intros w0|]. intros _.
    apply keeps_dir_bind;
      [apply keeps_dir_read_only, read_only_load_pinned_chats|]. intros v.
    apply keeps_dir_bind;
      [apply keeps_dir_read_only, read_only_list_chat_sessions|]. intros l.
    by intros w0. }
  set (chosen := if bool_decide (arg_new_chat req = Some "1")
                 then get_or_create_chat uuid4 None true
                 else let* current := session_get in
                      get_or_create_chat uuid4
                        (if falsy (arg_chat_id req) then current
                         else arg_chat_id req) false).
  assert (Hchosen : ∀ wp, chat_dir (chosen wp).2 = chat_dir wp
            ∨ ∃ k t, chat_dir (chosen wp).2
                     = <[chat_file (uuid_str (uuid4 k)) :=
                           File (Document (JArr [])) t]> (chat_dir wp)).
  { intros wp. unfold chosen. case_bool_decide.
    - apply get_or_create_chat_dir.
    - unfold bind, session_get. apply get_or_create_chat_dir. }
  remember (bind (when (is_post req) (home_post_ req))
              (fun _ => bind chosen page) w) as out eqn:Hout.
  change (chat_dir out.2
            = chat_dir (when (is_post req) (home_post_ req) w).2
          ∨ ∃ k t, chat_dir out.2
                   = <[chat_file (uuid_str (uuid4 k)) :=
                         File (Document (JArr [])) t]>
                       (chat_dir (when (is_post req) (home_post_ req) w).2)).
  unfold bind at 1 in Hout.
  destruct (when (is_post req) (home_post_ req) w) as [[[]|e] wp];
    cbn [snd]; [|subst out; by left].
  specialize (Hchosen wp). unfold bind in Hout.
  destruct (chosen wp) as [[x|e] w2]; subst out; cbn [snd] in *.
  - pose proof (Hpage x w2) as E. destruct Hchosen as [H|(k & t & H)].
    + left. by rewrite E.
    + right. exists k, t. by rewrite E.
  - exact Hchosen.
Qed.

(** What one request does to a file that holds a list of messages and is
    not the file of a session still to be created: it stays, or the POST
    branch appends the user message and the bot message of one turn. *)
Lemma home_appends (req : request) (w : world) (f : string)
    (old : list json) (m : Z) :
  chat_dir w !! f = Some (File (Document (JArr old)) m) →
  (∀ k, chat_file (uuid_str (uuid4 k)) ≠ f) →
  ∃ new m',
    chat_dir (home_ req w).2 !! f = Some (File (Document (JArr new)) m')
    ∧ (new = old
       ∨ ∃ r img,
           is_post req = true
           ∧ f = chat_file (post_session uuid4 w)
           ∧ post_query req ≠ EmptyString
           ∧ chatbot_response_ (post_query req) data_ = Ok r
           ∧ image_ref img
           ∧ new = old ++ [user_message (post_query req); bot_message r img]).
Proof.
  intros Hf Hfresh.
  assert (Hpd : post_dir uuid4 w !! f = Some (File (Document (JArr old)) m)).
  { unfold post_dir. destruct (falsy (cookie w)); [|exact Hf].
    by rewrite lookup_insert_ne. }
  assert (Hwp : ∃ new m',
    chat_dir (when (is_post req) (home_post_ req) w).2 !! f
    = Some (File (Document (JArr new)) m')
    ∧ (new = old
       ∨ ∃ r img,
           is_post req = true
           ∧ f = chat_file (post_session uuid4 w)
           ∧ post_query req ≠ EmptyString
           ∧ chatbot_response_ (post_query req) data_ = Ok r
           ∧ image_ref img
           ∧ new = old ++ [user_message (post_query req); bot_message r img])).
  { unfold when. destruct (is_post req) eqn:Hpost; [|by exists old, m; auto].
    destruct (home_post_dir req w) as [Hd|(hist & r & img & t & Hh & Hq & Hr & Hi & Hd)];
      rewrite Hd.
    - exists old, m. auto.
    - destruct (decide (chat_file (post_session uuid4 w) = f)) as [Heq|Hne].
      + unfold history_in in Hh. rewrite Heq, Hpd in Hh. simpl in Hh.
        injection Hh as <-. rewrite Heq, lookup_insert_eq.
        eexists _, _. split; [reflexivity|]. right. exists r, img.
        split_and!; auto.
      + rewrite lookup_insert_ne by exact Hne. exists old, m. auto. }
  destruct Hwp as (new & m' & Hnew & Hcases).
  destruct (home_dir req w) as [Hd|(k & t & Hd)]; cbn zeta in Hd; rewrite Hd.
  - by exists new, m'.
  - rewrite lookup_insert_ne by apply Hfresh. by exists new, m'.
Qed.

(** C8. One request to the home route never rewrites what a session file
    holds: for a file with a list of messages (other than the file of a
    session the request itself creates under a fresh UUID), the list
    persisted afterwards has the former list as a prefix, and it is either
    that list or that list followed by exactly one user message and one
    bot message, in this order. *)
Theorem home_only_appends (req : request) (w : world) (f : string)
    (old : list json) (m : Z) :
  chat_dir w !! f = Some (File (Document (JArr old)) m) →
  (∀ k, chat_file (uuid_str (uuid4 k)) ≠ f) →
  ∃ new m',
    chat_dir (home_ req w).2 !! f = Some (File (Document (JArr new)) m')
    ∧ old `prefix_of` new
    ∧ (new = old
       ∨ is_post req = true
         ∧ ∃ r img,
             new = old ++ [user_message (post_query req); bot_message r img]).
Proof.
  intros Hf Hfresh.
  destruct (home_appends req w f old m Hf Hfresh) as (new & m' & Hnew & Hc).
  exists new, m'. split; [exact Hnew|].
  destruct Hc as [->|(r & img & Hp & _ & _ & _ & _ & ->)].
  - split; [reflexivity | by left].
  - split; [by apply prefix_app_r|]. right. split; [exact Hp|]. by exists r, img.
Qed.

(** C6, as the code has it. Every message one request appends to a session
    file is an object: a user message with exactly the members [role] and
    [text], or a bot message with exactly the members [role], [text] and
    [image], the last one null or a path under the media directory. *)
Theorem appended_messages_members (req : request) (w : world) (f : string)
    (old : list json) (m : Z) :
  chat_dir w !! f = Some (File (Document (JArr old)) m) →
  (∀ k, chat_file (uuid_str (uuid4 k)) ≠ f) →
  ∃ added m',
    chat_dir (home_ req w).2 !! f
    = Some (File (Document (JArr (old ++ added))) m')
    ∧ Forall (fun msg =>
                (keys msg = ["role"; "text"]
                 ∧ member "role" msg = Some (JStr "user")
                 ∧ ∃ text, member "text" msg = Some (JStr text))
                ∨ (keys msg = ["role"; "text"; "image"]
                   ∧ member "role" msg = Some (JStr "bot")
                   ∧ (∃ text, member "text" msg = Some (JStr text))
                   ∧ ∃ img, member "image" msg = Some img ∧ image_ref img))
             added.
Proof.
  intros Hf Hfresh.
  destruct (home_appends req w f old m Hf Hfresh) as (new & m' & Hnew & Hc).
  destruct Hc as [->|(r & img & _ & _ & _ & _ & Hi & ->)].
  - exists [], m'. rewrite app_nil_r. split; [exact Hnew | constructor].
  - eexists _, m'. split; [exact Hnew|].
    apply Forall_cons. split.
    { left. split; [reflexivity|]. split; [reflexivity|]. by eexists. }
    apply Forall_cons. split; [|by apply Forall_nil].
    right. split; [reflexivity|]. split; [reflexivity|].
    split; [by eexists | by exists img].
Qed.

End WebProperties.

(** ** Every result of the matcher is a reading *)

Lemma or_else_Some {R} (a b : option R) (x : R) :
  or_else a b = Some x → a = Some x ∨ b = Some x.
Proof. destruct a; simpl; auto. Qed.

Lemma step_Some {R} (p : ascii → bool) (cu : cursor) (k : cursor → option R)
    (res : R) :
  step p cu k = Some res →
  ∃ x tl, cu = Cursor (prev cu) (x :: tl) ∧ p x = true
          ∧ k (Cursor (Some x) tl) = Some res.
Proof.
  unfold step. destruct cu as [pv [|x tl]]; simpl; [discriminate|].
  destruct (p x) eqn:Hp; [|discriminate]. eauto.
Qed.

Lemma exec_sound {R} (r : regex) :
  ∀ cu caps (k : cursor → captures → option R) res,
    exec r cu caps k = Some res →
    ∃ cu' caps', matches r cu caps cu' caps' ∧ k cu' caps' = Some res.
Proof.
  induction r as [|c|p|m|m|r1 IH1 r2 IH2|r1 IH1 r2 IH2|g r1 IH1|n r1 IH1];
    intros cu caps k res H; cbn [exec] in H.
  - exists cu, caps. split; [constructor | exact H].
  - apply step_Some in H as (x & tl & -> & Hx & Hk).
    eexists _, _. split; [by constructor | exact Hk].
  - apply step_Some in H as (x & tl & -> & Hx & Hk).
    eexists _, _. split; [by constructor | exact Hk].
  - destruct (at_bol m cu) eqn:E; [|discriminate].
    exists cu, caps. split; [by constructor | exact H].
  - destruct (at_eol m cu) eqn:E; [|discriminate].
    exists cu, caps. split; [by constructor | exact H].
  - apply IH1 in H as (cu1 & caps1 & M1 & H).
    apply IH2 in H as (cu2 & caps2 & M2 & H).
    exists cu2, caps2. split; [by econstructor | exact H].
  - apply or_else_Some in H as [H|H].
    + apply IH1 in H as (cu' & caps' & M & H). eauto using matches.
    + apply IH2 in H as (cu' & caps' & M & H). eauto using matches.
  - revert H. generalize (length (rest cu)) as n. intros n.
    revert cu caps res. induction n as [|n IHn]; intros cu caps res H;
      cbn [star_loop] in H.
    + destruct g; apply or_else_Some in H as [H|H]; try discriminate;
        (exists cu, caps; split; [constructor | exact H]).
    + assert (Hagain : ∀ res',
        exec r1 cu caps (fun cu' caps' =>
          if length (rest cu') <? length (rest cu)
          then star_loop (exec r1) g k n cu' caps' else None) = Some res' →
        ∃ cu' caps', matches (Star g r1) cu caps cu' caps'
                     ∧ k cu' caps' = Some res').
      { intros res' H'. apply IH1 in H' as (cu1 & caps1 & M1 & H').
        destruct (length (rest cu1) <? length (rest cu)); [|discriminate].
        apply IHn in H' as (cu2 & caps2 & M2 & H').
        exists cu2, caps2. split; [by econstructor | exact H']. }
      destruct g; apply or_else_Some in H as [H|H].
      * by apply Hagain.
      * exists cu, caps. split; [constructor | exact H].
      * exists cu, caps. split; [constructor | exact H].
      * by apply Hagain.
  - apply IH1 in H as (cu' & caps' & M & H).
    eexists _, _. split; [by constructor | exact H].
Qed.

Lemma match_at_sound (r : regex) (cu cu' : cursor) (caps : captures) :
  match_at r cu = Some (cu', caps) → matches r cu [] cu' caps.
Proof.
  unfold match_at. intros H. apply exec_sound in H as (c & k & M & H).
  by injection H as <- <-.
Qed.

(** ** The text a match reads *)

Lemma last_of_app (pv : option ascii) (m1 m2 : chars) :
  last_of (last_of pv m1) m2 = last_of pv (m1 ++ m2).
Proof.
  unfold last_of. rewrite last_app. by destruct (last m2).
Qed.

Lemma matches_reads (r : regex) (cu cu' : cursor) (caps caps' : captures) :
  matches r cu caps cu' caps' → ∃ m, reads r cu m cu'.
Proof.
  unfold reads.
  induction 1 as [cu caps|c pv x tl caps Hx|p pv x tl caps Hx|m cu caps H
                 |m cu caps H
                 |r1 r2 cu caps cu1 caps1 cu2 caps2 _ (m1 & E1 & P1 & C1 & N1)
                    _ (m2 & E2 & P2 & C2 & N2)
                 |r1 r2 cu caps cu' caps' _ (m & E & P & C & N)
                 |r1 r2 cu caps cu' caps' _ (m & E & P & C & N)
                 |g r cu caps
                 |g r cu caps cu1 caps1 cu2 caps2 _ (m1 & E1 & P1 & C1 & N1)
                    _ (m2 & E2 & P2 & C2 & N2)
                 |n r cu caps cu' caps' _ (m & E & P & C & N)]; cbn [rest prev].
  - exists []. repeat split; [constructor | discriminate].
  - exists [x]. repeat split; [by repeat constructor | discriminate].
  - exists [x]. repeat split; [by repeat constructor | discriminate].
  - exists []. repeat split; [constructor | discriminate].
  - exists []. repeat split; [constructor | discriminate].
  - exists (m1 ++ m2). rewrite E1, E2, P2, P1, last_of_app, app_assoc.
    repeat split.
    + apply Forall_app. split; (eapply Forall_impl; [eassumption|]);
        intros c Hc; cbn; rewrite Hc; by rewrite ?orb_true_r.
    + cbn. intros [H|H]%orb_true_iff Hnil;
        apply app_eq_nil in Hnil as [-> ->]; [by apply N1 | by apply N2].
  - exists m. repeat split; try assumption.
    + eapply Forall_impl; [eassumption|]. intros c Hc. cbn. by rewrite Hc.
    + cbn. intros [H _]%andb_true_iff. by apply N.
  - exists m. repeat split; try assumption.
    + eapply Forall_impl; [eassumption|]. intros c Hc. cbn.
      by rewrite Hc, orb_true_r.
    + cbn. intros [_ H]%andb_true_iff. by apply N.
  - exists []. repeat split; [constructor | discriminate].
  - exists (m1 ++ m2). rewrite E1, E2, P2, P1, last_of_app, app_assoc.
    repeat split; [|discriminate].
    apply Forall_app. split; assumption.
  - exists m. repeat split; assumption.
Qed.

Lemma consumed_reads (cu cu' : cursor) (m : chars) :
  rest cu = m ++ rest cu' → consumed cu cu' = m.
Proof.
  intros E. unfold consumed. rewrite E, length_app.
  replace (length m + length (rest cu') - length (rest cu')) with (length m)
    by lia.
  apply take_app_length.
Qed.

Lemma matches_no_groups (r : regex) (cu cu' : cursor) (caps caps' : captures) :
  matches r cu caps cu' caps' → no_groups r = true → caps' = caps.
Proof.
  induction 1; cbn [no_groups]; intros Hn; try reflexivity;
    try discriminate;
    try (apply andb_true_iff in Hn as [Hn1 Hn2]); auto.
  - rewrite IHmatches2, IHmatches1 by assumption. reflexivity.
  - rewrite IHmatches2, IHmatches1 by assumption. reflexivity.
Qed.

(** ** Rendered text as tags, entities and plain characters *)

Lemma flat_app (t1 t2 : list token) : flat (t1 ++ t2) = flat t1 ++ flat t2.
Proof. apply bind_app. Qed.

Lemma ents_app (t1 t2 : list token) : ents (t1 ++ t2) = ents t1 ++ ents t2.
Proof. apply omap_app. Qed.

Lemma token_chars_blocks (t : token) :
  valid t → (∃ c, t = Plain c ∧ markup_char c = false)
            ∨ token_chars t ∈ blocks.
Proof.
  destruct t as [s|s|c]; simpl; intros H; [right|right|left; eauto];
    unfold blocks; apply list_elem_of_fmap; exists s;
    (split; [reflexivity|]); apply elem_of_app; auto.
Qed.

Lemma existsb_is_char (c : ascii) (l : chars) :
  existsb (is_char c) l = true ↔ c ∈ l.
Proof.
  rewrite existsb_exists. split.
  - intros (x & Hin & Hx). apply is_char_true in Hx as ->.
    by apply list_elem_of_In.
  - intros Hin. exists c. split; [by apply list_elem_of_In|].
    apply is_char_refl.
Qed.

(** A cut strictly inside a tag or entity has an inner character on each
    side. *)
Lemma inner_cut (b p q : chars) (x y : ascii) :
  b ∈ blocks → b = p ++ q → last p = Some x → head q = Some y →
  inner_left x = true ∧ inner_right y = true.
Proof.
  intros Hb -> Hx Hy. destruct q as [|y' q]; [discriminate|].
  injection Hy as ->.
  destruct p as [|x0 p] using rev_ind; [discriminate|].
  clear IHp. rewrite last_snoc in Hx. injection Hx as ->.
  split; unfold inner_left, inner_right; apply existsb_exists;
    exists ((p ++ [x]) ++ y :: q);
    (split; [by apply list_elem_of_In|]); apply existsb_is_char.
  - rewrite removelast_app by discriminate.
    apply elem_of_app. left. apply elem_of_app. right. constructor.
  - rewrite <- app_assoc. destruct p as [|x0 p]; simpl.
    + constructor.
    + apply elem_of_app. right. do 2 constructor.
Qed.

Lemma token_chars_nonempty (t : token) : valid t → token_chars t ≠ [].
Proof.
  intros Hv. destruct (token_chars_blocks t Hv) as [(c & -> & _)|Hb];
    [discriminate|].
  intros E. rewrite E in Hb. revert Hb.
  unfold blocks. rewrite list_elem_of_fmap. intros (s & Hs & Hin).
  destruct s; [|discriminate]. revert Hin.
  apply (bool_decide_unpack _). vm_compute. exact I.
Qed.

(** An acceptable cut of a tokenised text falls between two tokens. *)
Lemma flat_split (toks : list token) (a b : chars) :
  Forall valid toks → flat toks = a ++ b → boundary_ok a b →
  ∃ t1 t2, toks = t1 ++ t2 ∧ flat t1 = a ∧ flat t2 = b.
Proof.
  intros Hv. revert a. induction Hv as [|tk toks Htk Hv IH]; intros a E Hb.
  - symmetry in E. apply app_eq_nil in E as [-> ->]. by exists [], [].
  - change (flat (tk :: toks)) with (token_chars tk ++ flat toks) in E.
    apply app_eq_app in E as (l & [[E1 E2]|[E1 E2]]).
    + destruct a as [|a0 a].
      { exists [], (tk :: toks). simpl in *. subst. by repeat split. }
      destruct l as [|l0 l].
      { exists [tk], toks. rewrite app_nil_r in E1. subst.
        repeat split. simpl. by rewrite app_nil_r. }
      exfalso. destruct (token_chars_blocks tk Htk) as [(c & -> & _)|Hblk].
      { simpl in E1. injection E1 as _ E1. by destruct a. }
      destruct (last (a0 :: a)) as [x|] eqn:Hx.
      2:{ by apply last_None in Hx. }
      destruct (inner_cut _ (a0 :: a) (l0 :: l) x l0 Hblk E1 Hx eq_refl)
        as [Hl Hr].
      unfold boundary_ok in Hb. rewrite Hx, E2 in Hb. simpl in Hb.
      destruct Hb; congruence.
    + destruct (IH l) as (t1 & t2 & -> & Ht1 & Ht2); [exact E2| |].
      { unfold boundary_ok in *. rewrite E1 in Hb.
        destruct l as [|l0 l] using rev_ind; [done|].
        by rewrite app_assoc, !last_snoc in *. }
      exists (tk :: t1), t2. repeat split.
      * change (flat (tk :: t1)) with (token_chars tk ++ flat t1).
        by rewrite Ht1, E1.
      * exact Ht2.
Qed.

Lemma class_within_spec (p q : ascii → bool) (c : ascii) :
  class_within p q = true → p c = true → q c = true.
Proof.
  unfold class_within. rewrite forallb_forall. intros H Hp.
  assert (Hin : In c all_ascii).
  { unfold all_ascii. apply list_elem_of_In, list_elem_of_fmap.
    exists (nat_of_ascii c). split; [by rewrite ascii_nat_embedding|].
    apply elem_of_seq. pose proof (nat_ascii_bounded c). lia. }
  specialize (H c Hin). by rewrite Hp in H.
Qed.

Lemma at_bol_clean (m : bool) (cu : cursor) :
  at_bol m cu = true → lclean cu = true.
Proof.
  unfold at_bol, lclean, prev_ok. destruct (prev cu) as [c|]; [|done].
  intros [_ Hc]%andb_true_iff. apply is_char_true in Hc as <-. reflexivity.
Qed.

Lemma at_eol_clean (m : bool) (cu : cursor) :
  at_eol m cu = true → lclean cu = true.
Proof.
  unfold at_eol, lclean, next_ok. destruct (rest cu) as [|c tl].
  - intros _. apply orb_true_r.
  - intros [Hc _]%andb_true_iff. apply is_char_true in Hc as <-.
    apply orb_true_r.
Qed.

Lemma matches_starts_clean (r : regex) (cu cu' : cursor)
    (caps caps' : captures) :
  matches r cu caps cu' caps' → starts_clean r = true → lclean cu = true.
Proof.
  induction 1; cbn [starts_clean]; intros Hs; try discriminate; auto.
  - unfold lclean, next_ok. cbn [rest]. apply is_char_true in H as ->.
    rewrite Hs. apply orb_true_r.
  - unfold lclean, next_ok. cbn [rest].
    rewrite (class_within_spec _ _ x Hs H). apply orb_true_r.
  - by eapply at_bol_clean.
  - by eapply at_eol_clean.
  - apply andb_true_iff in Hs as [Hs _]. auto.
  - apply andb_true_iff in Hs as [_ Hs]. auto.
Qed.

Lemma matches_ends_clean (r : regex) (cu cu' : cursor)
    (caps caps' : captures) :
  matches r cu caps cu' caps' →
  ∀ b, (b = true → lclean cu = true) → ends_clean r b = true →
       lclean cu' = true.
Proof.
  induction 1; cbn [ends_clean]; intros b Hb He; auto.
  - unfold lclean, prev_ok. cbn [prev]. apply is_char_true in H as ->.
    by rewrite He.
  - unfold lclean, prev_ok. cbn [prev].
    by rewrite (class_within_spec _ _ x He H).
  - by eapply at_bol_clean.
  - by eapply at_eol_clean.
  - eapply IHmatches2; [|exact He]. intros Hb1.
    eapply IHmatches1; [exact Hb | exact Hb1].
  - apply andb_true_iff in He as [He _]. eauto.
  - apply andb_true_iff in He as [_ He]. eauto.
  - apply andb_true_iff in He as [-> _]. auto.
  - apply andb_true_iff in He as [-> He].
    apply (IHmatches2 true); [|cbn [ends_clean]; by rewrite He].
    intros _. apply (IHmatches1 true); auto.
  - eauto.
Qed.

Lemma lclean_boundary (cu cu' : cursor) (m : chars) :
  prev cu' = last_of (prev cu) m → lclean cu' = true →
  boundary_ok m (rest cu').
Proof.
  unfold boundary_ok, lclean, prev_ok, next_ok, last_of. intros Hp Hc.
  destruct (last m) as [x|]; [|done]. rewrite Hp in Hc.
  destruct (rest cu') as [|y tl]; [done|]. simpl.
  apply orb_true_iff in Hc as [Hc|Hc]; apply negb_true_iff in Hc; auto.
Qed.

Lemma flat_nonempty (toks : list token) :
  Forall valid toks → toks ≠ [] → flat toks ≠ [].
Proof.
  intros Hv Hne. destruct Hv as [|t toks Ht _]; [done|].
  change (flat (t :: toks)) with (token_chars t ++ flat toks).
  intros E. apply app_eq_nil in E as [E _]. by apply token_chars_nonempty in E.
Qed.

(** Inside a tag or entity the scan copies characters until its end. *)
Lemma sub_from_skip (r : regex) (t : list titem) (R : chars) :
  (∀ cu, lclean cu = false → match_at r cu = None) →
  ∀ q p fuel,
    p ≠ [] → (q ≠ [] → p ++ q ∈ blocks) → length q ≤ fuel →
    sub_from r t fuel (Cursor (last p) (q ++ R))
    = q ++ sub_from r t (fuel - length q) (Cursor (last (p ++ q)) R).
Proof.
  intros Hs. induction q as [|y q IH]; intros p fuel Hp Hb Hlen.
  - simpl. by rewrite Nat.sub_0_r, app_nil_r.
  - destruct fuel as [|fuel]; [simpl in Hlen; lia|].
    destruct (last p) as [x|] eqn:Hx; [|by apply last_None in Hx].
    destruct (inner_cut (p ++ y :: q) p (y :: q) x y) as [Hl Hr]; auto.
    cbn [sub_from]. rewrite Hs.
    2:{ unfold lclean, prev_ok, next_ok. cbn [prev rest app].
        by rewrite Hl, Hr. }
    cbn [rest app]. f_equal.
    replace (Some y) with (last (p ++ [y])) by apply last_snoc.
    rewrite IH.
    + cbn [length]. rewrite Nat.sub_succ. by rewrite <- app_assoc.
    + by destruct p.
    + intros _. rewrite <- app_assoc. apply Hb. discriminate.
    + simpl in Hlen. lia.
Qed.

Lemma sub_from_safe (r : regex) (t : list titem) :
  sub_ok r t →
  ∀ n fuel cu toks,
    length toks ≤ n → Forall valid toks → rest cu = flat toks →
    length (rest cu) < fuel →
    ∃ toks', sub_from r t fuel cu = flat toks' ∧ Forall valid toks'
             ∧ ents toks' = ents toks.
Proof.
  intros [Hs Hm]. induction n as [|n IH]; intros fuel cu toks Hn Hv E Hf.
  - destruct toks; [|simpl in Hn; lia]. destruct fuel; [lia|].
    cbn [sub_from]. destruct (match_at r cu) as [[cu' caps]|] eqn:M.
    + destruct (Hm cu cu' caps [] Hv E M) as (tm & tr & _ & E' & Hne & _).
      symmetry in E'. apply app_eq_nil in E' as [-> _]. done.
    + rewrite E. by exists [].
  - destruct fuel as [|fuel]; [lia|]. cbn [sub_from].
    destruct (match_at r cu) as [[cu' caps]|] eqn:M.
    + destruct (Hm cu cu' caps toks Hv E M)
        as (tm & tr & tout & -> & Hne & Er & Eo & Hvo & Heo).
      apply Forall_app in Hv as [Hvm Hvr].
      pose proof (flat_nonempty tm Hvm Hne) as Hfm.
      rewrite flat_app in E.
      assert (Hlt : length (rest cu') < length (rest cu)).
      { rewrite E, Er, length_app. destruct (flat tm); [done|]. simpl. lia. }
      rewrite (proj2 (Nat.ltb_lt _ _) Hlt).
      destruct (IH fuel cu' tr) as (toks' & Es & Hv' & He'); auto.
      { rewrite length_app in Hn. destruct tm; [done|]. simpl in Hn. lia. }
      { lia. }
      exists (tout ++ toks'). rewrite flat_app, !ents_app, Eo, Es, Heo, He'.
      split; [reflexivity|]. split; [by apply Forall_app | reflexivity].
    + destruct toks as [|tk toks]; [rewrite E; by exists []|].
      apply Forall_cons in Hv as [Htk Hv].
      change (flat (tk :: toks)) with (token_chars tk ++ flat toks) in E.
      destruct (token_chars tk) as [|c q] eqn:Etk;
        [by apply token_chars_nonempty in Etk|].
      rewrite E. cbn [app]. rewrite E in Hf. cbn [app length] in Hf.
      rewrite length_app in Hf.
      pose proof (sub_from_skip r t (flat toks) Hs q [c] fuel) as Hskip.
      cbn [last] in Hskip. rewrite Hskip; [|done| |lia].
      2:{ intros Hq. destruct (token_chars_blocks tk Htk) as [(c' & -> & _)|Hb].
          - simpl in Etk. injection Etk as _ <-. done.
          - by rewrite Etk in Hb. }
      destruct (IH (fuel - length q) (Cursor (last ([c] ++ q)) (flat toks)) toks)
        as (toks' & Es & Hv' & He'); auto.
      { simpl in Hn. lia. }
      { cbn [rest]. lia. }
      exists (tk :: toks'). split; [|split].
      * change (flat (tk :: toks')) with (token_chars tk ++ flat toks').
        by rewrite Etk, Es.
      * by constructor.
      * change (tk :: toks') with ([tk] ++ toks').
        change (tk :: toks) with ([tk] ++ toks).
        by rewrite !ents_app, He'.
Qed.

(** [re.sub] on an HTML-safe text. *)
Lemma re_sub_safe (r : regex) (t : list titem) (s : string)
    (toks : list token) :
  sub_ok r t → html_safe (str s) toks →
  ∃ toks', html_safe (str (re_sub r t s)) toks' ∧ ents toks' = ents toks.
Proof.
  intros Hok [E Hv]. unfold re_sub.
  destruct (sub_from_safe r t Hok (length toks) (S (String.length s))
              (Cursor None (str s)) toks) as (toks' & Es & Hv' & He); auto.
  { cbn [rest]. rewrite length_str. lia. }
  exists toks'. rewrite str_pystr. by repeat split.
Qed.

(** ** The first pass keeps an escaped text HTML-safe

    The first pass runs on the text as [escape] and the newline
    normalisation leave it; what it writes for a heading line is escaped,
    so the entities of the line change as [reescaped] tells. *)

Lemma reescaped_refl (es : list string) : reescaped es es.
Proof. induction es; by constructor. Qed.

Lemma reescaped_app (l es es' : list string) :
  reescaped es es' → reescaped (l ++ es) (l ++ es').
Proof. intros H. induction l; [exact H | by constructor]. Qed.

(** Inside an entity the scan copies characters until its end. *)
Lemma sub_from_with_skip (r : regex) (f : captures → chars) (R : chars) :
  (∀ cu, lclean cu = false → match_at r cu = None) →
  ∀ q p fuel,
    p ≠ [] → (q ≠ [] → p ++ q ∈ blocks) → length q ≤ fuel →
    sub_from_with r f fuel (Cursor (last p) (q ++ R))
    = q ++ sub_from_with r f (fuel - length q) (Cursor (last (p ++ q)) R).
Proof.
  intros Hs. induction q as [|y q IH]; intros p fuel Hp Hb Hlen.
  - simpl. by rewrite Nat.sub_0_r, app_nil_r.
  - destruct fuel as [|fuel]; [simpl in Hlen; lia|].
    destruct (last p) as [x|] eqn:Hx; [|by apply last_None in Hx].
    destruct (inner_cut (p ++ y :: q) p (y :: q) x y) as [Hl Hr]; auto.
    cbn [sub_from_with]. rewrite Hs.
    2:{ unfold lclean, prev_ok, next_ok. cbn [prev rest app].
        by rewrite Hl, Hr. }
    cbn [rest app]. f_equal.
    replace (Some y) with (last (p ++ [y])) by apply last_snoc.
    rewrite IH.
    + cbn [length]. rewrite Nat.sub_succ. by rewrite <- app_assoc.
    + by destruct p.
    + intros _. rewrite <- app_assoc. apply Hb. discriminate.
    + simpl in Hlen. lia.
Qed.

Lemma sub_from_with_safe (r : regex) (f : captures → chars) :
  sub_ok_escaping r f →
  ∀ n fuel cu toks,
    length toks ≤ n → Forall valid toks →
    Forall (fun c => escaped_away c = false) (flat toks) →
    rest cu = flat toks →
    length (rest cu) < fuel →
    ∃ toks', sub_from_with r f fuel cu = flat toks' ∧ Forall valid toks'
             ∧ reescaped (ents toks) (ents toks').
Proof.
  intros [Hs Hm]. induction n as [|n IH]; intros fuel cu toks Hn Hv Hq E Hf.
  - destruct toks; [|simpl in Hn; lia]. destruct fuel; [lia|].
    cbn [sub_from_with]. destruct (match_at r cu) as [[cu' caps]|] eqn:M.
    + destruct (Hm cu cu' caps [] Hv Hq E M) as (tm & tr & _ & E' & Hne & _).
      symmetry in E'. apply app_eq_nil in E' as [-> _]. done.
    + rewrite E. exists []. repeat split; constructor.
  - destruct fuel as [|fuel]; [lia|]. cbn [sub_from_with].
    destruct (match_at r cu) as [[cu' caps]|] eqn:M.
    + destruct (Hm cu cu' caps toks Hv Hq E M)
        as (tm & tr & tout & -> & Hne & Er & Eo & Hvo & Heo).
      apply Forall_app in Hv as [Hvm Hvr].
      rewrite flat_app in Hq. apply Forall_app in Hq as [_ Hqr].
      pose proof (flat_nonempty tm Hvm Hne) as Hfm.
      rewrite flat_app in E.
      assert (Hlt : length (rest cu') < length (rest cu)).
      { rewrite E, Er, length_app. destruct (flat tm); [done|]. simpl. lia. }
      rewrite (proj2 (Nat.ltb_lt _ _) Hlt).
      destruct (IH fuel cu' tr) as (toks' & Es & Hv' & He'); auto.
      { rewrite length_app in Hn. destruct tm; [done|]. simpl in Hn. lia. }
      { lia. }
      exists (tout ++ toks'). rewrite flat_app, !ents_app, Eo, Es, Heo.
      split; [reflexivity|]. split; [by apply Forall_app|].
      by constructor.
    + destruct toks as [|tk toks];
        [rewrite E; exists []; repeat split; constructor|].
      apply Forall_cons in Hv as [Htk Hv].
      change (flat (tk :: toks)) with (token_chars tk ++ flat toks) in E, Hq.
      apply Forall_app in Hq as [_ Hq].
      destruct (token_chars tk) as [|c q] eqn:Etk;
        [by apply token_chars_nonempty in Etk|].
      rewrite E. cbn [app]. rewrite E in Hf. cbn [app length] in Hf.
      rewrite length_app in Hf.
      pose proof (sub_from_with_skip r f (flat toks) Hs q [c] fuel) as Hskip.
      cbn [last] in Hskip. rewrite Hskip; [|done| |lia].
      2:{ intros Hq'. destruct (token_chars_blocks tk Htk) as [(c' & -> & _)|Hb].
          - simpl in Etk. injection Etk as _ <-. done.
          - by rewrite Etk in Hb. }
      destruct (IH (fuel - length q) (Cursor (last ([c] ++ q)) (flat toks)) toks)
        as (toks' & Es & Hv' & He'); auto.
      { simpl in Hn. lia. }
      { cbn [rest]. lia. }
      exists (tk :: toks'). split; [|split].
      * change (flat (tk :: toks')) with (token_chars tk ++ flat toks').
        by rewrite Etk, Es.
      * by constructor.
      * change (tk :: toks') with ([tk] ++ toks').
        change (tk :: toks) with ([tk] ++ toks).
        rewrite !ents_app. by apply reescaped_app.
Qed.

(** The first pass on an escaped text. *)
Lemma re_sub_with_safe (r : regex) (f : captures → chars) (s : string)
    (toks : list token) :
  sub_ok_escaping r f → html_safe (str s) toks →
  Forall (fun c => escaped_away c = false) (str s) →
  ∃ toks', html_safe (str (re_sub_with r f s)) toks'
           ∧ reescaped (ents toks) (ents toks').
Proof.
  intros Hok [E Hv] Hq. unfold re_sub_with.
  destruct (sub_from_with_safe r f Hok (length toks) (S (String.length s))
              (Cursor None (str s)) toks) as (toks' & Es & Hv' & He); auto.
  { by rewrite <- E. }
  { cbn [rest]. rewrite length_str. lia. }
  exists toks'. rewrite str_pystr. by repeat split.
Qed.

(** ** The patterns of the renderer satisfy [sub_ok] *)

Lemma starts_clean_no_match (r : regex) (cu : cursor) :
  starts_clean r = true → lclean cu = false → match_at r cu = None.
Proof.
  intros Hs Hc. destruct (match_at r cu) as [[cu' caps]|] eqn:M; [|done].
  apply match_at_sound in M.
  rewrite (matches_starts_clean _ _ _ _ _ M Hs) in Hc. discriminate.
Qed.

(** A match that ends at a locally clean cursor reads whole tokens. *)
Lemma match_tokens (r : regex) (cu cu' : cursor) (caps0 caps : captures)
    (toks : list token) :
  matches r cu caps0 cu' caps → Forall valid toks → rest cu = flat toks →
  lclean cu' = true →
  ∃ m t_m t_rest,
    reads r cu m cu' ∧ toks = t_m ++ t_rest ∧ flat t_m = m
    ∧ rest cu' = flat t_rest.
Proof.
  intros M Hv E Hc. destruct (matches_reads _ _ _ _ _ M) as (m & Hr).
  pose proof Hr as (Er & Hp & _ & _).
  destruct (flat_split toks m (rest cu') Hv) as (t1 & t2 & -> & E1 & E2).
  - by rewrite <- E.
  - by eapply lclean_boundary.
  - by exists m, t1, t2.
Qed.

Lemma ents_no_amp (toks : list token) :
  Forall valid toks → ("&"%char ∉ flat toks) → ents toks = [].
Proof.
  induction 1 as [|t toks Ht _ IH]; [reflexivity|].
  change (flat (t :: toks)) with (token_chars t ++ flat toks).
  rewrite elem_of_app. intros Hn. destruct t as [s|s|c]; simpl.
  - apply IH. tauto.
  - exfalso. apply Hn. left. simpl in Ht. revert Ht.
    generalize s. apply Forall_forall.
    apply (bool_decide_unpack _). vm_compute. exact I.
  - apply IH. tauto.
Qed.

Lemma reads_no_amp (r : regex) (cu cu' : cursor) (m : chars) :
  reads r cu m cu' → chars_of r "&" = false → "&"%char ∉ m.
Proof.
  intros (_ & _ & Hc & _) Hn Hin. rewrite Forall_forall in Hc.
  apply Hc in Hin. congruence.
Qed.

(** Replacement by fixed tokens, as for the rule and the line break. *)
Lemma sub_ok_const (r : regex) (lits : list string) (t_out : list token) :
  starts_clean r = true → ends_clean r true = true → nonnull r = true →
  chars_of r "&" = false →
  concat (str <$> lits) = flat t_out → Forall valid t_out → ents t_out = [] →
  sub_ok r (TLit <$> lits).
Proof.
  intros Hs He Hn Ha Eo Hvo Heo. split; [intros cu; by apply starts_clean_no_match|].
  intros cu cu' caps toks Hv E M. apply match_at_sound in M.
  pose proof (matches_starts_clean _ _ _ _ _ M Hs) as Hc.
  pose proof (matches_ends_clean _ _ _ _ _ M true (fun _ => Hc) He) as Hc'.
  destruct (match_tokens _ _ _ _ _ toks M Hv E Hc')
    as (m & tm & tr & Hr & -> & Em & Er).
  exists tm, tr, t_out. apply Forall_app in Hv as [Hvm _].
  split; [reflexivity|]. split.
  { intros ->. destruct Hr as (_ & _ & _ & Hne). by apply Hne. }
  split; [exact Er|]. split; [|split; [exact Hvo|]].
  - unfold expand. rewrite <- Eo. f_equal. rewrite <- list_fmap_compose.
    by apply list_fmap_ext.
  - rewrite Heo. symmetry. apply ents_no_amp; [exact Hvm|].
    rewrite Em. by eapply reads_no_amp.
Qed.

(** Wrapping the whole match in a pair of tags, as for the list. *)
Lemma sub_ok_wrap_match (r : regex) (o c : string) :
  starts_clean r = true → ends_clean r true = true → nonnull r = true →
  o ∈ tags → c ∈ tags →
  sub_ok r [TLit o; TGroup 0; TLit c].
Proof.
  intros Hs He Hn Ho Hcl. split; [intros cu; by apply starts_clean_no_match|].
  intros cu cu' caps toks Hv E M. apply match_at_sound in M.
  pose proof (matches_starts_clean _ _ _ _ _ M Hs) as Hc.
  pose proof (matches_ends_clean _ _ _ _ _ M true (fun _ => Hc) He) as Hc'.
  destruct (match_tokens _ _ _ _ _ toks M Hv E Hc')
    as (m & tm & tr & Hr & -> & Em & Er).
  exists tm, tr, ([Tag o] ++ tm ++ [Tag c]).
  apply Forall_app in Hv as [Hvm _].
  split; [reflexivity|]. split.
  { intros ->. destruct Hr as (_ & _ & _ & Hne). by apply Hne. }
  split; [exact Er|]. split; [|split].
  - destruct Hr as (Erest & _). rewrite (consumed_reads _ _ _ Erest).
    rewrite !flat_app, Em. unfold expand. simpl. by rewrite !app_nil_r.
  - apply Forall_app. split; [by apply Forall_singleton|].
    apply Forall_app. split; [exact Hvm | by apply Forall_singleton].
  - rewrite !ents_app. simpl. by rewrite app_nil_r.
Qed.

Lemma seqs_no_groups (rs : list regex) :
  forallb no_groups rs = true → no_groups (seqs rs) = true.
Proof.
  induction rs as [|r rs IH]; [reflexivity|]. cbn.
  intros [-> H]%andb_true_iff. by apply IH.
Qed.

(** A sequence with one group in the middle: what is read before the
    group, inside it and after it. *)
Lemma matches_seqs_group (pre post : list regex) (n : nat) (g : regex) :
  forallb no_groups pre = true → no_groups g = true →
  forallb no_groups post = true →
  ∀ cu cu' caps,
    matches (seqs (pre ++ Group n g :: post)) cu [] cu' caps →
    ∃ c1 c2,
      matches (seqs pre) cu [] c1 []
      ∧ matches g c1 [] c2 []
      ∧ matches (seqs post) c2 [(n, consumed c1 c2)] cu' caps
      ∧ caps = [(n, consumed c1 c2)].
Proof.
  intros Hpre Hg Hpost. induction pre as [|a pre IH]; intros cu cu' caps M.
  - cbn in M. inversion M as [| | | | |? ? ? ? c2 caps1 ? ? Mg M3| | | | |];
      subst.
    inversion Mg as [| | | | | | | | | |? ? ? ? ? caps' Mg']; subst.
    pose proof (matches_no_groups _ _ _ _ _ Mg' Hg) as ->.
    pose proof (matches_no_groups _ _ _ _ _ M3 (seqs_no_groups _ Hpost)) as ->.
    exists cu, c2. repeat split; [constructor | exact Mg' | exact M3].
  - cbn in Hpre. apply andb_true_iff in Hpre as [Ha Hpre].
    cbn in M. inversion M as [| | | | |? ? ? ? c0 caps0 ? ? Ma Mrest| | | | |];
      subst.
    pose proof (matches_no_groups _ _ _ _ _ Ma Ha) as ->.
    destruct (IH Hpre _ _ _ Mrest) as (c1 & c2 & M1 & Mg & M3 & ->).
    exists c1, c2. repeat split; [|exact Mg|exact M3].
    cbn. by econstructor.
Qed.

(** Wrapping a group in a pair of tags, as for second-level headings,
    bold, italic and list items. *)
Lemma sub_ok_wrap_group (pre post : list regex) (n : nat) (g : regex)
    (o c : string) :
  let r := seqs (pre ++ Group n g :: post) in
  n ≠ 0 →
  forallb no_groups pre = true → no_groups g = true →
  forallb no_groups post = true →
  starts_clean r = true →
  ends_clean (seqs pre) true = true →
  starts_clean (seqs post) = true →
  ends_clean (seqs post) true = true →
  chars_of (seqs pre) "&" = false → chars_of (seqs post) "&" = false →
  nonnull r = true →
  o ∈ tags → c ∈ tags →
  sub_ok r [TLit o; TGroup n; TLit c].
Proof.
  intros r Hn0 Hpre Hg Hpost Hs He1 Hs3 He3 Ha1 Ha3 Hnn Ho Hcl.
  split; [intros cu; by apply starts_clean_no_match|].
  intros cu cu' caps toks Hv E M. apply match_at_sound in M.
  pose proof (matches_starts_clean _ _ _ _ _ M Hs) as Hc.
  destruct (matches_reads _ _ _ _ _ M) as (m & Em & _ & _ & Hm).
  specialize (Hm Hnn).
  destruct (matches_seqs_group pre post n g Hpre Hg Hpost _ _ _ M)
    as (c1 & c2 & M1 & Mg & M3 & ->).
  pose proof (matches_ends_clean _ _ _ _ _ M1 true (fun _ => Hc) He1) as Hc1.
  pose proof (matches_starts_clean _ _ _ _ _ M3 Hs3) as Hc2.
  pose proof (matches_ends_clean _ _ _ _ _ M3 true (fun _ => Hc2) He3) as Hc'.
  destruct (match_tokens _ _ _ _ _ toks M1 Hv E Hc1)
    as (m1 & t1 & tr1 & R1 & -> & E1 & Er1).
  apply Forall_app in Hv as [Hv1 Hvr1].
  destruct (match_tokens _ _ _ _ _ tr1 Mg Hvr1 Er1 Hc2)
    as (mg & tg & tr2 & Rg & -> & Eg & Er2).
  apply Forall_app in Hvr1 as [Hvg Hvr2].
  destruct (match_tokens _ _ _ _ _ tr2 M3 Hvr2 Er2 Hc')
    as (m3 & t3 & tr & R3 & -> & E3 & Er).
  apply Forall_app in Hvr2 as [Hv3 Hvr].
  exists (t1 ++ tg ++ t3), tr, ([Tag o] ++ tg ++ [Tag c]).
  split; [by rewrite <- !app_assoc|]. split.
  { intros Hnil. apply app_eq_nil in Hnil as [-> Hnil].
    apply app_eq_nil in Hnil as [-> ->].
    rewrite E, Er in Em. simpl in Em.
    apply (f_equal length) in Em. rewrite length_app in Em.
    destruct m; [done|]. simpl in Em. lia. }
  split; [exact Er|]. split; [|split].
  - destruct Rg as (Erg & _). rewrite (consumed_reads _ _ _ Erg).
    unfold expand. cbn [fmap list_fmap concat group].
    rewrite (proj2 (Nat.eqb_neq n 0) Hn0), Nat.eqb_refl.
    rewrite !flat_app, Eg. simpl. by rewrite !app_nil_r.
  - apply Forall_app. split; [by apply Forall_singleton|].
    apply Forall_app. split; [exact Hvg | by apply Forall_singleton].
  - rewrite !ents_app. simpl. rewrite app_nil_r.
    rewrite (ents_no_amp t1 Hv1), (ents_no_amp t3 Hv3).
    + by rewrite app_nil_r.
    + rewrite E3. by eapply reads_no_amp.
    + rewrite E1. by eapply reads_no_amp.
Qed.

Lemma heading_sub_ok (o c : string) :
  o ∈ tags → c ∈ tags →
  sub_ok (heading_re "##") [TLit o; TGroup 1; TLit c].
Proof.
  intros Ho Hc.
  apply (sub_ok_wrap_group
           [Bol true; Star true ws; lit "##"; Chr " "] [Eol true]
           1 (Star true dot) o c); try done; vm_compute; reflexivity.
Qed.

Lemma hr_sub_ok : sub_ok hr_re [TLit lf; TLit "<hr>"; TLit lf].
Proof.
  apply (sub_ok_const hr_re [lf; "<hr>"; lf]
           [Plain newline; Tag "<hr>"; Plain newline]);
    try (vm_compute; reflexivity).
  repeat constructor; try reflexivity.
Qed.

Lemma emphasis_sub_ok (stars o c : string) :
  stars = "**" ∨ stars = "*" → o ∈ tags → c ∈ tags →
  sub_ok (seqs [lit stars; Group 1 (plus false dot); lit stars])
    [TLit o; TGroup 1; TLit c].
Proof.
  intros Hs Ho Hc.
  apply (sub_ok_wrap_group [lit stars] [lit stars] 1 (plus false dot) o c);
    try done; destruct Hs as [-> | ->]; vm_compute; reflexivity.
Qed.

Lemma li_sub_ok : sub_ok li_re [TLit "<li>"; TGroup 1; TLit "</li>"].
Proof.
  apply (sub_ok_wrap_group
           [Bol true; Star true ws; Chr "-"; plus true ws] [Eol true]
           1 (seqs [Star true dot; non_ws; Star true dot]) "<li>" "</li>");
    try done; try (vm_compute; reflexivity);
    apply (bool_decide_unpack _); vm_compute; exact I.
Qed.

Lemma ul_sub_ok : sub_ok ul_re [TLit "<ul>"; TGroup 0; TLit "</ul>"].
Proof.
  apply sub_ok_wrap_match; try (vm_compute; reflexivity);
    apply (bool_decide_unpack _); vm_compute; exact I.
Qed.

Lemma br_sub_ok : sub_ok br_re [TLit "<br>"].
Proof.
  apply (sub_ok_const br_re ["<br>"] [Tag "<br>"]);
    try (vm_compute; reflexivity).
  repeat constructor.
Qed.

(** ** Escaping and newline normalisation *)

Lemma escape_token_chars (c : ascii) :
  token_chars (escape_token c) = escape_char c.
Proof.
  unfold escape_token, escape_char.
  repeat (destruct (is_char _ c); [reflexivity|]). reflexivity.
Qed.

Lemma escape_token_valid (c : ascii) : valid (escape_token c).
Proof.
  unfold escape_token.
  destruct (is_char "&" c) eqn:E1; [by repeat constructor|].
  destruct (is_char ">" c) eqn:E2; [by repeat constructor|].
  destruct (is_char "<" c) eqn:E3; [by repeat constructor|].
  assert (Hm : markup_char c = false).
  { unfold markup_char. by rewrite E1, E2, E3. }
  destruct (is_char "'" c); [by repeat constructor|].
  destruct (is_char "034" c); [by repeat constructor|].
  exact Hm.
Qed.

Lemma escape_safe (text : string) :
  html_safe (str (escape text)) (escape_token <$> str text).
Proof.
  unfold escape, html_safe. rewrite str_pystr. split.
  - unfold flat. induction (str text) as [|c l IH]; [reflexivity|].
    cbn. by rewrite IH, escape_token_chars.
  - apply Forall_fmap, Forall_forall. intros c _. apply escape_token_valid.
Qed.

Lemma replace_crlf_other (c : ascii) (tl : chars) :
  is_char carriage_return c = false →
  replace_crlf (c :: tl) = c :: replace_crlf tl.
Proof.
  intros H. destruct tl as [|d tl]; [reflexivity|].
  change (replace_crlf (c :: d :: tl))
    with (if is_char carriage_return c && is_char newline d
          then newline :: replace_crlf tl else c :: replace_crlf (d :: tl)).
  by rewrite H.
Qed.

Lemma replace_crlf_cr (c d : ascii) (tl : chars) :
  is_char carriage_return c = true →
  replace_crlf (c :: d :: tl)
  = if is_char newline d then newline :: replace_crlf tl
    else c :: replace_crlf (d :: tl).
Proof.
  intros H.
  change (replace_crlf (c :: d :: tl))
    with (if is_char carriage_return c && is_char newline d
          then newline :: replace_crlf tl else c :: replace_crlf (d :: tl)).
  by rewrite H.
Qed.

Lemma replace_crlf_app (l R : chars) :
  Forall (fun c => is_char carriage_return c = false) l →
  replace_crlf (l ++ R) = l ++ replace_crlf R.
Proof.
  induction 1 as [|c l Hc _ IH]; [reflexivity|].
  cbn [app]. by rewrite replace_crlf_other, IH.
Qed.

Lemma blocks_no_cr :
  Forall (fun b => Forall (fun c => negb (is_char carriage_return c) = true) b)
    blocks.
Proof. apply (bool_decide_unpack _). vm_compute. exact I. Qed.

Lemma blocks_head :
  Forall (fun b => ∃ c tl, b = c :: tl ∧ is_char newline c = false) blocks.
Proof. repeat constructor; by eexists _, _. Qed.

Lemma replace_crlf_safe (toks : list token) :
  Forall valid toks →
  ∃ toks', replace_crlf (flat toks) = flat toks' ∧ Forall valid toks'
           ∧ ents toks' = ents toks.
Proof.
  remember (length toks) as n eqn:Hn. revert toks Hn.
  induction n as [n IH] using lt_wf_ind. intros toks -> Hv.
  destruct Hv as [|tk toks Htk Hv]; [by exists []|].
  change (flat (tk :: toks)) with (token_chars tk ++ flat toks).
  destruct (token_chars_blocks tk Htk) as [(c & -> & Hc)|Hb].
  - cbn [token_chars app].
    destruct (is_char carriage_return c) eqn:Hcr.
    + destruct Hv as [|tk2 toks Htk2 Hv]; [by exists [Plain c]; repeat constructor|].
      change (flat (tk2 :: toks)) with (token_chars tk2 ++ flat toks).
      destruct (token_chars_blocks tk2 Htk2) as [(d & -> & Hd)|Hb2].
      * cbn [token_chars app]. rewrite replace_crlf_cr by exact Hcr.
        destruct (is_char newline d) eqn:Hnl.
        -- destruct (IH (length toks)) with (toks := toks)
             as (toks' & E & Hv' & He); [simpl; lia|reflexivity|exact Hv|].
           exists (Plain newline :: toks'). split; [|split].
           ++ change (flat (Plain newline :: toks')) with (newline :: flat toks').
              by rewrite E.
           ++ by constructor.
           ++ simpl. exact He.
        -- destruct (IH (length (Plain d :: toks))) with (toks := Plain d :: toks)
             as (toks' & E & Hv' & He);
             [simpl; lia|reflexivity|by constructor|].
           exists (Plain c :: toks'). split; [|split].
           ++ change (flat (Plain c :: toks')) with (c :: flat toks').
              by rewrite <- E.
           ++ by constructor.
           ++ simpl in *. exact He.
      * pose proof blocks_head as Hh. rewrite Forall_forall in Hh.
        destruct (Hh _ Hb2) as (d & tl & Ed & Hd). rewrite Ed.
        cbn [app]. rewrite replace_crlf_cr, Hd by exact Hcr.
        change (d :: tl ++ flat toks) with ((d :: tl) ++ flat toks).
        rewrite <- Ed.
        destruct (IH (length (tk2 :: toks))) with (toks := tk2 :: toks)
          as (toks' & E & Hv' & He);
          [simpl; lia|reflexivity|by constructor|].
        exists (Plain c :: toks'). split; [|split].
        -- change (flat (Plain c :: toks')) with (c :: flat toks').
           by rewrite <- E.
        -- by constructor.
        -- change (Plain c :: tk2 :: toks) with ([Plain c] ++ tk2 :: toks).
           change (Plain c :: toks') with ([Plain c] ++ toks').
           by rewrite !ents_app, He.
    + rewrite replace_crlf_other by exact Hcr.
      destruct (IH (length toks)) with (toks := toks)
        as (toks' & E & Hv' & He); [simpl; lia|reflexivity|exact Hv|].
      exists (Plain c :: toks'). split; [|split].
      * change (flat (Plain c :: toks')) with (c :: flat toks'). by rewrite E.
      * by constructor.
      * simpl. exact He.
  - rewrite replace_crlf_app.
    2:{ pose proof blocks_no_cr as Hn. rewrite Forall_forall in Hn.
        eapply Forall_impl; [apply (Hn _ Hb)|].
        intros c Hc. by apply negb_true_iff in Hc. }
    destruct (IH (length toks)) with (toks := toks)
      as (toks' & E & Hv' & He); [simpl; lia|reflexivity|exact Hv|].
    exists (tk :: toks'). split; [|split].
    + change (flat (tk :: toks')) with (token_chars tk ++ flat toks').
      by rewrite E.
    + by constructor.
    + change (tk :: toks) with ([tk] ++ toks).
      change (tk :: toks') with ([tk] ++ toks').
      by rewrite !ents_app, He.
Qed.

Lemma replace_cr_id (l : chars) :
  Forall (fun c => is_char carriage_return c = false) l → replace_cr l = l.
Proof.
  unfold replace_cr. induction 1 as [|c l Hc _ IH]; [reflexivity|].
  cbn [fmap list_fmap]. rewrite Hc. f_equal. exact IH.
Qed.

Lemma replace_cr_safe (toks : list token) :
  Forall valid toks →
  ∃ toks', replace_cr (flat toks) = flat toks' ∧ Forall valid toks'
           ∧ ents toks' = ents toks.
Proof.
  induction 1 as [|tk toks Htk Hv (toks' & E & Hv' & He)]; [by exists []|].
  change (flat (tk :: toks)) with (token_chars tk ++ flat toks).
  unfold replace_cr in *. rewrite fmap_app, E.
  destruct (token_chars_blocks tk Htk) as [(c & -> & Hc)|Hb].
  - exists (Plain (if is_char carriage_return c then newline else c) :: toks').
    split; [reflexivity|]. split; [|exact He].
    constructor; [|exact Hv']. cbn [valid].
    destruct (is_char carriage_return c); [reflexivity | exact Hc].
  - exists (tk :: toks'). split; [|split].
    + change (flat (tk :: toks')) with (token_chars tk ++ flat toks').
      f_equal. apply replace_cr_id.
      pose proof blocks_no_cr as Hn. rewrite Forall_forall in Hn.
      eapply Forall_impl; [apply (Hn _ Hb)|].
      intros c Hc. by apply negb_true_iff in Hc.
    + by constructor.
    + change (tk :: toks) with ([tk] ++ toks).
      change (tk :: toks') with ([tk] ++ toks').
      by rewrite !ents_app, He.
Qed.

Lemma normalize_newlines_safe (s : string) (toks : list token) :
  html_safe (str s) toks →
  ∃ toks', html_safe (str (normalize_newlines s)) toks'
           ∧ ents toks' = ents toks.
Proof.
  intros [E Hv]. unfold normalize_newlines. rewrite str_pystr, E.
  destruct (replace_crlf_safe toks Hv) as (t1 & E1 & Hv1 & He1).
  destruct (replace_cr_safe t1 Hv1) as (t2 & E2 & Hv2 & He2).
  exists t2. rewrite E1, E2. split; [by split | congruence].
Qed.

(** ** The first pass of the renderer *)

Lemma flat_escape_token (l : chars) :
  flat (escape_token <$> l) = l ≫= escape_char.
Proof.
  induction l as [|c l IH]; [reflexivity|].
  change (flat (escape_token <$> c :: l))
    with (token_chars (escape_token c) ++ flat (escape_token <$> l)).
  by rewrite IH, escape_token_chars.
Qed.

Lemma valid_escape_token (l : chars) : Forall valid (escape_token <$> l).
Proof.
  apply Forall_fmap, Forall_forall. intros c _. apply escape_token_valid.
Qed.

(** Escaping an escaped text once more turns each of its entities into
    an ampersand entity followed by plain characters. *)
Lemma ents_escape_again (toks : list token) :
  Forall valid toks →
  Forall (fun c => escaped_away c = false) (flat toks) →
  ents (escape_token <$> flat toks) = (fun _ => "&amp;") <$> ents toks.
Proof.
  assert (Htag : Forall (fun s => ∃ l, str s = "<"%char :: l) tags)
    by (repeat constructor; eexists; reflexivity).
  assert (Hent : Forall (fun s => ents (escape_token <$> str s) = ["&amp;"])
                   entities) by by repeat constructor.
  rewrite Forall_forall in Htag, Hent.
  induction 1 as [|t toks Ht _ IH]; [reflexivity|].
  change (flat (t :: toks)) with (token_chars t ++ flat toks).
  intros [Hq1 Hq2]%Forall_app. rewrite fmap_app, ents_app, (IH Hq2).
  destruct t as [s|s|c]; cbn [token_chars valid] in *.
  - destruct (Htag s Ht) as [l El]. rewrite El in Hq1.
    apply Forall_cons in Hq1 as [Hq1 _]. discriminate.
  - by rewrite (Hent s Ht).
  - apply Forall_cons in Hq1 as [Hq1 _]. unfold escaped_away in Hq1.
    unfold markup_char in Ht.
    apply orb_false_iff in Hq1 as [Hq1 Hdq].
    apply orb_false_iff in Hq1 as [Hq1 Hsq].
    apply orb_false_iff in Hq1 as [Hlt Hgt].
    apply orb_false_iff in Ht as [_ Hamp].
    cbn [fmap list_fmap]. unfold escape_token.
    by rewrite Hamp, Hgt, Hlt, Hsq, Hdq.
Qed.

(** The first pass: a third-level heading line is replaced by its text,
    escaped once more, between the escaped tags. *)
Lemma heading3_escaping :
  sub_ok_escaping (heading_re "###")
    (markup_join [TLit "<h3>"; TGroup 1; TLit "</h3>"]).
Proof.
  set (pre := [Bol true; Star true ws; lit "###"; Chr " "]).
  set (post := [Eol true]).
  assert (Hs : starts_clean (heading_re "###") = true) by by vm_compute.
  split; [intros cu; by apply starts_clean_no_match|].
  intros cu cu' caps toks Hv Hq E M. apply match_at_sound in M.
  pose proof (matches_starts_clean _ _ _ _ _ M Hs) as Hc.
  destruct (matches_reads _ _ _ _ _ M) as (m & Em & _ & _ & Hm).
  specialize (Hm eq_refl).
  destruct (matches_seqs_group pre post 1 (Star true dot)
              eq_refl eq_refl eq_refl _ _ _ M)
    as (c1 & c2 & M1 & Mg & M3 & ->).
  assert (He1 : ends_clean (seqs pre) true = true) by by vm_compute.
  pose proof (matches_ends_clean _ _ _ _ _ M1 true (fun _ => Hc) He1) as Hc1.
  pose proof (matches_starts_clean _ _ _ _ _ M3 eq_refl) as Hc2.
  pose proof (matches_ends_clean _ _ _ _ _ M3 true (fun _ => Hc2) eq_refl)
    as Hc'.
  destruct (match_tokens _ _ _ _ _ toks M1 Hv E Hc1)
    as (m1 & t1 & tr1 & R1 & -> & E1 & Er1).
  apply Forall_app in Hv as [Hv1 Hvr1].
  destruct (match_tokens _ _ _ _ _ tr1 Mg Hvr1 Er1 Hc2)
    as (mg & tg & tr2 & Rg & -> & Eg & Er2).
  apply Forall_app in Hvr1 as [Hvg Hvr2].
  destruct (match_tokens _ _ _ _ _ tr2 M3 Hvr2 Er2 Hc')
    as (m3 & t3 & tr & R3 & -> & E3 & Er).
  apply Forall_app in Hvr2 as [Hv3 Hvr].
  exists (t1 ++ tg ++ t3), tr,
    ((escape_token <$> str "<h3>") ++ (escape_token <$> flat tg)
     ++ (escape_token <$> str "</h3>")).
  split; [by rewrite <- !app_assoc|]. split.
  { intros Hnil. apply app_eq_nil in Hnil as [-> Hnil].
    apply app_eq_nil in Hnil as [-> ->].
    rewrite E, Er in Em. simpl in Em.
    apply (f_equal length) in Em. rewrite length_app in Em.
    destruct m; [done|]. simpl in Em. lia. }
  split; [exact Er|]. split; [|split].
  - destruct Rg as (Erg & _). rewrite (consumed_reads _ _ _ Erg).
    unfold markup_join. cbn [fmap list_fmap concat group Nat.eqb].
    by rewrite !flat_app, !flat_escape_token, Eg, app_nil_r.
  - repeat (apply Forall_app; split); apply valid_escape_token.
  - rewrite !flat_app in Hq. apply Forall_app in Hq as [_ Hq].
    apply Forall_app in Hq as [Hq _].
    rewrite !ents_app, (ents_escape_again tg Hvg Hq).
    rewrite (ents_no_amp t1 Hv1), (ents_no_amp t3 Hv3).
    + by rewrite app_nil_r.
    + rewrite E3. by eapply reads_no_amp.
    + rewrite E1. by eapply reads_no_amp.
Qed.

(** [escape] writes the characters of its argument and of the entities. *)
Lemma escape_keeps (P : ascii → Prop) (l : chars) :
  Forall (fun e => Forall P (str e)) entities →
  Forall P l → Forall P (l ≫= escape_char).
Proof.
  intros He. rewrite Forall_forall in He.
  assert (Hin : ∀ e, bool_decide (e ∈ entities) = true → Forall P (str e)).
  { intros e H. apply He. by apply bool_decide_eq_true in H. }
  induction 1 as [|c l Hc _ IH]; [constructor|].
  change ((c :: l) ≫= escape_char) with (escape_char c ++ (l ≫= escape_char)).
  apply Forall_app. split; [|exact IH]. unfold escape_char.
  destruct (is_char "&" c); [exact (Hin "&amp;" eq_refl)|].
  destruct (is_char ">" c); [exact (Hin "&gt;" eq_refl)|].
  destruct (is_char "<" c); [exact (Hin "&lt;" eq_refl)|].
  destruct (is_char "'" c); [exact (Hin "&#39;" eq_refl)|].
  destruct (is_char "034" c); [exact (Hin "&#34;" eq_refl)|].
  by constructor.
Qed.

(** An escaped text holds neither angle brackets nor quotes, before and
    after the newline normalisation. *)
Lemma escape_away (text : string) :
  Forall (fun c => escaped_away c = false) (str (escape text)).
Proof.
  unfold escape. rewrite str_pystr.
  induction (str text) as [|c l IH]; [constructor|].
  change ((c :: l) ≫= escape_char) with (escape_char c ++ (l ≫= escape_char)).
  apply Forall_app. split; [|exact IH]. unfold escape_char, escaped_away.
  destruct (is_char "&" c); [by repeat constructor|].
  destruct (is_char ">" c) eqn:E1; [by repeat constructor|].
  destruct (is_char "<" c) eqn:E2; [by repeat constructor|].
  destruct (is_char "'" c) eqn:E3; [by repeat constructor|].
  destruct (is_char "034" c) eqn:E4; [by repeat constructor|].
  constructor; [|constructor]. by rewrite E1, E2, E3, E4.
Qed.

Lemma replace_crlf_Forall (P : ascii → Prop) (l : chars) :
  Forall P l → Forall P (replace_crlf l).
Proof.
  remember (length l) as n eqn:Hn. revert l Hn.
  induction (lt_wf n) as [n _ IH]. intros [|c [|d tl]] Hn H;
    [constructor|exact H|].
  change (replace_crlf (c :: d :: tl))
    with (if is_char carriage_return c && is_char newline d
          then newline :: replace_crlf tl else c :: replace_crlf (d :: tl)).
  apply Forall_cons in H as [Hc H]. pose proof H as [Hd Htl]%Forall_cons.
  cbn [length] in Hn.
  destruct (is_char carriage_return c && is_char newline d) eqn:E.
  - apply andb_true_iff in E as [_ E]. apply is_char_true in E. subst d.
    constructor; [exact Hd|]. apply (IH (length tl)); [lia|reflexivity|exact Htl].
  - constructor; [exact Hc|].
    apply (IH (length (d :: tl))); [cbn [length]; lia|reflexivity|exact H].
Qed.

Lemma normalize_newlines_Forall (P : ascii → Prop) (s : string) :
  P newline → Forall P (str s) → Forall P (str (normalize_newlines s)).
Proof.
  intros Hn H. unfold normalize_newlines. rewrite str_pystr. unfold replace_cr.
  apply Forall_fmap. apply replace_crlf_Forall.
  eapply Forall_impl; [exact H|]. intros c Hc. cbn beta in *.
  unfold compose. by destruct (is_char carriage_return c).
Qed.

(** A text in which the search finds nothing is left as it is. *)
Lemma sub_from_with_not_found (r : regex) (f : captures → chars) :
  ∀ fuel cu fuel',
    length (rest cu) ≤ fuel → search_from r fuel cu = None →
    sub_from_with r f fuel' cu = rest cu.
Proof.
  induction fuel as [|fuel IH]; intros cu fuel' Hlen Hs;
    (destruct fuel' as [|fuel']; [reflexivity|]);
    cbn [sub_from_with search_from] in *;
    destruct (match_at r cu) as [[cu' caps]|]; try discriminate;
    destruct (rest cu) as [|c tl] eqn:Er; try reflexivity.
  - cbn in Hlen. lia.
  - f_equal. apply (IH (Cursor (Some c) tl)); [cbn in *; lia | exact Hs].
Qed.

Lemma re_sub_with_not_found (r : regex) (f : captures → chars)
    (s : string) :
  re_search r s = None → re_sub_with r f s = s.
Proof.
  intros H. unfold re_sub_with, re_search in *.
  rewrite (sub_from_with_not_found r f (String.length s)); cbn [rest].
  - apply pystr_str.
  - by rewrite length_str.
  - exact H.
Qed.

(** The text [markdown_to_html] returns is HTML-safe.  Its entities are
    those of the characters of the raw text that have to be escaped, in
    order, but for the third-level heading lines, escaped twice; without
    such a line they are those entities one for one. *)
Lemma markdown_to_html_safe (text : string) :
  ∃ toks, html_safe (str (markdown_to_html text)) toks
          ∧ reescaped (raw_entities text) (ents toks)
          ∧ (re_search (heading_re "###") (normalize_newlines (escape text))
             = None → ents toks = raw_entities text).
Proof.
  unfold markdown_to_html. case_bool_decide as Ht.
  { subst text. exists []. split; [by split|]. split; [constructor|done]. }
  assert (Htag : ∀ s, bool_decide (s ∈ tags) = true → s ∈ tags).
  { intros s Hs. by apply bool_decide_eq_true in Hs. }
  pose proof (escape_safe text) as H0.
  destruct (normalize_newlines_safe _ _ H0) as (t1 & H1 & E1).
  assert (∃ t2,
    html_safe (str (re_sub_with (heading_re "###")
                      (markup_join [TLit "<h3>"; TGroup 1; TLit "</h3>"])
                      (normalize_newlines (escape text)))) t2
    ∧ reescaped (raw_entities text) (ents t2)
    ∧ (re_search (heading_re "###") (normalize_newlines (escape text)) = None
       → ents t2 = raw_entities text)) as (t2 & H2 & R2 & N2).
  { unfold raw_entities. rewrite <- E1.
    destruct (re_search (heading_re "###") (normalize_newlines (escape text)))
      eqn:S.
    - destruct (re_sub_with_safe _ _ _ _ heading3_escaping H1)
        as (t2 & H2 & R2).
      { apply normalize_newlines_Forall; [reflexivity | apply escape_away]. }
      exists t2. split; [exact H2|]. split; [exact R2 | discriminate].
    - rewrite (re_sub_with_not_found _ _ _ S). exists t1.
      split; [exact H1|]. split; [apply reescaped_refl | done]. }
  destruct (re_sub_safe _ _ _ _
              (heading_sub_ok "<h2>" "</h2>"
                 (Htag "<h2>" eq_refl) (Htag "</h2>" eq_refl)) H2)
    as (t3 & H3 & E3).
  destruct (re_sub_safe _ _ _ _ hr_sub_ok H3) as (t4 & H4 & E4).
  destruct (re_sub_safe _ _ _ _
              (emphasis_sub_ok "**" "<b>" "</b>" (or_introl eq_refl)
                 (Htag "<b>" eq_refl) (Htag "</b>" eq_refl)) H4)
    as (t5 & H5 & E5).
  destruct (re_sub_safe _ _ _ _
              (emphasis_sub_ok "*" "<i>" "</i>" (or_intror eq_refl)
                 (Htag "<i>" eq_refl) (Htag "</i>" eq_refl)) H5)
    as (t6 & H6 & E6).
  destruct (re_sub_safe _ _ _ _ li_sub_ok H6) as (t7 & H7 & E7).
  destruct (re_sub_safe _ _ _ _ ul_sub_ok H7) as (t8 & H8 & E8).
  destruct (re_sub_safe _ _ _ _ br_sub_ok H8) as (t9 & H9 & E9).
  assert (E : ents t9 = ents t2) by congruence.
  exists t9. rewrite E. split; [exact H9|]. by split.
Qed.

(** ** The texts a request stores *)

(** [lstrip] takes a run of white space off the front and stops at the
    first character that is none. *)
Lemma lstrip_spec (l : chars) :
  ∃ lead, l = lead ++ lstrip l
          ∧ Forall (fun c => is_space c = true) lead
          ∧ ∀ c, head (lstrip l) = Some c → is_space c = false.
Proof.
  induction l as [|x l (lead & E & Hl & Hh)]; [by exists []|].
  cbn [lstrip]. destruct (is_space x) eqn:Hx.
  - exists (x :: lead). split; [by rewrite E at 1|]. split; [by constructor|].
    exact Hh.
  - exists []. split; [reflexivity|]. split; [constructor|].
    by intros c [= <-].
Qed.

(** [strip] takes white space off the two ends, and nothing else. *)
Lemma strip_spec (s : string) : stripped_of (str s) (str (strip s)).
Proof.
  unfold strip, stripped_of. rewrite str_pystr.
  destruct (lstrip_spec (str s)) as (lead & E1 & Hl1 & Hh1).
  set (l1 := lstrip (str s)) in *.
  destruct (lstrip_spec (reverse l1)) as (lead2 & E2 & Hl2 & Hh2).
  set (l2 := lstrip (reverse l1)) in *.
  assert (E : l1 = reverse l2 ++ reverse lead2).
  { rewrite <- reverse_app, <- E2. symmetry. apply reverse_involutive. }
  exists lead, (reverse lead2). split; [by rewrite <- E|].
  split; [exact Hl1|]. split; [by apply Forall_reverse|]. split.
  - intros c Hc. apply Hh1. rewrite E.
    destruct (reverse l2); [discriminate | exact Hc].
  - intros c Hc. apply Hh2. by rewrite <- last_reverse.
Qed.

Section StoredText.
Context {pyobj : Type} (py_str : pyobj → string)
  (get_tool_call : string → pyobj → outcome (plan pyobj))
  (finbot : string → gmap string pyobj → outcome pyobj)
  (load_data : outcome pyobj) (empty_dict : pyobj)
  (cached_data : option pyobj) (uuid4 : nat → uuid)
  (chart_exists : string → bool) (os_rename : string → string → result unit).

Local Abbreviation chatbot_response_ :=
  (chatbot_response py_str get_tool_call finbot).
Local Abbreviation bot_turn_ :=
  (bot_turn py_str get_tool_call finbot load_data empty_dict cached_data
     uuid4 chart_exists os_rename).
Local Abbreviation home_post_ :=
  (home_post py_str get_tool_call finbot load_data empty_dict cached_data
     uuid4 chart_exists os_rename).
Local Abbreviation home_ :=
  (home py_str get_tool_call finbot load_data empty_dict cached_data
     uuid4 chart_exists os_rename).
Local Abbreviation data_ := (current_data load_data empty_dict cached_data).

(** Whatever [chatbot_response] returns went through the renderer. *)
Lemma chatbot_response_rendered (user_query : string) (data : pyobj)
    (r : string) :
  chatbot_response py_str get_tool_call finbot user_query data = Ok r →
  ∃ raw, r = markdown_to_html raw.
Proof.
  unfold chatbot_response.
  destruct (get_tool_call user_query data) as [[|name arguments|]|e];
    try discriminate.
  - intros [= <-]. eauto.
  - destruct name as [|name| |]; try discriminate; try (intros [= <-]; eauto).
    case_bool_decide; [intros [= <-]; eauto|].
    destruct (get_tool_belt finbot !! name) as [fn|]; [|intros [= <-]; eauto].
    destruct (fn _); intros [= <-]; eauto.
  - intros [= <-]. eauto.
Qed.

(** What a tool of the tool belt returns is rendered. *)
Lemma chatbot_response_tool (user_query : string) (data : pyobj)
    (name : string) (arguments : option (gmap string pyobj)) (v : pyobj) :
  get_tool_call user_query data = Returns (PlanDict (KStr name) arguments) →
  name ∈ tool_names →
  finbot name (call_arguments arguments data) = Returns v →
  chatbot_response_ user_query data = Ok (markdown_to_html (py_str v)).
Proof.
  intros Hp Hin Hv. unfold chatbot_response. rewrite Hp.
  rewrite bool_decide_eq_false_2.
  2:{ intros ->. revert Hin. apply (bool_decide_unpack _). vm_compute. exact I. }
  rewrite get_tool_belt_lookup, bool_decide_eq_true_2 by exact Hin.
  unfold call_arguments in Hv.
  destruct (default ∅ arguments !! "data"); by rewrite Hv.
Qed.

(** The bot's turn on an answer, when a chart it names can be moved:
    the history with the bot message is written to the session file. *)
Lemma bot_turn_stores (cid : string) (l : list json) (q r : string)
    (w : world) :
  chatbot_response_ q data_ = Ok r →
  (∀ a b, os_rename a b = Ok ()) →
  ∃ img t,
    image_ref img
    ∧ chat_dir (bot_turn_ cid (JArr l) q w).2
      = <[chat_file cid :=
            File (Document (JArr (l ++ [bot_message r img]))) t]> (chat_dir w).
Proof.
  intros Hr Hmv.
  unfold bot_turn, try_except, bind, lift, ret, draw_uuid, save_chat_history,
    write_json, py_append.
  rewrite Hr. destruct (negb _ && _); [rewrite Hmv|]; cbn [fst snd chat_dir];
    eexists _, _; (split; [|reflexivity]); unfold image_ref; eauto.
Qed.

(** The POST branch on a request that comes with a session. *)
Lemma home_post_session (req : request) (w : world) (cid : string) :
  cookie w = Some cid → cid ≠ EmptyString →
  post_query req ≠ EmptyString →
  home_post_ req w
  = (let* chat_history :=
       lift (py_append (user_message (post_query req))
               (history_in (chat_dir w) cid)) in
     let* _ := bot_turn_ cid chat_history (post_query req) in
     ret ()) w.
Proof.
  intros Hc Hne Hq. unfold home_post. unfold bind at 1, session_get.
  rewrite Hc. unfold falsy. rewrite bool_decide_eq_false_2 by exact Hne.
  unfold bind at 1, ret. cbn [default from_option id].
  unfold bind at 1. rewrite load_chat_history_eq.
  fold (post_query req). by rewrite bool_decide_eq_false_2 by exact Hq.
Qed.

(** C7. The renderer returns an HTML-safe text for every raw text: a
    sequence of tags of the renderer, entities and characters other than
    the angle brackets and the ampersand.  Every character of the raw text
    that needs escaping is there as its entity, in order; in a third-level
    heading line, which the first pass escapes once more together with the
    tags it writes around it, each of these entities has become an
    ampersand entity and the four brackets of the two tags are entities
    too.  Whatever [chatbot_response] returns is such a rendered text.
    And a POST whose query a tool of the tool belt answers persists, after
    the messages the session file held, the query as typed, stripped of
    the white space at its two ends and of nothing else, for the user, and
    the rendering of the tool's answer for the bot. *)
Theorem stored_texts (req : request) (w : world) (cid name : string)
    (arguments : option (gmap string pyobj)) (v : pyobj) (old : list json)
    (m : Z) :
  is_post req = true →
  cookie w = Some cid → cid ≠ EmptyString →
  chat_dir w !! chat_file cid = Some (File (Document (JArr old)) m) →
  (∀ k, chat_file (uuid_str (uuid4 k)) ≠ chat_file cid) →
  post_query req ≠ EmptyString →
  get_tool_call (post_query req) data_
  = Returns (PlanDict (KStr name) arguments) →
  name ∈ tool_names →
  finbot name (call_arguments arguments data_) = Returns v →
  (∀ a b, os_rename a b = Ok ()) →
  (∀ raw, ∃ toks,
     html_safe (str (markdown_to_html raw)) toks
     ∧ reescaped (raw_entities raw) (ents toks)
     ∧ (re_search (heading_re "###") (normalize_newlines (escape raw)) = None
        → ents toks = raw_entities raw))
  ∧ (∀ q d r, chatbot_response_ q d = Ok r → ∃ raw, r = markdown_to_html raw)
  ∧ stripped_of (str (default EmptyString (form_user_query req)))
      (str (post_query req))
  ∧ ∃ img m',
      image_ref img
      ∧ chat_dir (home_ req w).2 !! chat_file cid
        = Some (File (Document
                        (JArr (old ++ [user_message (post_query req);
                                       bot_message
                                         (markdown_to_html (py_str v)) img])))
                  m').
Proof.
  intros Hpost Hc Hne Hf Hfresh Hq Hp Hin Hv Hmv.
  split; [exact markdown_to_html_safe|].
  split; [intros q d r; apply chatbot_response_rendered|].
  split; [apply strip_spec|].
  pose proof (chatbot_response_tool _ _ _ _ _ Hp Hin Hv) as Hr.
  assert (Hh : history_in (chat_dir w) cid = JArr old).
  { unfold history_in. by rewrite Hf. }
  destruct (bot_turn_stores cid (old ++ [user_message (post_query req)])
              (post_query req) _ w Hr Hmv) as (img & t & Hi & Hd).
  assert (Hwp : chat_dir (when (is_post req) (home_post_ req) w).2
                = <[chat_file cid :=
                      File (Document
                              (JArr (old ++ [user_message (post_query req);
                                             bot_message
                                               (markdown_to_html (py_str v))
                                               img]))) t]> (chat_dir w)).
  { rewrite Hpost. unfold when.
    rewrite (home_post_session req w cid Hc Hne Hq), Hh.
    unfold bind at 1, lift at 1. cbn [py_append]. unfold bind, ret.
    rewrite <- app_assoc in Hd. cbn [app] in Hd. rewrite <- Hd.
    by destruct (bot_turn_ cid _ (post_query req) w) as [[?|?] ?]. }
  exists img, t. split; [exact Hi|].
  destruct (home_dir py_str get_tool_call finbot load_data empty_dict
              cached_data uuid4 chart_exists os_rename req w)
    as [Hd'|(k & t' & Hd')]; cbn zeta in Hd'; rewrite Hd', Hwp.
  - apply lookup_insert_eq.
  - rewrite lookup_insert_ne by apply Hfresh. apply lookup_insert_eq.
Qed.

End StoredText.

(** ** Instances *)

Lemma demo_uuid_fresh (k : nat) :
  chat_file (uuid_str (demo_uuid k)) ≠ "s.json".
Proof. vm_compute. discriminate. Qed.

Lemma one_session_file :
  chat_dir one_session !! "s.json" = Some (File (Document (JArr [])) 0).
Proof. vm_compute. reflexivity. Qed.

Example demo_home_persists :
  chat_dir (demo_home post_hi one_session).2 !! "s.json"
  = Some (File (Document (JArr [user_message "hi"; bot_message not_sure JNull]))
            1).
Proof. vm_compute. reflexivity. Qed.

(** Against C6 as stated: the user message a POST persists has no
    [image] member. *)
Lemma user_message_has_no_image :
  ∃ msgs t,
    chat_dir (demo_home post_hi one_session).2 !! "s.json"
    = Some (File (Document (JArr msgs)) t)
    ∧ ¬ Forall (fun msg => "role" ∈ keys msg ∧ "text" ∈ keys msg
                           ∧ "image" ∈ keys msg) msgs.
Proof.
  exists [user_message "hi"; bot_message not_sure JNull], 1%Z.
  split; [exact demo_home_persists|].
  intros H. apply Forall_cons in H as [(_ & _ & H) _].
  cbn in H. rewrite !elem_of_cons in H.
  destruct H as [H|[H|H]]; [discriminate..|]. by apply elem_of_nil in H.
Qed.

Lemma chatbot_response_reports_errors_witness :
  chatbot_response (fun s : string => s) demo_plan demo_finbot "boom" "d"
  = Ok (markdown_to_html ("**Error planning tool call:** " +:+ "planner down"))
  ∧ chatbot_response (fun s : string => s) demo_plan demo_finbot "balance" "d"
    = Ok (markdown_to_html
            ("An error occurred while running the tool: " +:+ "no data"))
  ∧ chatbot_response (fun s : string => s) demo_plan demo_finbot "what" "d"
    = Ok not_sure.
Proof.
  destruct (chatbot_response_reports_errors (fun s : string => s) demo_plan
              demo_finbot "boom" "d") as (H1 & _ & _ & _).
  destruct (chatbot_response_reports_errors (fun s : string => s) demo_plan
              demo_finbot "balance" "d") as (_ & H2 & _ & _).
  destruct (chatbot_response_reports_errors (fun s : string => s) demo_plan
              demo_finbot "what" "d") as (_ & _ & H3 & _).
  split; [|split].
  - apply H1. reflexivity.
  - apply (H2 "get_balance" None "no data").
    + reflexivity.
    + apply (bool_decide_unpack _). vm_compute. exact I.
    + reflexivity.
  - apply (H3 "fly" None).
    + reflexivity.
    + discriminate.
    + apply (bool_decide_unpack _). vm_compute. exact I.
Defined.

Lemma home_only_appends_witness :
  ∃ new m',
    chat_dir (demo_home post_hi one_session).2 !! "s.json"
    = Some (File (Document (JArr new)) m')
    ∧ [] `prefix_of` new
    ∧ (new = []
       ∨ is_post post_hi = true
         ∧ ∃ r img,
             new = [] ++ [user_message (post_query post_hi); bot_message r img]).
Proof.
  exact (home_only_appends (fun s : string => s) demo_plan demo_finbot
           (Returns "data") "{}" None demo_uuid (fun _ => false)
           (fun _ _ => Ok ()) post_hi one_session "s.json" [] 0
           one_session_file demo_uuid_fresh).
Defined.

Lemma appended_messages_members_witness :
  ∃ added m',
    chat_dir (demo_home post_hi one_session).2 !! "s.json"
    = Some (File (Document (JArr ([] ++ added))) m')
    ∧ Forall (fun msg =>
                (keys msg = ["role"; "text"]
                 ∧ member "role" msg = Some (JStr "user")
                 ∧ ∃ text, member "text" msg = Some (JStr text))
                ∨ (keys msg = ["role"; "text"; "image"]
                   ∧ member "role" msg = Some (JStr "bot")
                   ∧ (∃ text, member "text" msg = Some (JStr text))
                   ∧ ∃ img, member "image" msg = Some img ∧ image_ref img))
             added.
Proof.
  exact (appended_messages_members (fun s : string => s) demo_plan demo_finbot
           (Returns "data") "{}" None demo_uuid (fun _ => false)
           (fun _ _ => Ok ()) post_hi one_session "s.json" [] 0
           one_session_file demo_uuid_fresh).
Defined.

Example report_home_persists :
  chat_dir (report_home post_hi one_session).2 !! "s.json"
  = Some (File (Document
                  (JArr [user_message "hi";
                         bot_message
                           ("&lt;h3&gt;Food &amp;amp; drink&lt;/h3&gt;" +:+ lf
                            +:+ "<b>12</b> &lt; 20") JNull])) 1).
Proof. vm_compute. reflexivity. Qed.

Lemma stored_texts_witness :
  (∀ raw, ∃ toks,
     html_safe (str (markdown_to_html raw)) toks
     ∧ reescaped (raw_entities raw) (ents toks)
     ∧ (re_search (heading_re "###") (normalize_newlines (escape raw)) = None
        → ents toks = raw_entities raw))
  ∧ (∀ q d r,
       chatbot_response (fun s : string => s) report_plan report_finbot q d
       = Ok r → ∃ raw, r = markdown_to_html raw)
  ∧ stripped_of (str (default EmptyString (form_user_query post_hi)))
      (str (post_query post_hi))
  ∧ ∃ img m',
      image_ref img
      ∧ chat_dir (report_home post_hi one_session).2 !! chat_file "s"
        = Some (File (Document
                        (JArr ([] ++ [user_message (post_query post_hi);
                                      bot_message
                                        (markdown_to_html report_text) img])))
                  m').
Proof.
  apply (stored_texts (fun s : string => s) report_plan report_finbot
           (Returns "data") "{}" None demo_uuid (fun _ => false)
           (fun _ _ => Ok ()) post_hi one_session "s" "get_summary" None
           report_text [] 0).
  - reflexivity.
  - reflexivity.
  - discriminate.
  - vm_compute. reflexivity.
  - intros k. vm_compute. discriminate.
  - vm_compute. discriminate.
  - reflexivity.
  - apply (bool_decide_unpack _). vm_compute. exact I.
  - reflexivity.
  - reflexivity.
Defined.

(** The renderer at work on a raw text with markup characters. *)
Example markdown_to_html_escapes :
  markdown_to_html "<b>**2 > 1** & *so*</b>"
  = "&lt;b&gt;<b>2 &gt; 1</b> &amp; <i>so</i>&lt;/b&gt;".
Proof. vm_compute. reflexivity. Qed.

Example strip_post_hi : post_query post_hi = "hi".
Proof. vm_compute. reflexivity. Qed.

(** * Further properties

    What the code does beyond the claims above: the frames of the store,
    the order of the listing, the renderer on plain text and headings, the
    errors that escape, the GET side of the home route, the media route
    and the chat titles. *)

(** ** Pinning and deleting *)

Lemma pin_chat_cases (chat_id : string) (w : world) :
  (∃ l, pinned w = Ok (JArr l)
        ∧ pin_chat chat_id w
          = (Ok (Redirect "home" [("chat_id", chat_id)]),
             (write_json PINNED_CHATS_FILE (JArr (toggle chat_id l)) w).2))
  ∨ ((∀ l, pinned w ≠ Ok (JArr l))
     ∧ ∃ e, pin_chat chat_id w = (Raise e, w)
            ∧ e ∈ [UnicodeDecodeError; TypeError; AttributeError]).
Proof.
  destruct (pinned w) as [v|e] eqn:Hp.
  - destruct v as [| b | n | s | l | members];
      try (right; split; [discriminate|]);
      [..|left; exists l; split; [reflexivity | by apply pin_chat_eq]|].
    all: unfold pinned in Hp; rewrite load_pinned_chats_eq in Hp;
      cbn [fst] in Hp; unfold pin_chat, bind; rewrite load_pinned_chats_eq, Hp;
      unfold lift; cbn [py_in].
    1-3: exists TypeError; split; [reflexivity|]; rewrite !elem_of_cons; auto.
    + exists AttributeError. split; [|rewrite !elem_of_cons; auto].
      by destruct (is_substring _ _).
    + exists AttributeError. split; [|rewrite !elem_of_cons; auto].
      by case_bool_decide.
  - right. split; [discriminate|]. exists e.
    unfold pinned in Hp. rewrite load_pinned_chats_eq in Hp. cbn [fst] in Hp.
    unfold pin_chat, bind. rewrite load_pinned_chats_eq, Hp. split; [reflexivity|].
    destruct (chat_dir w !! PINNED_CHATS_FILE) as [[[| |v] m]|]; try discriminate.
    injection Hp as <-. rewrite !elem_of_cons; auto.
Qed.

(** X3. [pin_chat] completes, with the redirect to the chat, when the
    pinned file loads as a list; in every other case (bytes that do not
    decode, or a document that is not a list) it raises and leaves the
    store as it was. *)
Theorem pin_chat_needs_a_list (chat_id : string) (w : world) :
  (∀ l, pinned w = Ok (JArr l) →
        (pin_chat chat_id w).1 = Ok (Redirect "home" [("chat_id", chat_id)]))
  ∧ ((∀ l, pinned w ≠ Ok (JArr l)) →
     ∃ e, pin_chat chat_id w = (Raise e, w)
          ∧ e ∈ [UnicodeDecodeError; TypeError; AttributeError]).
Proof.
  split.
  - intros l Hl. by rewrite (pin_chat_eq w chat_id l Hl).
  - intros Hn. destruct (pin_chat_cases chat_id w) as [(l & Hl & _)|[_ H]];
      [by destruct (Hn l) | exact H].
Qed.

(** X4. [pin_chat] touches nothing but the pinned file: the session
    entry, the number of UUIDs drawn and every other file are as before,
    whether it completes or raises. *)
Theorem pin_chat_frame (chat_id : string) (w : world) :
  let w' := (pin_chat chat_id w).2 in
  cookie w' = cookie w
  ∧ draws w' = draws w
  ∧ ∀ f, f ≠ PINNED_CHATS_FILE → chat_dir w' !! f = chat_dir w !! f.
Proof.
  intros w'. unfold w'. clear w'.
  destruct (pin_chat_cases chat_id w) as [(l & _ & ->)|[_ (e & -> & _)]];
    cbn [snd]; [|done].
  unfold write_json. cbn [snd cookie draws chat_dir].
  split; [reflexivity|]. split; [reflexivity|].
  intros f Hf. by rewrite lookup_insert_ne.
Qed.

(** X5. Two calls of [pin_chat] on one identifier.  If it was not
    pinned, the pinned list is back to what it was; if it was pinned, in
    a list without duplicates, it has moved to the front and the others
    keep their order. *)
Theorem pin_then_unpin (chat_id : string) (w : world) (l : list json) :
  pinned w = Ok (JArr l) →
  let twice := (pin_chat chat_id (pin_chat chat_id w).2).2 in
  (JStr chat_id ∉ l → pinned twice = Ok (JArr l))
  ∧ (JStr chat_id ∈ l → NoDup l →
       pinned twice = Ok (JArr (JStr chat_id :: remove_first chat_id l))).
Proof.
  intros Hl twice. unfold twice. clear twice.
  rewrite (pin_chat_eq w chat_id l Hl). cbn [snd].
  rewrite (pin_chat_eq _ chat_id (toggle chat_id l)) by apply pinned_after_write.
  cbn [snd]. rewrite pinned_after_write. split.
  - intros Hn. apply existsb_is_str_false in Hn. unfold toggle at 2. rewrite Hn.
    unfold toggle. cbn [existsb is_str]. rewrite bool_decide_eq_true_2 by done.
    cbn [orb remove_first is_str]. by rewrite bool_decide_eq_true_2 by done.
  - intros Hin Hnd. pose proof (remove_first_NoDup chat_id l Hnd) as [_ Hout].
    apply existsb_is_str in Hin. unfold toggle at 2. rewrite Hin.
    apply existsb_is_str_false in Hout. unfold toggle. by rewrite Hout.
Qed.

Lemma delete_chat_eq (chat_id : string) (w : world) :
  delete_chat chat_id w
  = (let w0 := without_file (chat_file chat_id) w in
     match pinned w0 with
     | Raise e => (Raise e, w0)
     | Ok v =>
         match py_in chat_id v with
         | Raise e => (Raise e, w0)
         | Ok false => answer_delete chat_id w0
         | Ok true =>
             match py_remove chat_id v with
             | Raise e => (Raise e, w0)
             | Ok v' =>
                 answer_delete chat_id (write_json PINNED_CHATS_FILE v' w0).2
             end
         end
     end).
Proof.
  cbn zeta. unfold delete_chat.
  transitivity (bind (bind (path_exists (chat_file chat_id))
                   (fun there => when there (os_remove (chat_file chat_id))))
      (fun _ =>
         let* pinned_ids := load_pinned_chats in
         let* pinned := lift (py_in chat_id pinned_ids) in
         let* _ :=
           (if pinned
            then let* pinned_ids := lift (py_remove chat_id pinned_ids) in
                 save_pinned_chats pinned_ids
            else ret ()) in
         let* current := session_get in
         if bool_decide (current = Some chat_id)
         then let* _ := session_set None in
              ret (Redirect "home" [("new_chat", "1")])
         else ret (Redirect "home" [])) w).
  { unfold bind. destruct (path_exists (chat_file chat_id) w) as [[]];
      [|reflexivity]. destruct (when _ _ _) as [[]]; reflexivity. }
  assert (Hstep : ∀ k : unit → M response,
             bind (bind (path_exists (chat_file chat_id))
                     (fun there => when there (os_remove (chat_file chat_id))))
                  k w = k () (without_file (chat_file chat_id) w)).
  { intros k. unfold bind, path_exists, when, os_remove, ret, without_file.
    destruct (chat_dir w !! chat_file chat_id) eqn:E; simpl; rewrite ?E;
      reflexivity. }
  rewrite Hstep. set (w0 := without_file (chat_file chat_id) w).
  unfold pinned, bind at 1. destruct (load_pinned_chats w0) as [[v|e] w1] eqn:Hload.
  2:{ pose proof (load_pinned_chats_world w0) as Hw. rewrite Hload in Hw.
      cbn in Hw. by subst w1. }
  pose proof (load_pinned_chats_world w0) as Hw. rewrite Hload in Hw.
  cbn in Hw. subst w1. cbn [fst].
  unfold bind at 1, lift at 1. destruct (py_in chat_id v) as [[|]|e];
    [| |reflexivity].
  - unfold bind at 1. unfold bind at 1, lift at 1.
    destruct (py_remove chat_id v) as [v'|e]; [|reflexivity].
    unfold save_pinned_chats. unfold bind at 1.
    cbn [write_json]. unfold answer_delete, bind, session_get, ret, session_set.
    unfold write_json. cbn [snd cookie]. by case_bool_decide.
  - unfold answer_delete, bind, session_get, ret, session_set.
    cbn. by case_bool_decide.
Qed.

Lemma without_file_lookup (name f : string) (w : world) :
  chat_dir (without_file name w) !! f
  = if bool_decide (f = name) then None else chat_dir w !! f.
Proof.
  unfold without_file. destruct (chat_dir w !! name) eqn:E; cbn.
  - case_bool_decide as Hf; [subst; apply lookup_delete_eq|].
    by apply lookup_delete_ne.
  - case_bool_decide as Hf; [by subst|reflexivity].
Qed.

Lemma without_file_rest (name : string) (w : world) :
  cookie (without_file name w) = cookie w
  ∧ draws (without_file name w) = draws w
  ∧ clock (without_file name w) = clock w.
Proof. unfold without_file. by destruct (chat_dir w !! name). Qed.

Lemma answer_delete_world (chat_id : string) (w : world) :
  chat_dir (answer_delete chat_id w).2 = chat_dir w
  ∧ draws (answer_delete chat_id w).2 = draws w.
Proof. unfold answer_delete. by case_bool_decide. Qed.

(** A membership test that succeeds needs a pinned file. *)
Lemma py_in_true_pinned_file (chat_id : string) (w : world) (v : json) :
  pinned w = Ok v → py_in chat_id v = Ok true →
  is_Some (chat_dir w !! PINNED_CHATS_FILE).
Proof.
  unfold pinned. rewrite load_pinned_chats_eq. cbn [fst].
  destruct (chat_dir w !! PINNED_CHATS_FILE) as [f|]; [by eexists|].
  intros [= <-]. cbn. discriminate.
Qed.

Lemma delete_chat_dir (chat_id : string) (w : world) :
  let w' := (delete_chat chat_id w).2 in
  chat_dir w' !! chat_file chat_id = None
  ∧ draws w' = draws w
  ∧ ∀ f, f ≠ chat_file chat_id → f ≠ PINNED_CHATS_FILE →
         chat_dir w' !! f = chat_dir w !! f.
Proof.
  intros w'. unfold w'. clear w'. rewrite delete_chat_eq. cbn zeta.
  set (w0 := without_file (chat_file chat_id) w).
  assert (H0 : chat_dir w0 !! chat_file chat_id = None
               ∧ draws w0 = draws w
               ∧ ∀ f, f ≠ chat_file chat_id → f ≠ PINNED_CHATS_FILE →
                      chat_dir w0 !! f = chat_dir w !! f).
  { unfold w0. split; [|split].
    - rewrite without_file_lookup. by rewrite bool_decide_eq_true_2.
    - apply without_file_rest.
    - intros f Hf _. rewrite without_file_lookup.
      by rewrite bool_decide_eq_false_2. }
  destruct (pinned w0) as [v|e] eqn:Hp; [|exact H0].
  destruct (py_in chat_id v) as [[|]|e] eqn:Hin; [| |exact H0].
  - destruct (py_remove chat_id v) as [v'|e]; [|exact H0].
    destruct (py_in_true_pinned_file chat_id w0 v Hp Hin) as [pf Hpf].
    assert (Hne : chat_file chat_id ≠ PINNED_CHATS_FILE).
    { intros Heq. destruct H0 as [H0 _]. rewrite Heq in H0. congruence. }
    destruct (answer_delete_world chat_id
                (write_json PINNED_CHATS_FILE v' w0).2) as [-> ->].
    unfold write_json. cbn [snd chat_dir draws].
    destruct H0 as (Hgone & Hdraws & Hframe).
    split; [by rewrite lookup_insert_ne|]. split; [exact Hdraws|].
    intros f Hf Hfp. rewrite lookup_insert_ne by done. by apply Hframe.
  - by destruct (answer_delete_world chat_id w0) as [-> ->].
Qed.

(** X6. After [delete_chat], whether it completes or raises, the session
    file of the identifier is gone and every file other than that one and
    the pinned file is as before; no UUID is drawn. *)
Theorem delete_chat_files (chat_id : string) (w : world) :
  let w' := (delete_chat chat_id w).2 in
  chat_dir w' !! chat_file chat_id = None
  ∧ draws w' = draws w
  ∧ ∀ f, f ≠ chat_file chat_id → f ≠ PINNED_CHATS_FILE →
         chat_dir w' !! f = chat_dir w !! f.
Proof. apply delete_chat_dir. Qed.

(** X7. When the pinned file loads as a list, [delete_chat] completes.
    It drops the session entry and redirects to a new chat exactly when
    the session was on the deleted chat, and otherwise leaves the entry
    and redirects home; the session is never left on the deleted chat. *)
Theorem delete_chat_session (chat_id : string) (w : world) (l : list json) :
  pinned w = Ok (JArr l) →
  let out := delete_chat chat_id w in
  out.1 = Ok (Redirect "home"
                (if bool_decide (cookie w = Some chat_id)
                 then [("new_chat", "1")] else []))
  ∧ cookie out.2
    = (if bool_decide (cookie w = Some chat_id) then None else cookie w)
  ∧ cookie out.2 ≠ Some chat_id.
Proof.
  intros Hl out. unfold out. clear out. rewrite delete_chat_eq. cbn zeta.
  set (w0 := without_file (chat_file chat_id) w).
  assert (Hc : cookie w0 = cookie w) by apply without_file_rest.
  assert (Hp0 : ∃ l0, pinned w0 = Ok (JArr l0)).
  { unfold pinned in *. rewrite load_pinned_chats_eq in *. cbn [fst] in *.
    unfold w0. rewrite without_file_lookup. case_bool_decide; eauto. }
  destruct Hp0 as [l0 ->]. cbn [py_in py_remove].
  assert (Hans : ∀ w1, cookie w1 = cookie w →
    (answer_delete chat_id w1).1
    = Ok (Redirect "home"
            (if bool_decide (cookie w = Some chat_id)
             then [("new_chat", "1")] else []))
    ∧ cookie (answer_delete chat_id w1).2
      = (if bool_decide (cookie w = Some chat_id) then None else cookie w)
    ∧ cookie (answer_delete chat_id w1).2 ≠ Some chat_id).
  { intros w1 H1. unfold answer_delete. rewrite H1.
    case_bool_decide; cbn; [done|]. by rewrite H1. }
  destruct (existsb (is_str chat_id) l0) eqn:Ex; by apply Hans.
Qed.

(** X8. [pin_chat] and [delete_chat] keep the pinned list free of
    duplicates. *)
Theorem handlers_keep_pinned_set (chat_id : string) (w : world)
    (l : list json) :
  pinned w = Ok (JArr l) → NoDup l →
  (∃ l', pinned (pin_chat chat_id w).2 = Ok (JArr l') ∧ NoDup l')
  ∧ (∃ l', pinned (delete_chat chat_id w).2 = Ok (JArr l') ∧ NoDup l').
Proof.
  intros Hl Hnd. split; [by apply (pin_chat_keeps_set w chat_id l)|].
  destruct (decide (chat_file chat_id = PINNED_CHATS_FILE)) as [Heq|Hne].
  - exists []. split; [|constructor].
    pose proof (delete_chat_dir chat_id w) as [Hgone _]. cbn zeta in Hgone.
    unfold pinned. rewrite load_pinned_chats_eq. cbn [fst].
    by rewrite <- Heq, Hgone.
  - exists (remove_first chat_id l).
    pose proof (delete_chat_spec w chat_id l Hne Hl Hnd) as (_ & _ & Hp & _).
    split; [exact Hp | by apply remove_first_NoDup].
Qed.

(** ** The order of the listing, and the listing after a pin or a
       deletion *)

Lemma insert_desc_sorted (x : Z * string) (l : list (Z * string)) :
  StronglySorted by_key_desc l → StronglySorted by_key_desc (insert_desc x l).
Proof.
  induction 1 as [|y l Hl IH Hy]; simpl.
  - repeat constructor.
  - destruct (x.1 <? y.1)%Z eqn:E.
    + apply Z.ltb_lt in E. constructor; [exact IH|].
      rewrite insert_desc_Permutation. constructor; [|exact Hy].
      unfold by_key_desc. lia.
    + apply Z.ltb_ge in E. constructor; [by constructor|].
      constructor; [exact E|].
      eapply Forall_impl; [exact Hy|]. unfold by_key_desc. intros z Hz.
      cbn beta in *. lia.
Qed.

Lemma sort_desc_sorted (l : list (Z * string)) :
  StronglySorted by_key_desc (sort_desc l).
Proof.
  unfold sort_desc. induction l as [|x l IH]; simpl; [constructor|].
  by apply insert_desc_sorted.
Qed.

Lemma mapM_getmtime_eq (w : world) (l : list string) :
  Forall (fun cid => is_Some (chat_dir w !! (cid +:+ ".json"))) l →
  mapM (fun cid => os_getmtime (cid +:+ ".json")) l w
  = (Ok (mtime_of w <$> l), w).
Proof.
  induction 1 as [|cid l [f Hf] _ IH]; simpl; [reflexivity|].
  unfold bind, os_getmtime, ret in *. unfold mtime_of at 1.
  by rewrite Hf, IH.
Qed.

Lemma sorted_keys_newer (w : world) (l : list (Z * string)) :
  Forall (fun p => p.1 = mtime_of w p.2) l →
  StronglySorted by_key_desc l →
  StronglySorted (newer w) l.*2.
Proof.
  intros Hall. induction 1 as [|p l Hl IH Hp]; simpl; [constructor|].
  apply Forall_cons in Hall as [Hk Hall].
  constructor; [by apply IH|].
  apply Forall_fmap, Forall_forall. intros q Hq.
  rewrite Forall_forall in Hp, Hall. specialize (Hp q Hq).
  specialize (Hall q Hq). unfold by_key_desc in Hp. unfold newer. cbn.
  rewrite <- Hk, <- Hall. exact Hp.
Qed.

(** The list the handler returns, with the order of its second part. *)
Lemma list_chat_sessions_sorted (w : world) (ids : list string) :
  pinned w = Ok (JArr (JStr <$> ids)) →
  ∃ unpinned,
    list_chat_sessions w
    = (Ok (filter (is_session w) ids ++ unpinned), w)
    ∧ (∀ cid, cid ∈ unpinned ↔ is_session w cid ∧ cid ∉ ids)
    ∧ StronglySorted (newer w) unpinned.
Proof.
  unfold pinned. rewrite load_pinned_chats_eq. cbn [fst]. intros Hl.
  set (unp := filter (fun cid => existsb (is_str cid) (JStr <$> ids) = false)
                (sessions_of w)).
  assert (Hkeys : mapM (fun cid => os_getmtime (cid +:+ ".json")) unp w
                  = (Ok (mtime_of w <$> unp), w)).
  { apply mapM_getmtime_eq, Forall_forall. intros cid Hin.
    apply list_elem_of_filter in Hin as [_ Hin].
    by apply elem_of_sessions_of in Hin as [Hf _]. }
  exists (sort_desc (zip (mtime_of w <$> unp) unp)).*2. split; [|split].
  - unfold list_chat_sessions, bind at 1. rewrite load_pinned_chats_eq, Hl.
    unfold bind at 1, lift at 1, py_set, py_iter.
    rewrite forallb_hashable_ids.
    unfold bind at 1, os_listdir.
    unfold bind at 1. rewrite load_pinned_chats_eq, Hl.
    unfold bind at 1, lift, py_iter.
    fold (sessions_of w). fold unp.
    unfold bind. rewrite Hkeys. unfold ret.
    rewrite omap_session_name. do 3 f_equal.
    apply list_filter_iff. intros cid. apply elem_of_sessions_of.
  - intros cid. rewrite sort_desc_Permutation.
    rewrite snd_zip by (rewrite length_fmap; lia).
    unfold unp. rewrite list_elem_of_filter, existsb_is_str_ids.
    rewrite elem_of_sessions_of. tauto.
  - apply sorted_keys_newer; [|apply sort_desc_sorted].
    rewrite sort_desc_Permutation, zip_with_fmap_l, zip_with_diag.
    by apply Forall_fmap, Forall_forall.
Qed.

(** X9. In the list [list_chat_sessions] returns, the sessions that are
    not pinned follow the pinned ones, the most recently modified
    first. *)
Theorem unpinned_sessions_newest_first (w : world) (ids : list string) :
  pinned w = Ok (JArr (JStr <$> ids)) →
  ∃ unpinned,
    (list_chat_sessions w).1 = Ok (filter (is_session w) ids ++ unpinned)
    ∧ (∀ cid, cid ∈ unpinned ↔ is_session w cid ∧ cid ∉ ids)
    ∧ StronglySorted (newer w) unpinned.
Proof.
  intros Hl. destruct (list_chat_sessions_sorted w ids Hl) as (unp & -> & H).
  by exists unp.
Qed.

Lemma listed_is_session (w : world) (ids l : list string) :
  pinned w = Ok (JArr (JStr <$> ids)) →
  (list_chat_sessions w).1 = Ok l →
  ∀ cid, cid ∈ l → is_session w cid.
Proof.
  intros Hl. destruct (list_chat_sessions_sorted w ids Hl) as (unp & -> & Hu & _).
  intros [= <-] cid. rewrite elem_of_app, list_elem_of_filter, Hu. tauto.
Qed.

Lemma pinned_write_json (w : world) (v : json) :
  pinned (write_json PINNED_CHATS_FILE v w).2 = Ok v.
Proof. apply pinned_after_write. Qed.

Lemma is_session_write_pinned (w : world) (v : json) (cid : string) :
  is_session (write_json PINNED_CHATS_FILE v w).2 cid ↔ is_session w cid.
Proof.
  unfold is_session, write_json. cbn [snd chat_dir].
  split; intros [Hf Hne]; (split; [|exact Hne]).
  - rewrite lookup_insert_ne in Hf; [exact Hf|].
    intros Heq. apply Hne. symmetry.
    by apply (string_app_inj_r _ _ ".json").
  - rewrite lookup_insert_ne; [exact Hf|].
    intros Heq. apply Hne. symmetry.
    by apply (string_app_inj_r _ _ ".json").
Qed.

(** X10. After [pin_chat] on a session that was not pinned,
    [list_chat_sessions] lists that session first. *)
Theorem pinned_session_listed_first (chat_id : string) (w : world)
    (ids : list string) :
  pinned w = Ok (JArr (JStr <$> ids)) →
  chat_id ∉ ids →
  is_session w chat_id →
  ∃ others,
    (list_chat_sessions (pin_chat chat_id w).2).1 = Ok (chat_id :: others).
Proof.
  intros Hl Hout Hs. rewrite (pin_chat_eq w chat_id _ Hl). cbn [snd].
  assert (Ht : toggle chat_id (JStr <$> ids) = JStr <$> (chat_id :: ids)).
  { unfold toggle. by rewrite (proj2 (existsb_is_str_ids chat_id ids) Hout). }
  rewrite Ht. set (w' := (write_json _ _ w).2).
  destruct (list_chat_sessions_sorted w' (chat_id :: ids)) as (unp & -> & _).
  { apply pinned_after_write. }
  rewrite filter_cons_True by by apply is_session_write_pinned.
  by eexists.
Qed.

Lemma remove_first_ids (x : string) (ids : list string) :
  ∃ ids', remove_first x (JStr <$> ids) = JStr <$> ids'.
Proof.
  induction ids as [|y ids [ids' IH]]; [by exists []|].
  cbn [fmap list_fmap remove_first]. destruct (is_str x (JStr y)).
  - by exists ids.
  - exists (y :: ids'). cbn. f_equal. exact IH.
Qed.

Lemma pinned_answer_delete (chat_id : string) (w : world) :
  pinned (answer_delete chat_id w).2 = pinned w.
Proof.
  unfold answer_delete. case_bool_decide; [|reflexivity].
  apply pinned_session_set.
Qed.

Lemma delete_chat_pinned (chat_id : string) (w : world) (l : list json) :
  pinned w = Ok (JArr l) →
  pinned (delete_chat chat_id w).2
  = Ok (JArr (if bool_decide (chat_file chat_id = PINNED_CHATS_FILE)
              then [] else remove_first chat_id l)).
Proof.
  intros Hl. rewrite delete_chat_eq. cbn zeta.
  set (w0 := without_file (chat_file chat_id) w).
  assert (Hp0 : pinned w0
                = Ok (JArr (if bool_decide (chat_file chat_id = PINNED_CHATS_FILE)
                            then [] else l))).
  { unfold pinned in *. rewrite load_pinned_chats_eq in *. cbn [fst] in *.
    unfold w0. rewrite without_file_lookup.
    case_bool_decide as E1; case_bool_decide as E2; congruence. }
  rewrite Hp0. cbn [py_in py_remove].
  case_bool_decide as Heq.
  - cbn. by rewrite pinned_answer_delete.
  - destruct (existsb (is_str chat_id) l) eqn:Ex.
    + rewrite pinned_answer_delete. apply pinned_after_write.
    + rewrite pinned_answer_delete, Hp0.
      apply existsb_is_str_false in Ex. by rewrite remove_first_absent.
Qed.

(** X11. After [delete_chat] on an identifier that is its own sanitised
    form, as the UUIDs are, [list_chat_sessions] completes and does not
    list it. *)
Theorem deleted_session_not_listed (chat_id : string) (w : world)
    (ids : list string) :
  pinned w = Ok (JArr (JStr <$> ids)) →
  safe_filename (Some chat_id) = chat_id →
  ∃ l, (list_chat_sessions (delete_chat chat_id w).2).1 = Ok l ∧ chat_id ∉ l.
Proof.
  intros Hl Hsafe. set (w' := (delete_chat chat_id w).2).
  assert (Hp : ∃ ids', pinned w' = Ok (JArr (JStr <$> ids'))).
  { unfold w'. rewrite (delete_chat_pinned chat_id w _ Hl).
    case_bool_decide; [by exists []|].
    destruct (remove_first_ids chat_id ids) as [ids' ->]. by exists ids'. }
  destruct Hp as [ids' Hp].
  destruct (list_chat_sessions_sorted w' ids' Hp) as (unp & Heq & _).
  eexists. split; [by rewrite Heq|].
  intros Hin. apply (listed_is_session w' ids' _ Hp) in Hin; [|by rewrite Heq].
  destruct Hin as [[f Hf] _].
  pose proof (delete_chat_dir chat_id w) as [Hgone _]. cbn zeta in Hgone.
  unfold chat_file in Hgone. rewrite Hsafe in Hgone. fold w' in Hgone.
  congruence.
Qed.

(** X12. When the pinned list holds a list or an object,
    [list_chat_sessions] raises TypeError (the items of a [set] must be
    hashable) and leaves the store as it was. *)
Theorem list_chat_sessions_unhashable (w : world) (l : list json) :
  pinned w = Ok (JArr l) →
  forallb hashable l = false →
  list_chat_sessions w = (Raise TypeError, w).
Proof.
  unfold pinned. rewrite load_pinned_chats_eq. cbn [fst]. intros Hl Hh.
  unfold list_chat_sessions, bind at 1. rewrite load_pinned_chats_eq, Hl.
  unfold bind at 1, lift at 1, py_set, py_iter. by rewrite Hh.
Qed.

(** ** Texts the patterns leave alone *)

Lemma has_pair_cons (a b x y : ascii) (tl : chars) :
  has_pair a b (x :: y :: tl)
  = (is_char a x && is_char b y) || has_pair a b (y :: tl).
Proof. reflexivity. Qed.

Lemma has_pair_true (a b : ascii) (l : chars) :
  has_pair a b l = true ↔ ∃ p q, l = p ++ a :: b :: q.
Proof.
  split.
  - induction l as [|x l IH]; [discriminate|].
    destruct l as [|y l]; [discriminate|]. rewrite has_pair_cons.
    intros [[Hx Hy]%andb_true_iff|H]%orb_true_iff.
    + apply is_char_true in Hx as <-, Hy as <-. by exists [], l.
    + destruct (IH H) as (p & q & ->). by exists (x :: p), q.
  - intros (p & q & ->). induction p as [|x p IH].
    + cbn. by rewrite !is_char_refl.
    + destruct p as [|y p]; cbn [app] in *; rewrite has_pair_cons, IH;
        apply orb_true_r.
Qed.

Lemma has_pair_app (a b : ascii) (p q : chars) :
  has_pair a b (p ++ a :: b :: q) = true.
Proof. apply has_pair_true. by exists p, q. Qed.

Lemma has_pair_within (a b : ascii) (p m q : chars) :
  has_pair a b m = true → has_pair a b (p ++ m ++ q) = true.
Proof.
  intros (p' & q' & ->)%has_pair_true. apply has_pair_true.
  exists (p ++ p'), (q' ++ q). by rewrite <- !app_assoc.
Qed.

(** The text of a match, with what the summaries say of it. *)
Lemma matches_needs (r : regex) (cu cu' : cursor) (caps caps' : captures) :
  matches r cu caps cu' caps' →
  ∃ m, rest cu = m ++ rest cu'
       ∧ (∀ c, needs r c = true → c ∈ m)
       ∧ (∀ c, first_is r c = true → head m = Some c)
       ∧ (∀ c, last_is r c = true → last m = Some c)
       ∧ (∀ a b, needs_pair r a b = true → has_pair a b m = true).
Proof.
  induction 1 as [cu caps|c pv x tl caps Hx|p pv x tl caps Hx|m cu caps H
                 |m cu caps H
                 |r1 r2 cu caps cu1 caps1 cu2 caps2 _ (m1 & E1 & N1 & F1 & L1 & P1)
                    _ (m2 & E2 & N2 & F2 & L2 & P2)
                 |r1 r2 cu caps cu' caps' _ (m & E & N & F & L & P)
                 |r1 r2 cu caps cu' caps' _ (m & E & N & F & L & P)
                 |g r cu caps
                 |g r cu caps cu1 caps1 cu2 caps2 _ (m1 & E1 & _)
                    _ (m2 & E2 & _)
                 |n r cu caps cu' caps' _ (m & E & N & F & L & P)];
    cbn [rest needs first_is last_is needs_pair].
  - exists []. by repeat split.
  - exists [x]. apply is_char_true in Hx as ->.
    repeat split; try done; intros c Hc%is_char_true; subst;
      [apply list_elem_of_singleton|..]; reflexivity.
  - exists [x]. by repeat split.
  - exists []. by repeat split.
  - exists []. by repeat split.
  - exists (m1 ++ m2). rewrite E1, E2, app_assoc. split; [reflexivity|].
    split; [|split; [|split]].
    + intros c [Hc|Hc]%orb_true_iff; apply elem_of_app; auto.
    + intros c Hc. specialize (F1 c Hc). destruct m1; [done|exact F1].
    + intros c Hc. specialize (L2 c Hc). rewrite last_app. by rewrite L2.
    + intros a b [[Hc|Hc]%orb_true_iff|[Ha Hb]%andb_true_iff]%orb_true_iff.
      * apply (has_pair_within a b [] m1 m2). by apply P1.
      * rewrite <- (app_nil_r m2). apply has_pair_within. by apply P2.
      * specialize (L1 a Ha). specialize (F2 b Hb).
        destruct m2 as [|y m2]; [done|]. injection F2 as ->.
        apply last_Some in L1 as [p ->]. rewrite <- app_assoc.
        apply has_pair_app.
  - exists m. split; [exact E|].
    split; [|split; [|split]]; intros; repeat match goal with
      | H : _ && _ = true |- _ => apply andb_true_iff in H as [? ?] end; auto.
  - exists m. split; [exact E|].
    split; [|split; [|split]]; intros; repeat match goal with
      | H : _ && _ = true |- _ => apply andb_true_iff in H as [? ?] end; auto.
  - exists []. by repeat split.
  - exists (m1 ++ m2). rewrite E1, E2, app_assoc. by repeat split.
  - exists m. by repeat split.
Qed.

Lemma unread_no_match (r : regex) (l l' : chars) (pv : option ascii) :
  unread r l → l' `suffix_of` l → match_at r (Cursor pv l') = None.
Proof.
  intros Hu Hs. destruct (match_at r (Cursor pv l')) as [[cu' caps]|] eqn:M;
    [|reflexivity].
  apply match_at_sound, matches_needs in M as (m & E & N & _ & _ & P).
  cbn [rest] in E. destruct Hu as [(c & Hc & Hout)|(a & b & Hab & Hout)].
  - destruct Hout. destruct Hs as [p ->]. rewrite E.
    rewrite !elem_of_app. right. left. by apply N.
  - destruct Hs as [p ->]. rewrite E in Hout.
    rewrite (has_pair_within a b p m (rest cu')) in Hout by by apply P.
    discriminate.
Qed.

Lemma sub_from_unread (r : regex) (t : list titem) (l : chars) :
  unread r l →
  ∀ fuel l' pv, l' `suffix_of` l →
    sub_from r t fuel (Cursor pv l') = l'.
Proof.
  intros Hu. induction fuel as [|fuel IH]; intros l' pv Hs; [reflexivity|].
  cbn [sub_from]. rewrite (unread_no_match r l l' pv Hu Hs). cbn [rest].
  destruct l' as [|c tl]; [reflexivity|]. f_equal. apply IH.
  destruct Hs as [p ->]. exists (p ++ [c]). by rewrite <- app_assoc.
Qed.

(** [re.sub] leaves a text as it is when no match can lie in it. *)
Lemma re_sub_unread (r : regex) (t : list titem) (s : string) :
  unread r (str s) → re_sub r t s = s.
Proof.
  intros Hu. unfold re_sub.
  rewrite (sub_from_unread r t (str s) Hu) by reflexivity. apply pystr_str.
Qed.

Lemma escape_quiet (l : chars) :
  Forall (fun c => syntax_char c = false) l →
  Forall (fun c => quiet_char c = true) (l ≫= escape_char)
  ∧ has_pair "#" "#" (l ≫= escape_char) = false.
Proof.
  induction 1 as [|c l Hc _ [IH1 IH2]]; [by split|].
  change ((c :: l) ≫= escape_char) with (escape_char c ++ (l ≫= escape_char)).
  set (R := l ≫= escape_char) in *.
  unfold syntax_char in Hc.
  repeat (apply orb_false_iff in Hc as [Hc ?]).
  assert (Hpair : ∀ x, is_char "#" x = false → has_pair "#" "#" (x :: R) = false).
  { intros x Hx. destruct R as [|y R]; [reflexivity|].
    by rewrite has_pair_cons, Hx, IH2. }
  assert (Hent : ∀ e, e ∈ entities →
            Forall (fun c => quiet_char c = true) (str e ++ R)
            ∧ has_pair "#" "#" (str e ++ R) = false).
  { intros e He. split.
    - apply Forall_app. split; [|exact IH1].
      revert e He. apply Forall_forall. by repeat constructor.
    - unfold entities in He. rewrite !elem_of_cons in He.
      destruct He as [->|[->|[->|[->|[->|He]]]]];
        [..|by apply elem_of_nil in He];
        cbn [str app]; rewrite !has_pair_cons; cbn [is_char];
        by rewrite Hpair. }
  assert (Hin : ∀ e, bool_decide (e ∈ entities) = true → e ∈ entities).
  { intros e. apply bool_decide_eq_true. }
  unfold escape_char.
  destruct (is_char "&" c); [exact (Hent "&amp;" (Hin "&amp;" eq_refl))|].
  destruct (is_char ">" c); [exact (Hent "&gt;" (Hin "&gt;" eq_refl))|].
  destruct (is_char "<" c) eqn:Hlt; [exact (Hent "&lt;" (Hin "&lt;" eq_refl))|].
  destruct (is_char "'" c); [exact (Hent "&#39;" (Hin "&#39;" eq_refl))|].
  destruct (is_char "034" c); [exact (Hent "&#34;" (Hin "&#34;" eq_refl))|].
  split.
  - constructor; [|exact IH1]. unfold quiet_char.
    by rewrite H2, H1, H0, H, Hlt.
  - by apply Hpair.
Qed.

Lemma quiet_no (c : ascii) (l : chars) :
  quiet_char c = false → Forall (fun x => quiet_char x = true) l → c ∉ l.
Proof.
  intros Hc Hl Hin. rewrite Forall_forall in Hl. specialize (Hl c Hin).
  congruence.
Qed.

Lemma sub_from_with_unread (r : regex) (f : captures → chars)
    (l : chars) :
  unread r l →
  ∀ fuel l' pv, l' `suffix_of` l →
    sub_from_with r f fuel (Cursor pv l') = l'.
Proof.
  intros Hu. induction fuel as [|fuel IH]; intros l' pv Hs; [reflexivity|].
  cbn [sub_from_with]. rewrite (unread_no_match r l l' pv Hu Hs). cbn [rest].
  destruct l' as [|c tl]; [reflexivity|]. f_equal. apply IH.
  destruct Hs as [p ->]. exists (p ++ [c]). by rewrite <- app_assoc.
Qed.

(** And so does the first pass. *)
Lemma re_sub_with_unread (r : regex) (f : captures → chars) (s : string) :
  unread r (str s) → re_sub_with r f s = s.
Proof.
  intros Hu. unfold re_sub_with.
  rewrite (sub_from_with_unread r f (str s) Hu) by reflexivity.
  apply pystr_str.
Qed.

(** X13. On a text without hash, hyphen, asterisk, newline and carriage
    return, [markdown_to_html] is [escape]: no pattern finds anything.
    If the text also holds none of the five characters [escape] replaces,
    it is returned as it is. *)
Theorem markdown_to_html_plain (text : string) :
  Forall (fun c => syntax_char c = false) (str text) →
  markdown_to_html text = escape text
  ∧ ((∀ c, c ∈ str text → escape_char c = [c]) → markdown_to_html text = text).
Proof.
  intros Hplain.
  assert (Hesc : markdown_to_html text = escape text).
  { unfold markdown_to_html. case_bool_decide as Ht; [by subst text|].
    destruct (escape_quiet (str text) Hplain) as [Hq Hp].
    assert (Hs : str (escape text) = str text ≫= escape_char).
    { unfold escape. apply str_pystr. }
    rewrite <- Hs in Hq, Hp.
    assert (Hnorm : normalize_newlines (escape text) = escape text).
    { unfold normalize_newlines.
      assert (Hcr : Forall (fun c => is_char carriage_return c = false)
                      (str (escape text))).
      { eapply Forall_impl; [exact Hq|]. intros c Hc. unfold quiet_char in Hc.
        apply negb_true_iff, orb_false_iff in Hc as [_ Hc]. exact Hc. }
      rewrite <- (app_nil_r (str (escape text))).
      rewrite (replace_crlf_app _ [] Hcr). cbn [replace_crlf].
      rewrite app_nil_r, (replace_cr_id _ Hcr). apply pystr_str. }
    rewrite Hnorm.
    assert (Hchar : ∀ r t c, needs r c = true → quiet_char c = false →
              re_sub r t (escape text) = escape text).
    { intros r t c Hn Hc. apply re_sub_unread. left. exists c.
      split; [exact Hn | by apply quiet_no]. }
    assert (Hhead : ∀ hashes, needs_pair (heading_re hashes) "#" "#" = true →
              unread (heading_re hashes) (str (escape text))).
    { intros hashes Hn. right. by exists "#"%char, "#"%char. }
    rewrite (re_sub_with_unread _ _ _ (Hhead "###" eq_refl)).
    rewrite (re_sub_unread _ _ _ (Hhead "##" eq_refl)).
    rewrite (Hchar hr_re _ "-"%char) by reflexivity.
    rewrite (Hchar bold_re _ "*"%char) by reflexivity.
    rewrite (Hchar italic_re _ "*"%char) by reflexivity.
    rewrite (Hchar li_re _ "-"%char) by reflexivity.
    rewrite (Hchar ul_re _ "<"%char) by reflexivity.
    by rewrite (Hchar br_re _ newline) by reflexivity. }
  split; [exact Hesc|]. intros Hid. rewrite Hesc. unfold escape.
  rewrite <- (pystr_str text) at 2. f_equal.
  induction (str text) as [|c l IH]; [reflexivity|].
  change ((c :: l) ≫= escape_char) with (escape_char c ++ (l ≫= escape_char)).
  rewrite Hid by (apply elem_of_cons; by left). cbn [app]. f_equal.
  apply IH.
  - by apply Forall_cons in Hplain as [_ ?].
  - intros x Hx. apply Hid. apply elem_of_cons. by right.
Qed.

(** ** The characters a substitution can write *)

Section Chars.
Variable P : ascii → Prop.

Lemma matches_Forall (r : regex) (cu cu' : cursor) (caps caps' : captures) :
  matches r cu caps cu' caps' →
  Forall P (rest cu) → Forall (fun g => Forall P g.2) caps →
  Forall P (rest cu') ∧ Forall (fun g => Forall P g.2) caps'.
Proof.
  induction 1 as [cu caps|c pv x tl caps Hx|p pv x tl caps Hx|m cu caps H
                 |m cu caps H
                 |r1 r2 cu caps cu1 caps1 cu2 caps2 _ IH1 _ IH2
                 |r1 r2 cu caps cu' caps' _ IH
                 |r1 r2 cu caps cu' caps' _ IH
                 |g r cu caps
                 |g r cu caps cu1 caps1 cu2 caps2 _ IH1 _ IH2
                 |n r cu caps cu' caps' _ IH]; intros Hr Hc; cbn [rest] in *;
    try (split; assumption).
  - split; [|exact Hc]. by apply Forall_cons in Hr as [_ ?].
  - split; [|exact Hc]. by apply Forall_cons in Hr as [_ ?].
  - destruct (IH1 Hr Hc) as [Hr1 Hc1]. by apply IH2.
  - by apply IH.
  - by apply IH.
  - destruct (IH1 Hr Hc) as [Hr1 Hc1]. by apply IH2.
  - destruct (IH Hr Hc) as [Hr' Hc']. split; [exact Hr'|].
    constructor; [|exact Hc']. cbn. unfold consumed. by apply Forall_take.
Qed.

Lemma group_Forall (n : nat) (caps : captures) :
  Forall (fun g => Forall P g.2) caps → Forall P (group n caps).
Proof.
  induction 1 as [|[m g] caps Hg _ IH]; cbn [group]; [constructor|].
  destruct (Nat.eqb n m); [exact Hg | exact IH].
Qed.

Lemma expand_Forall (t : list titem) (caps : captures) :
  Forall P (template_text t) → Forall (fun g => Forall P g.2) caps →
  Forall P (expand t caps).
Proof.
  intros Ht Hc. unfold expand, template_text in *.
  induction t as [|[s|n] t IH]; cbn [fmap list_fmap concat] in *;
    [constructor|..].
  - apply Forall_app in Ht as [Hs Ht]. apply Forall_app. split; [exact Hs|].
    by apply IH.
  - apply Forall_app. split; [by apply group_Forall | by apply IH].
Qed.

Lemma sub_from_Forall (r : regex) (t : list titem) :
  Forall P (template_text t) →
  ∀ fuel cu, Forall P (rest cu) → Forall P (sub_from r t fuel cu).
Proof.
  intros Ht. induction fuel as [|fuel IH]; intros cu Hr; [exact Hr|].
  cbn [sub_from].
  assert (Hskip : Forall P match rest cu with
                           | [] => []
                           | c :: tl => c :: sub_from r t fuel (Cursor (Some c) tl)
                           end).
  { destruct (rest cu) as [|c tl] eqn:E; [constructor|].
    apply Forall_cons in Hr as [Hc Htl]. constructor; [exact Hc|].
    by apply IH. }
  destruct (match_at r cu) as [[cu' caps]|] eqn:M; [|exact Hskip].
  apply match_at_sound in M.
  destruct (matches_Forall _ _ _ _ _ M Hr) as [Hr' Hc]; [constructor|].
  assert (Hout : Forall P (expand t ((0, consumed cu cu') :: caps))).
  { apply expand_Forall; [exact Ht|]. constructor; [|exact Hc].
    cbn. unfold consumed. by apply Forall_take. }
  destruct (length (rest cu') <? length (rest cu)); apply Forall_app;
    (split; [exact Hout|]); [by apply IH | exact Hskip].
Qed.

(** [re.sub] writes no character that is neither in the text nor in the
    replacement. *)
Lemma re_sub_Forall (r : regex) (t : list titem) (s : string) :
  Forall P (template_text t) → Forall P (str s) → Forall P (str (re_sub r t s)).
Proof.
  intros Ht Hs. unfold re_sub. rewrite str_pystr. by apply sub_from_Forall.
Qed.

(** The same for the first pass, which escapes what it writes. *)
Lemma markup_join_Forall (t : list titem) (caps : captures) :
  Forall (fun e => Forall P (str e)) entities →
  Forall P (template_text t) → Forall (fun g => Forall P g.2) caps →
  Forall P (markup_join t caps).
Proof.
  intros He Ht Hc. unfold markup_join, template_text in *.
  induction t as [|[s|n] t IH]; cbn [fmap list_fmap concat] in *;
    [constructor|..].
  - apply Forall_app in Ht as [Hs Ht]. apply Forall_app.
    split; [by apply escape_keeps | by apply IH].
  - apply Forall_app.
    split; [by apply escape_keeps, group_Forall | by apply IH].
Qed.

Lemma sub_from_with_Forall (r : regex) (f : captures → chars) :
  (∀ caps, Forall (fun g => Forall P g.2) caps → Forall P (f caps)) →
  ∀ fuel cu, Forall P (rest cu) → Forall P (sub_from_with r f fuel cu).
Proof.
  intros Hf. induction fuel as [|fuel IH]; intros cu Hr; [exact Hr|].
  cbn [sub_from_with].
  assert (Hskip : Forall P match rest cu with
                           | [] => []
                           | c :: tl =>
                               c :: sub_from_with r f fuel (Cursor (Some c) tl)
                           end).
  { destruct (rest cu) as [|c tl] eqn:E; [constructor|].
    apply Forall_cons in Hr as [Hc Htl]. constructor; [exact Hc|].
    by apply IH. }
  destruct (match_at r cu) as [[cu' caps]|] eqn:M; [|exact Hskip].
  apply match_at_sound in M.
  destruct (matches_Forall _ _ _ _ _ M Hr) as [Hr' Hc]; [constructor|].
  assert (Hout : Forall P (f ((0, consumed cu cu') :: caps))).
  { apply Hf. constructor; [|exact Hc].
    cbn. unfold consumed. by apply Forall_take. }
  destruct (length (rest cu') <? length (rest cu)); apply Forall_app;
    (split; [exact Hout|]); [by apply IH | exact Hskip].
Qed.

Lemma re_sub_with_Forall (r : regex) (f : captures → chars) (s : string) :
  (∀ caps, Forall (fun g => Forall P g.2) caps → Forall P (f caps)) →
  Forall P (str s) → Forall P (str (re_sub_with r f s)).
Proof.
  intros Hf Hs. unfold re_sub_with. rewrite str_pystr.
  by apply sub_from_with_Forall.
Qed.

End Chars.

Lemma escape_no_quote (text : string) :
  Forall (fun c => (is_char "'" c || is_char "034" c)%char = false)
    (str (escape text)).
Proof.
  unfold escape. rewrite str_pystr.
  induction (str text) as [|c l IH]; [constructor|].
  change ((c :: l) ≫= escape_char) with (escape_char c ++ (l ≫= escape_char)).
  apply Forall_app. split; [|exact IH]. unfold escape_char.
  destruct (is_char "&" c); [by repeat constructor|].
  destruct (is_char ">" c); [by repeat constructor|].
  destruct (is_char "<" c); [by repeat constructor|].
  destruct (is_char "'" c) eqn:E1; [by repeat constructor|].
  destruct (is_char "034" c) eqn:E2; [by repeat constructor|].
  constructor; [|constructor]. by rewrite E1, E2.
Qed.

Lemma normalize_newlines_no_quote (s : string) :
  Forall (fun c => (is_char "'" c || is_char "034" c)%char = false) (str s) →
  Forall (fun c => quote_or_cr c = false) (str (normalize_newlines s)).
Proof.
  intros H. unfold normalize_newlines. rewrite str_pystr. unfold replace_cr.
  apply Forall_fmap. apply replace_crlf_Forall.
  eapply Forall_impl; [exact H|]. intros c Hc. cbn beta in *.
  unfold compose. destruct (is_char carriage_return c) eqn:E; [reflexivity|].
  unfold quote_or_cr. by rewrite Hc, E.
Qed.

(** X14. The text [markdown_to_html] returns holds no single quote, no
    double quote and no carriage return. *)
Theorem markdown_to_html_no_quotes (text : string) :
  Forall (fun c => quote_or_cr c = false) (str (markdown_to_html text)).
Proof.
  unfold markdown_to_html. case_bool_decide; [constructor|].
  do 7 (apply re_sub_Forall; [by repeat constructor|]).
  apply re_sub_with_Forall.
  { intros caps Hc. by apply markup_join_Forall; [repeat constructor..|]. }
  apply normalize_newlines_no_quote, escape_no_quote.
Qed.

(** ** The chart name found in an answer *)

Lemma search_from_sound (r : regex) (fuel : nat) (cu : cursor)
    (caps : captures) :
  search_from r fuel cu = Some caps →
  ∃ cu0 cu' caps0,
    match_at r cu0 = Some (cu', caps0)
    ∧ caps = (0, consumed cu0 cu') :: caps0.
Proof.
  revert cu. induction fuel as [|fuel IH]; intros cu; cbn [search_from];
    destruct (match_at r cu) as [[cu' caps0]|] eqn:M;
    try (intros [= <-]; by exists cu, cu', caps0); try discriminate.
  destruct (rest cu) as [|c tl]; [discriminate|]. apply IH.
Qed.

Lemma matches_lit (s : string) (cu cu' : cursor) (caps caps' : captures) :
  matches (lit s) cu caps cu' caps' → rest cu = str s ++ rest cu'.
Proof.
  unfold lit. revert cu caps. induction (str s) as [|c l IH]; intros cu caps M.
  - cbn in M. by inversion M; subst.
  - cbn in M. inversion M as [| | | | |? ? ? ? c1 caps1 ? ? M1 M2| | | | |];
      subst.
    inversion M1 as [|? ? x tl ? Hx| | | | | | | | |]; subst.
    apply is_char_true in Hx as <-. apply IH in M2. cbn [rest] in *.
    by rewrite M2.
Qed.

Lemma png_name_filename (c : ascii) :
  png_name_char c = true → filename_char c = true.
Proof.
  unfold png_name_char, filename_char.
  intros H. repeat (apply orb_true_iff in H as [H|H]); rewrite H;
    by rewrite ?orb_true_r.
Qed.

(** The group of a match of the chart pattern. *)
Lemma png_re_group (cu cu' : cursor) (caps : captures) :
  match_at png_re cu = Some (cu', caps) →
  ∃ stem, group 1 ((0, consumed cu cu') :: caps) = stem ++ str ".png"
          ∧ stem ≠ []
          ∧ Forall (fun c => png_name_char c = true) stem.
Proof.
  intros M. apply match_at_sound in M.
  destruct (matches_seqs_group [opt (Chr "*")] [opt (Chr "*")] 1
              (seqs [plus true (Cls png_name_char); lit ".png"])
              eq_refl eq_refl eq_refl _ _ _ M)
    as (c1 & c2 & _ & Mg & _ & ->).
  cbn [group Nat.eqb].
  cbn in Mg. inversion Mg as [| | | | |? ? ? ? ca capsa ? ? M1 M2| | | | |];
    subst.
  inversion M2 as [| | | | |? ? ? ? cb capsb ? ? M3 M4| | | | |]; subst.
  inversion M4; subst.
  destruct (matches_reads _ _ _ _ _ M1) as (stem & E1 & _ & Hc & Hn).
  apply (matches_lit ".png") in M3.
  exists stem. split; [|split].
  - apply consumed_reads. by rewrite E1, M3, <- app_assoc.
  - by apply Hn.
  - eapply Forall_impl; [exact Hc|]. intros c H. cbn in H.
    by rewrite orb_diag in H.
Qed.

(** X15. A name [extract_image_filename] returns is a non-empty run of
    letters, digits, underscores and hyphens followed by [.png]; every
    character of it is in the class [safe_filename] keeps, so it holds no
    path separator. *)
Theorem extract_image_filename_shape (text name : string) :
  extract_image_filename text = Some name →
  ∃ stem, name = pystr (stem ++ str ".png")
          ∧ stem ≠ []
          ∧ Forall (fun c => png_name_char c = true) stem
          ∧ Forall (fun c => filename_char c = true) (str name).
Proof.
  unfold extract_image_filename. case_bool_decide; [discriminate|].
  destruct (re_search png_re _) as [caps|] eqn:S; [|discriminate].
  intros [= <-]. unfold re_search in S.
  apply search_from_sound in S as (cu0 & cu' & caps0 & M & ->).
  destruct (png_re_group _ _ _ M) as (stem & -> & Hne & Hs).
  assert (Hall : Forall (fun c => filename_char c = true) (stem ++ str ".png")).
  { apply Forall_app. split; [|by repeat constructor].
    eapply Forall_impl; [exact Hs|]. apply png_name_filename. }
  assert (Hid : safe_filename (Some (pystr (stem ++ str ".png")))
                = pystr (stem ++ str ".png")).
  { apply str_inj. rewrite safe_filename_chars. cbn [default from_option id].
    rewrite !str_pystr. apply replace_class_id.
    eapply Forall_impl; [exact Hall|]. intros c Hc. cbn. by rewrite Hc. }
  exists stem. rewrite Hid, str_pystr. by repeat split.
Qed.

(** ** Headings *)

Lemma exec_dot_cons {R} (pv : option ascii) (c : ascii) (l : chars)
    (caps : captures) (k : cursor → captures → option R) :
  exec dot (Cursor pv (c :: l)) caps k
  = if negb (is_char newline c) then k (Cursor (Some c) l) caps else None.
Proof. reflexivity. Qed.

Lemma exec_dot_nil {R} (pv : option ascii) (caps : captures)
    (k : cursor → captures → option R) :
  exec dot (Cursor pv []) caps k = None.
Proof. reflexivity. Qed.

(** A greedy run of [dot] reads a line to its end when what follows the
    run accepts that. *)
Lemma star_dot_line {R} (k : cursor → captures → option R) (caps : captures)
    (res : R) (l : chars) :
  Forall (fun c => is_char newline c = false) l →
  ∀ n pv,
    length l ≤ n →
    k (Cursor (last_of pv l) []) caps = Some res →
    star_loop (exec dot) true k n (Cursor pv l) caps = Some res.
Proof.
  induction 1 as [|c l Hc _ IH]; intros n pv Hn Hk.
  - destruct n; cbn [star_loop]; rewrite ?exec_dot_nil; exact Hk.
  - destruct n as [|n]; [cbn in Hn; lia|].
    cbn [star_loop]. rewrite exec_dot_cons, Hc. cbn [negb rest length].
    rewrite (proj2 (Nat.ltb_lt _ _)) by lia.
    rewrite (IH n (Some c)); [reflexivity|cbn in Hn; lia|].
    replace (last_of (Some c) l) with (last_of pv (c :: l)); [exact Hk|].
    change (c :: l) with ([c] ++ l). by rewrite <- last_of_app.
Qed.

Lemma star_loop_stop {R}
    (body : cursor → captures → (cursor → captures → option R) → option R)
    (g : bool) (k : cursor → captures → option R) (n : nat) (cu : cursor)
    (caps : captures) :
  (∀ K, body cu caps K = None) →
  star_loop body g k n cu caps = k cu caps.
Proof.
  intros H. destruct n, g; cbn [star_loop]; rewrite ?H;
    by destruct (k cu caps).
Qed.

Lemma step_cons {R} (p : ascii → bool) (pv : option ascii) (x : ascii)
    (tl : chars) (k : cursor → option R) :
  step p (Cursor pv (x :: tl)) k
  = if p x then k (Cursor (Some x) tl) else None.
Proof. reflexivity. Qed.

Lemma heading2_match (E : chars) :
  Forall (fun c => is_char newline c = false) E →
  match_at (heading_re "##") (Cursor None (str "## " ++ E))
  = Some (Cursor (last_of (Some " "%char) E) [], [(1, E)]).
Proof.
  intros HE. unfold match_at, heading_re.
  cbn [seqs foldr exec at_bol prev lit str fmap list_fmap list_ascii_of_string].
  rewrite star_loop_stop by reflexivity.
  cbn [app]. rewrite !step_cons.
  change (is_char "#" "#") with true. change (is_char " " " ") with true.
  cbn iota. cbn [rest].
  apply star_dot_line; [exact HE|reflexivity|].
  cbn [at_eol rest]. unfold consumed. cbn [rest length].
  by rewrite Nat.sub_0_r, firstn_all.
Qed.

Lemma heading3_match (E : chars) :
  Forall (fun c => is_char newline c = false) E →
  match_at (heading_re "###") (Cursor None (str "### " ++ E))
  = Some (Cursor (last_of (Some " "%char) E) [], [(1, E)]).
Proof.
  intros HE. unfold match_at, heading_re.
  cbn [seqs foldr exec at_bol prev lit str fmap list_fmap list_ascii_of_string].
  rewrite star_loop_stop by reflexivity.
  cbn [app]. rewrite !step_cons.
  change (is_char "#" "#") with true. change (is_char " " " ") with true.
  cbn iota. cbn [rest].
  apply star_dot_line; [exact HE|reflexivity|].
  cbn [at_eol rest]. unfold consumed. cbn [rest length].
  by rewrite Nat.sub_0_r, firstn_all.
Qed.

Lemma heading_mid_line (hashes : string) (c : ascii) (l : chars) :
  is_char newline c = false →
  match_at (heading_re hashes) (Cursor (Some c) l) = None.
Proof.
  intros Hc. unfold match_at, heading_re. cbn [seqs foldr exec at_bol prev].
  by rewrite Hc.
Qed.

Lemma last_of_not_newline (c : ascii) (l : chars) :
  is_char newline c = false →
  Forall (fun c => is_char newline c = false) l →
  ∃ x, last_of (Some c) l = Some x ∧ is_char newline x = false.
Proof.
  intros Hc Hl. unfold last_of. destruct (last l) as [x|] eqn:E; [|exists c; by split].
  exists x. split; [reflexivity|]. apply last_Some in E as [l' ->].
  rewrite Forall_forall in Hl. apply Hl. apply elem_of_app. right.
  apply list_elem_of_singleton. reflexivity.
Qed.

(** A pattern that matches at line starts only leaves the rest of a line
    as it is. *)
Lemma sub_from_mid_line (r : regex) (t : list titem) :
  (∀ c l, is_char newline c = false → match_at r (Cursor (Some c) l) = None) →
  ∀ fuel c l,
    is_char newline c = false →
    Forall (fun c => is_char newline c = false) l →
    sub_from r t fuel (Cursor (Some c) l) = l.
Proof.
  intros Hr. induction fuel as [|fuel IH]; intros c l Hc Hl; [reflexivity|].
  cbn [sub_from]. rewrite Hr by exact Hc. cbn [rest].
  destruct Hl as [|d l Hd Hl]; [reflexivity|]. f_equal. by apply IH.
Qed.

Lemma sub_from_line_unmatched (r : regex) (t : list titem) (fuel : nat)
    (l : chars) :
  (∀ c l, is_char newline c = false → match_at r (Cursor (Some c) l) = None) →
  match_at r (Cursor None l) = None →
  Forall (fun c => is_char newline c = false) l →
  sub_from r t fuel (Cursor None l) = l.
Proof.
  intros Hr H0 Hl. destruct fuel as [|fuel]; [reflexivity|].
  cbn [sub_from]. rewrite H0. cbn [rest].
  destruct Hl as [|d l Hd Hl]; [reflexivity|]. f_equal.
  by apply sub_from_mid_line.
Qed.

(** One heading line: the substitution wraps what follows the hashes. *)
Lemma sub_from_heading (hashes o c : string) (fuel : nat) (pre E : chars) :
  match_at (heading_re hashes) (Cursor None (pre ++ E))
  = Some (Cursor (last_of (Some " "%char) E) [], [(1, E)]) →
  Forall (fun c => is_char newline c = false) E →
  pre ≠ [] →
  sub_from (heading_re hashes) [TLit o; TGroup 1; TLit c] (S fuel)
    (Cursor None (pre ++ E))
  = str o ++ E ++ str c.
Proof.
  intros M HE Hpre. cbn [sub_from]. rewrite M. cbn [rest length].
  rewrite (proj2 (Nat.ltb_lt _ _)).
  2:{ rewrite length_app. destruct pre; [done|]. cbn. lia. }
  unfold expand. cbn [fmap list_fmap concat group Nat.eqb].
  rewrite app_nil_r, <- !app_assoc. do 2 f_equal.
  rewrite <- (app_nil_r (str c)) at 2. f_equal.
  destruct (last_of_not_newline " " E eq_refl HE) as (x & -> & Hx).
  by apply sub_from_mid_line; [apply heading_mid_line|..].
Qed.

Lemma has_pair_cons_other (a b x : ascii) (l : chars) :
  is_char a x = false → has_pair a b (x :: l) = has_pair a b l.
Proof.
  intros Hx. destruct l as [|y l]; [reflexivity|].
  by rewrite has_pair_cons, Hx.
Qed.

Lemma has_pair_skip (a b : ascii) (l R : chars) :
  Forall (fun c => is_char a c = false) l →
  has_pair a b (l ++ R) = has_pair a b R.
Proof.
  induction 1 as [|c l Hc _ IH]; [reflexivity|].
  cbn [app]. by rewrite has_pair_cons_other.
Qed.

Lemma calm_tail (s : string) :
  Forall (fun c => calm_char c = true) (str s) →
  has_pair "<" "l" (str s) = false →
  re_sub br_re [TLit "<br>"]
    (re_sub ul_re [TLit "<ul>"; TGroup 0; TLit "</ul>"]
       (re_sub li_re [TLit "<li>"; TGroup 1; TLit "</li>"]
          (re_sub italic_re [TLit "<i>"; TGroup 1; TLit "</i>"]
             (re_sub bold_re [TLit "<b>"; TGroup 1; TLit "</b>"]
                (re_sub hr_re [TLit lf; TLit "<hr>"; TLit lf] s)))))
  = s.
Proof.
  intros Hc Hp.
  assert (Hchar : ∀ r t c, needs r c = true → calm_char c = false →
            re_sub r t s = s).
  { intros r t c Hn Hcc. apply re_sub_unread. left. exists c.
    split; [exact Hn|]. intros Hin. rewrite Forall_forall in Hc.
    specialize (Hc c Hin). congruence. }
  rewrite (Hchar hr_re _ "-"%char) by reflexivity.
  rewrite (Hchar bold_re _ "*"%char) by reflexivity.
  rewrite (Hchar italic_re _ "*"%char) by reflexivity.
  rewrite (Hchar li_re _ "-"%char) by reflexivity.
  rewrite (re_sub_unread ul_re).
  2:{ right. by exists "<"%char, "l"%char. }
  by rewrite (Hchar br_re _ newline) by reflexivity.
Qed.

Lemma normalize_newlines_id (l : chars) :
  Forall (fun c => is_char carriage_return c = false) l →
  normalize_newlines (pystr l) = pystr l.
Proof.
  intros Hcr. unfold normalize_newlines. rewrite str_pystr.
  rewrite <- (app_nil_r l) at 1.
  rewrite (replace_crlf_app _ [] Hcr). cbn [replace_crlf].
  by rewrite app_nil_r, (replace_cr_id _ Hcr).
Qed.

Lemma escape_app (a b : string) : escape (a +:+ b) = escape a +:+ escape b.
Proof.
  apply str_inj. unfold escape. by rewrite str_app, !str_pystr, str_app,
    !str_pystr, bind_app.
Qed.

Lemma re_sub_chars (r : regex) (t : list titem) (l l' : chars) :
  sub_from r t (S (length l)) (Cursor None l) = l' →
  re_sub r t (pystr l) = pystr l'.
Proof.
  intros H. unfold re_sub. by rewrite str_pystr, <- length_str, str_pystr, H.
Qed.

Lemma quiet_parts (c : ascii) :
  quiet_char c = true →
  is_char newline c = false ∧ is_char carriage_return c = false
  ∧ calm_char c = true ∧ is_char "<" c = false.
Proof.
  unfold quiet_char, calm_char. intros H. apply negb_true_iff in H.
  repeat (apply orb_false_iff in H as [H ?]).
  repeat split; try assumption. apply negb_true_iff.
  by repeat (apply orb_false_iff; split).
Qed.

(** The rendering of a text wrapped in a tag pair that holds no [l]
    after its opening angle. *)
Lemma wrapped_tail (o c : string) (E : chars) :
  Forall (fun c => quiet_char c = true) E →
  Forall (fun x => calm_char x = true) (str o ++ str c) →
  (∀ R, has_pair "<" "l" (str o ++ R) = has_pair "<" "l" R) →
  has_pair "<" "l" (str c) = false →
  re_sub br_re [TLit "<br>"]
    (re_sub ul_re [TLit "<ul>"; TGroup 0; TLit "</ul>"]
       (re_sub li_re [TLit "<li>"; TGroup 1; TLit "</li>"]
          (re_sub italic_re [TLit "<i>"; TGroup 1; TLit "</i>"]
             (re_sub bold_re [TLit "<b>"; TGroup 1; TLit "</b>"]
                (re_sub hr_re [TLit lf; TLit "<hr>"; TLit lf]
                   (pystr (str o ++ E ++ str c)))))))
  = pystr (str o ++ E ++ str c).
Proof.
  intros HE Hoc Ho Hc. apply Forall_app in Hoc as [Hco Hcc].
  apply calm_tail; rewrite str_pystr.
  - apply Forall_app. split; [exact Hco|]. apply Forall_app.
    split; [|exact Hcc]. eapply Forall_impl; [exact HE|].
    intros x Hx. by apply quiet_parts in Hx as (_ & _ & ? & _).
  - rewrite Ho, has_pair_skip; [exact Hc|].
    eapply Forall_impl; [exact HE|].
    intros x Hx. by apply quiet_parts in Hx as (_ & _ & _ & ?).
Qed.

Lemma sub_from_with_mid_line (r : regex) (f : captures → chars) :
  (∀ c l, is_char newline c = false → match_at r (Cursor (Some c) l) = None) →
  ∀ fuel c l,
    is_char newline c = false →
    Forall (fun c => is_char newline c = false) l →
    sub_from_with r f fuel (Cursor (Some c) l) = l.
Proof.
  intros Hr. induction fuel as [|fuel IH]; intros c l Hc Hl; [reflexivity|].
  cbn [sub_from_with]. rewrite Hr by exact Hc. cbn [rest].
  destruct Hl as [|d l Hd Hl]; [reflexivity|]. f_equal. by apply IH.
Qed.

Lemma sub_from_with_line_unmatched (r : regex) (f : captures → chars)
    (fuel : nat) (l : chars) :
  (∀ c l, is_char newline c = false → match_at r (Cursor (Some c) l) = None) →
  match_at r (Cursor None l) = None →
  Forall (fun c => is_char newline c = false) l →
  sub_from_with r f fuel (Cursor None l) = l.
Proof.
  intros Hr H0 Hl. destruct fuel as [|fuel]; [reflexivity|].
  cbn [sub_from_with]. rewrite H0. cbn [rest].
  destruct Hl as [|d l Hd Hl]; [reflexivity|]. f_equal.
  by apply sub_from_with_mid_line.
Qed.

(** One third-level heading line in the first pass: the tags and the
    text after the hashes are escaped. *)
Lemma sub_from_with_heading3 (fuel : nat) (E : chars) :
  Forall (fun c => is_char newline c = false) E →
  sub_from_with (heading_re "###")
    (markup_join [TLit "<h3>"; TGroup 1; TLit "</h3>"]) (S fuel)
    (Cursor None (str "### " ++ E))
  = str "&lt;h3&gt;" ++ (E ≫= escape_char) ++ str "&lt;/h3&gt;".
Proof.
  intros HE. cbn [sub_from_with]. rewrite (heading3_match E HE).
  cbn [rest length]. rewrite (proj2 (Nat.ltb_lt _ _)) by (cbn; lia).
  unfold markup_join. cbn [fmap list_fmap concat group Nat.eqb].
  change (str "<h3>" ≫= escape_char) with (str "&lt;h3&gt;").
  change (str "</h3>" ≫= escape_char) with (str "&lt;/h3&gt;").
  rewrite app_nil_r, <- !app_assoc. do 2 f_equal.
  rewrite <- (app_nil_r (str "&lt;/h3&gt;")) at 2. f_equal.
  destruct (last_of_not_newline " " E eq_refl HE) as (x & -> & Hx).
  by apply sub_from_with_mid_line; [apply heading_mid_line|..].
Qed.

Lemma re_sub_with_chars (r : regex) (f : captures → chars) (l l' : chars) :
  sub_from_with r f (S (length l)) (Cursor None l) = l' →
  re_sub_with r f (pystr l) = pystr l'.
Proof.
  intros H. unfold re_sub_with.
  by rewrite str_pystr, <- length_str, str_pystr, H.
Qed.

(** X16. A line of two hashes, a space and a text without hash, hyphen,
    asterisk and line ends renders as that text, escaped, between the
    tags of a second-level heading.  With three hashes the first pass
    takes it, and what it writes is escaped: the tags of the third-level
    heading come out escaped, around the text escaped twice. *)
Theorem markdown_to_html_heading (t : string) :
  Forall (fun c => syntax_char c = false) (str t) →
  markdown_to_html ("## " +:+ t) = "<h2>" +:+ escape t +:+ "</h2>"
  ∧ markdown_to_html ("### " +:+ t)
    = "&lt;h3&gt;" +:+ escape (escape t) +:+ "&lt;/h3&gt;".
Proof.
  intros Hplain. destruct (escape_quiet (str t) Hplain) as [Hq _].
  set (E := str t ≫= escape_char) in *.
  assert (Hnl : Forall (fun c => is_char newline c = false) E).
  { eapply Forall_impl; [exact Hq|]. intros x Hx.
    by apply quiet_parts in Hx as (? & _). }
  assert (Hcr : Forall (fun c => is_char carriage_return c = false) E).
  { eapply Forall_impl; [exact Hq|]. intros x Hx.
    by apply quiet_parts in Hx as (_ & ? & _). }
  assert (Hesc : ∀ h, escape (h +:+ t) = pystr (str (escape h) ++ E)).
  { intros h. rewrite escape_app. apply str_inj.
    rewrite str_app, str_pystr. unfold escape at 2. by rewrite str_pystr. }
  split.
  - unfold markdown_to_html. rewrite bool_decide_eq_false_2 by discriminate.
    rewrite (Hesc "## "). change (str (escape "## ")) with (str "## ").
    rewrite normalize_newlines_id
      by (apply Forall_app; split; [by repeat constructor | exact Hcr]).
    rewrite (re_sub_with_chars (heading_re "###") _ _ (str "## " ++ E)).
    2:{ apply sub_from_with_line_unmatched.
        - intros c l. apply heading_mid_line.
        - unfold match_at, heading_re.
          cbn [seqs foldr exec at_bol prev lit str fmap list_fmap
                 list_ascii_of_string].
          rewrite star_loop_stop by reflexivity.
          cbn [app]. by rewrite !step_cons.
        - apply Forall_app. split; [by repeat constructor | exact Hnl]. }
    rewrite (re_sub_chars (heading_re "##") _ _ (str "<h2>" ++ E ++ str "</h2>")).
    2:{ apply sub_from_heading; [by apply heading2_match|exact Hnl|done]. }
    rewrite wrapped_tail; [|exact Hq|by repeat constructor| |reflexivity].
    + apply str_inj. rewrite str_pystr, !str_app. unfold escape.
      by rewrite str_pystr.
    + intros R. cbn [str app list_ascii_of_string].
      rewrite has_pair_cons. by rewrite !has_pair_cons_other by reflexivity.
  - assert (Hq' : Forall (fun c => quiet_char c = true) (E ≫= escape_char)).
    { apply escape_keeps; [by repeat constructor | exact Hq]. }
    set (T := str "&lt;h3&gt;" ++ (E ≫= escape_char) ++ str "&lt;/h3&gt;").
    assert (HT : Forall (fun c => quiet_char c = true) T).
    { apply Forall_app. split; [by repeat constructor|].
      apply Forall_app. split; [exact Hq' | by repeat constructor]. }
    unfold markdown_to_html. rewrite bool_decide_eq_false_2 by discriminate.
    rewrite (Hesc "### "). change (str (escape "### ")) with (str "### ").
    rewrite normalize_newlines_id
      by (apply Forall_app; split; [by repeat constructor | exact Hcr]).
    rewrite (re_sub_with_chars (heading_re "###") _ _ T)
      by by apply sub_from_with_heading3.
    rewrite (re_sub_chars (heading_re "##") _ _ T).
    2:{ apply sub_from_line_unmatched.
        - intros c l. apply heading_mid_line.
        - unfold match_at, heading_re, T.
          cbn [seqs foldr exec at_bol prev lit str fmap list_fmap
                 list_ascii_of_string].
          rewrite star_loop_stop by reflexivity.
          cbn [app]. by rewrite !step_cons.
        - eapply Forall_impl; [exact HT|]. intros x Hx.
          by apply quiet_parts in Hx as (? & _). }
    rewrite calm_tail.
    + apply str_inj. unfold T. rewrite str_pystr, !str_app. unfold escape.
      by rewrite !str_pystr.
    + rewrite str_pystr. eapply Forall_impl; [exact HT|]. intros x Hx.
      by apply quiet_parts in Hx as (_ & _ & ? & _).
    + rewrite str_pystr, <- (app_nil_r T). rewrite has_pair_skip; [reflexivity|].
      eapply Forall_impl; [exact HT|]. intros x Hx.
      by apply quiet_parts in Hx as (_ & _ & _ & ?).
Qed.

(** ** Titles and the media route *)

Lemma length_shorten (limit : nat) (text : string) :
  String.length (shorten limit text) ≤ limit + 3.
Proof.
  unfold shorten. destruct (limit <? String.length text);
    rewrite <- length_str, str_app, length_app, str_pystr, length_take;
    cbn [str length]; lia.
Qed.

Lemma shorten_short (limit : nat) (text : string) :
  String.length text ≤ limit → shorten limit text = text.
Proof.
  intros H. unfold shorten. rewrite (proj2 (Nat.ltb_ge _ _) H).
  rewrite take_ge by (rewrite length_str; lia). rewrite pystr_str.
  apply str_inj. rewrite str_app. apply app_nil_r.
Qed.

Lemma first_title_length (limit : nat) (history : list json) (t : string) :
  5 ≤ limit → first_title limit history = Some t →
  String.length t ≤ limit + 3.
Proof.
  intros Hl. induction history as [|msg history IH]; cbn [first_title].
  - intros [= <-]. cbn. lia.
  - destruct msg as [| | | | |members]; try discriminate.
    destruct (is_str "user" _ && truthy _); [|exact IH].
    destruct (default JNull (assoc "text" members)); try discriminate.
    intros [= <-]. apply length_shorten.
Qed.

(** X17. A title [get_chat_title] returns has at most 13 characters for
    a pinned chat and at most 23 otherwise. *)
Theorem get_chat_title_length (chat_id : string) (is_pinned : bool)
    (w : world) (t : string) :
  get_chat_title chat_id is_pinned w = Some t →
  String.length t ≤ (if is_pinned then 13 else 23).
Proof.
  unfold get_chat_title. destruct (load_chat_history chat_id w).1 as [h|];
    [|discriminate].
  destruct (py_iter h) as [msgs|]; [|discriminate].
  intros H. apply first_title_length in H; destruct is_pinned; lia.
Qed.

Lemma filename_chars_fixed (name : string) :
  Forall (fun c => filename_char c = true) (str name) →
  safe_filename (Some name) = name.
Proof.
  intros H. apply str_inj. rewrite safe_filename_chars.
  cbn [default from_option id]. apply replace_class_id.
  eapply Forall_impl; [exact H|]. intros c Hc. cbn. by rewrite Hc.
Qed.

Lemma safe_filename_class (name : option string) :
  Forall (fun c => filename_char c = true) (str (safe_filename name)).
Proof.
  rewrite safe_filename_chars.
  eapply Forall_impl; [apply (replace_class_fix _ "_"); reflexivity|].
  intros c Hc. cbn in Hc. by apply negb_false_iff in Hc.
Qed.

(** X18. [serve_media] sends a file only under a name made of letters,
    digits, underscore, dot and hyphen, hence without a path separator,
    that exists in the media directory, as a PNG; otherwise it answers
    404. *)
Theorem serve_media_confined (media_exists : string → bool)
    (filename : string) :
  match serve_media media_exists filename with
  | SendFile path mimetype =>
      media_exists path = true
      ∧ Forall (fun c => filename_char c = true) (str path)
      ∧ ("/"%char ∉ str path) ∧ ("\"%char ∉ str path)
      ∧ mimetype = "image/png"
  | Status body code =>
      code = 404%Z ∧ media_exists (safe_filename (Some filename)) = false
  end.
Proof.
  unfold serve_media. destruct (media_exists _) eqn:E; [|by split].
  pose proof (safe_filename_class (Some filename)) as Hc.
  split; [exact E|]. split; [exact Hc|].
  rewrite Forall_forall in Hc.
  repeat split; intros Hin; by apply Hc in Hin.
Qed.

Lemma is_hex_filename (c : ascii) : is_hex c = true → filename_char c = true.
Proof.
  unfold is_hex, filename_char, in_range.
  intros [H|H]%orb_true_iff; apply andb_true_iff in H as [H1 H2].
  - by rewrite H1, H2, !orb_true_r.
  - apply N.leb_le in H1, H2. cbn in H1, H2.
    replace ((N_of_ascii "a" <=? N_of_ascii c)%N) with true
      by (symmetry; apply N.leb_le; cbn; lia).
    replace ((N_of_ascii c <=? N_of_ascii "z")%N) with true
      by (symmetry; apply N.leb_le; cbn; lia).
    reflexivity.
Qed.

Lemma chart_name_fixed (u : uuid) :
  Forall (fun c => is_hex c = true) (str (uuid_hex u)) →
  safe_filename (Some (chart_name u)) = chart_name u.
Proof.
  intros H. apply filename_chars_fixed. unfold chart_name.
  rewrite !str_app, str_pystr. apply Forall_app. split; [by repeat constructor|].
  apply Forall_app. split; [|by repeat constructor].
  apply Forall_take. eapply Forall_impl; [exact H|]. apply is_hex_filename.
Qed.

Lemma first_title_user (limit : nat) (q : string) (l : list json) :
  q ≠ EmptyString →
  first_title limit (user_message q :: l) = Some (shorten limit q).
Proof.
  intros Hq.
  change (first_title limit (user_message q :: l))
    with (if is_str "user" (JStr "user") && truthy (JStr q)
          then Some (shorten limit q) else first_title limit l).
  cbn [is_str truthy]. rewrite bool_decide_eq_true_2 by reflexivity.
  by rewrite bool_decide_eq_false_2 by exact Hq.
Qed.

(** ** The page of the home route *)

Lemma lstrip_blank (l : chars) :
  Forall (fun c => is_space c = true) l → lstrip l = [].
Proof. induction 1 as [|c l Hc _ IH]; [reflexivity|]. cbn. by rewrite Hc. Qed.

Lemma strip_blank (s : string) :
  Forall (fun c => is_space c = true) (str s) → strip s = EmptyString.
Proof. intros H. unfold strip. by rewrite (lstrip_blank _ H). Qed.

Lemma render_page_world (x : string * json) (w : world) :
  chat_dir (render_page x w).2 = chat_dir w
  ∧ draws (render_page x w).2 = draws w
  ∧ clock (render_page x w).2 = clock w.
Proof.
  destruct x as [cid h].
  assert (Hro : read_only
            (let* pinned_list := load_pinned_chats in
             let* chat_sessions := list_chat_sessions in
             ret (Page h chat_sessions cid pinned_list))).
  { apply read_only_bind; [apply read_only_load_pinned_chats|]. intros p.
    apply read_only_bind; [apply read_only_list_chat_sessions|]. intros l.
    apply read_only_ret. }
  assert (E : (render_page (cid, h) w).2
              = {| chat_dir := chat_dir w; cookie := Some cid;
                   clock := clock w; draws := draws w |}).
  { unfold render_page. unfold bind at 1, session_set. apply Hro. }
  by rewrite E.
Qed.

Lemma render_page_Ok (cid c : string) (h h' : json) (s : list string) (p : json)
    (w w' : world) :
  render_page (cid, h) w = (Ok (Page h' s c p), w') →
  c = cid ∧ h' = h ∧ cookie w' = Some cid ∧ chat_dir w' = chat_dir w
  ∧ load_pinned_chats w' = (Ok p, w')
  ∧ list_chat_sessions w' = (Ok s, w').
Proof.
  unfold render_page, bind at 1, session_set.
  set (w1 := {| chat_dir := chat_dir w; cookie := Some cid;
                clock := clock w; draws := draws w |}).
  unfold bind at 1. destruct (load_pinned_chats w1) as [[p'|e] w2] eqn:Hp;
    [|discriminate].
  pose proof (load_pinned_chats_world w1) as Hw. rewrite Hp in Hw.
  cbn in Hw. subst w2.
  unfold bind. destruct (list_chat_sessions w1) as [[s'|e] w2] eqn:Hs;
    [|discriminate].
  pose proof (read_only_list_chat_sessions w1) as Hro. rewrite Hs in Hro.
  cbn in Hro. subst w2. unfold ret. intros [= <- <- <- <- <-].
  by repeat split.
Qed.

(** ** Tool dispatch, sessions and the home route *)

Section MoreWeb.
Context {pyobj : Type} (py_str : pyobj → string)
  (get_tool_call : string → pyobj → outcome (plan pyobj))
  (finbot : string → gmap string pyobj → outcome pyobj)
  (load_data : outcome pyobj) (empty_dict : pyobj)
  (cached_data : option pyobj) (uuid4 : nat → uuid)
  (chart_exists : string → bool) (os_rename : string → string → result unit).

Local Abbreviation chatbot_response_ :=
  (chatbot_response py_str get_tool_call finbot).
Local Abbreviation bot_turn_ :=
  (bot_turn py_str get_tool_call finbot load_data empty_dict cached_data
     uuid4 chart_exists os_rename).
Local Abbreviation home_post_ :=
  (home_post py_str get_tool_call finbot load_data empty_dict cached_data
     uuid4 chart_exists os_rename).
Local Abbreviation home_ :=
  (home py_str get_tool_call finbot load_data empty_dict cached_data
     uuid4 chart_exists os_rename).
Local Abbreviation data_ := (current_data load_data empty_dict cached_data).

(** X19. An exception escapes [chatbot_response] in two cases only: the
    plan is a truthy value that is not a dict (AttributeError on
    [plan.get]), or its tool name is unhashable (TypeError on the lookup
    in the tool belt). *)
Theorem chatbot_response_raises (user_query : string) (data : pyobj)
    (e : exn) :
  chatbot_response_ user_query data = Raise e
  ↔ (get_tool_call user_query data = Returns PlanOther ∧ e = AttributeError)
    ∨ (∃ arguments,
         get_tool_call user_query data
         = Returns (PlanDict KUnhashable arguments)
         ∧ e = TypeError).
Proof.
  unfold chatbot_response.
  destruct (get_tool_call user_query data) as [[|name arguments|]|msg].
  - split; [discriminate|]. intros [[? _]|(a & ? & _)]; discriminate.
  - destruct name as [|name| |].
    + split; [discriminate|]. intros [[? _]|(a & ? & _)]; discriminate.
    + assert (H : ∀ r : result string,
                (∃ s, r = Ok s) →
                match r with Ok text => Ok (markdown_to_html text)
                        | Raise e0 => Raise e0 end ≠ Raise e).
      { intros r [s ->]. discriminate. }
      split; [|intros [[? _]|(a & ? & _)]; discriminate].
      intros Hr. exfalso. revert Hr. apply H.
      case_bool_decide; [by eexists|].
      destruct (get_tool_belt finbot !! name) as [fn|]; [|by eexists].
      destruct (fn _); by eexists.
    + split; [discriminate|]. intros [[? _]|(a & ? & _)]; discriminate.
    + split.
      * intros [= <-]. right. by exists arguments.
      * intros [[? _]|(a & _ & ->)]; [discriminate|reflexivity].
  - split.
    + intros [= <-]. by left.
    + intros [[_ ->]|(a & ? & _)]; [reflexivity|discriminate].
  - split; [discriminate|]. intros [[? _]|(a & ? & _)]; discriminate.
Qed.

(** X20. A tool of the tool belt is called with the arguments of the
    plan and a [data] argument: the plan's own when it gives one, the
    current data otherwise.  What the tool returns, or the text of the
    error it raises, is rendered. *)
Theorem tool_receives_data (user_query : string) (data : pyobj)
    (name : string) (arguments : option (gmap string pyobj)) :
  get_tool_call user_query data = Returns (PlanDict (KStr name) arguments) →
  name ∈ tool_names →
  let given := default ∅ arguments in
  let kw := call_arguments arguments data in
  kw !! "data" = Some (default data (given !! "data"))
  ∧ (∀ k, k ≠ "data" → kw !! k = given !! k)
  ∧ chatbot_response_ user_query data
    = Ok (markdown_to_html
            match finbot name kw with
            | Returns v => py_str v
            | Throws e => "An error occurred while running the tool: " +:+ e
            end).
Proof.
  intros Hp Hin given kw. unfold kw, call_arguments. fold given.
  split; [|split].
  - destruct (given !! "data") as [v|] eqn:E; [exact E|].
    apply lookup_insert_eq.
  - intros k Hk. destruct (given !! "data"); [reflexivity|].
    by apply lookup_insert_ne.
  - unfold chatbot_response. rewrite Hp.
    rewrite bool_decide_eq_false_2.
    2:{ intros ->. revert Hin. apply (bool_decide_unpack _). vm_compute. exact I. }
    rewrite get_tool_belt_lookup, bool_decide_eq_true_2 by exact Hin.
    fold given. destruct (given !! "data"); by destruct (finbot name _).
Qed.

(** X21. A falsy plan gets the fixed not-sure message.  A greeting plan
    gets its [response] argument rendered, or the default greeting, and
    the tools play no part in it. *)
Theorem chatbot_response_without_tools (user_query : string) (data : pyobj)
    (finbot' : string → gmap string pyobj → outcome pyobj) :
  (get_tool_call user_query data = Returns PlanFalsy →
   chatbot_response_ user_query data
   = Ok "I&#39;m not sure how to do that. Please try rephrasing.")
  ∧ (∀ arguments,
       get_tool_call user_query data
       = Returns (PlanDict (KStr "greeting_response") arguments) →
       chatbot_response_ user_query data
       = Ok (match default ∅ arguments !! "response" with
             | Some v => markdown_to_html (py_str v)
             | None => "Hi! How can I help?"
             end)
       ∧ chatbot_response py_str get_tool_call finbot' user_query data
         = chatbot_response_ user_query data).
Proof.
  split.
  - intros Hp. unfold chatbot_response. rewrite Hp. by rewrite not_sure_rendered.
  - intros arguments Hp. unfold chatbot_response. rewrite Hp.
    rewrite bool_decide_eq_true_2 by reflexivity. split; [|reflexivity].
    destruct (default ∅ arguments !! "response"); [reflexivity|].
    vm_compute. reflexivity.
Qed.


Lemma new_chat_eq (w : world) :
  new_chat uuid4 w
  = (Ok (uuid_str (uuid4 (draws w)), JArr []), with_new_chat uuid4 w).
Proof. reflexivity. Qed.

Lemma get_or_create_chat_known_eq (cid : string) (w : world) :
  cid ≠ EmptyString →
  get_or_create_chat uuid4 (Some cid) false w
  = (Ok (cid, history_in (chat_dir w) cid), w)
  ∧ (chat_dir w !! chat_file cid = None →
     get_or_create_chat uuid4 (Some cid) false w = (Ok (cid, JArr []), w)).
Proof.
  intros Hne.
  assert (H : get_or_create_chat uuid4 (Some cid) false w
              = (Ok (cid, history_in (chat_dir w) cid), w)).
  { unfold get_or_create_chat, falsy. rewrite bool_decide_eq_false_2 by exact Hne.
    cbn [orb]. unfold try_except, bind. by rewrite load_chat_history_eq. }
  split; [exact H|]. intros Hnone. rewrite H. unfold history_in.
  by rewrite Hnone.
Qed.

(** X22. For a non-empty identifier and [new=False],
    [get_or_create_chat] returns the identifier with its loaded history
    and leaves the store as it was.  It creates nothing, even when the
    chat has no file: the history is then the empty list. *)
Theorem get_or_create_chat_known (cid : string) (w : world) :
  cid ≠ EmptyString →
  get_or_create_chat uuid4 (Some cid) false w
  = (Ok (cid, history_in (chat_dir w) cid), w)
  ∧ (chat_dir w !! chat_file cid = None →
     get_or_create_chat uuid4 (Some cid) false w = (Ok (cid, JArr []), w)).
Proof. apply get_or_create_chat_known_eq. Qed.

(** A new chat: the next UUID, an empty history written under it, and
    nothing else touched. *)
Lemma get_or_create_chat_new (cid : option string) (new : bool) (w : world) :
  new = true ∨ falsy cid = true →
  let u := uuid_str (uuid4 (draws w)) in
  let out := get_or_create_chat uuid4 cid new w in
  out = (Ok (u, JArr []), with_new_chat uuid4 w)
  ∧ load_chat_history u out.2 = (Ok (JArr []), out.2)
  ∧ ∀ f, f ≠ chat_file u → chat_dir out.2 !! f = chat_dir w !! f.
Proof.
  intros Hnew u out.
  assert (H : out = (Ok (u, JArr []), with_new_chat uuid4 w)).
  { unfold out, get_or_create_chat. destruct cid as [c|]; [|apply new_chat_eq].
    destruct Hnew as [->|Hf]; [apply new_chat_eq|].
    rewrite Hf, orb_true_r. apply new_chat_eq. }
  rewrite H. split; [reflexivity|]. cbn [snd]. split.
  - rewrite load_chat_history_eq. unfold history_in, with_new_chat.
    cbn [chat_dir]. by rewrite lookup_insert_eq.
  - intros f Hf. unfold with_new_chat. cbn [chat_dir].
    by rewrite lookup_insert_ne.
Qed.

(** The session [home] shows, chosen after the POST branch. *)
Lemma home_eq (req : request) :
  home_ req
  = (let* _ := when (is_post req) (home_post_ req) in
     let* x :=
       (if bool_decide (arg_new_chat req = Some "1")
        then get_or_create_chat uuid4 None true
        else let* current := session_get in
             get_or_create_chat uuid4
               (if falsy (arg_chat_id req) then current else arg_chat_id req)
               false) in
     render_page x).
Proof.
  unfold home, render_page. f_equal.
Qed.

Lemma get_or_create_chat_history (c : option string) (new : bool)
    (w w' : world) (cid : string) (h : json) :
  get_or_create_chat uuid4 c new w = (Ok (cid, h), w') →
  load_chat_history cid w' = (Ok h, w').
Proof.
  destruct (decide (new = true ∨ falsy c = true)) as [Hnew|Hold].
  - destruct (get_or_create_chat_new c new w Hnew) as (Heq & Hload & _).
    cbn zeta in *. rewrite Heq in *. cbn [snd] in Hload.
    intros [= <- <- <-]. exact Hload.
  - destruct new; [tauto|]. destruct c as [c|]; [|cbn in Hold; tauto].
    assert (Hc : c ≠ EmptyString).
    { intros ->. apply Hold. by right. }
    destruct (get_or_create_chat_known_eq c w Hc) as [-> _].
    intros [= <- <- <-]. apply load_chat_history_eq.
Qed.

(** X23. When [home] returns a page, the page shows the store as the
    request leaves it: the session entry is the chat of the page, the
    history is the one stored for that chat, and the pinned list and the
    list of sessions are those a fresh load gives. *)
Theorem home_page_reflects_store (req : request) (w w' : world)
    (chat_history : json) (chat_sessions : list string) (chat_id : string)
    (pinned_chats : json) :
  home_ req w = (Ok (Page chat_history chat_sessions chat_id pinned_chats), w') →
  cookie w' = Some chat_id
  ∧ load_chat_history chat_id w' = (Ok chat_history, w')
  ∧ load_pinned_chats w' = (Ok pinned_chats, w')
  ∧ list_chat_sessions w' = (Ok chat_sessions, w').
Proof.
  rewrite home_eq. unfold bind at 1.
  destruct (when (is_post req) (home_post_ req) w) as [[[]|e] wp];
    [|discriminate].
  match goal with |- bind ?m _ _ = _ → _ => set (chosen := m) end.
  unfold bind at 1.
  destruct (chosen wp) as [[[cid h]|e] w2] eqn:Hch; [|discriminate].
  assert (Hload : load_chat_history cid w2 = (Ok h, w2)).
  { revert Hch. unfold chosen. case_bool_decide.
    - apply get_or_create_chat_history.
    - unfold bind, session_get. apply get_or_create_chat_history. }
  intros Hpage. apply render_page_Ok in Hpage
    as (-> & -> & Hcookie & Hdir & Hp & Hs).
  split; [exact Hcookie|]. split; [|by split].
  rewrite load_chat_history_eq in *. rewrite Hdir.
  injection Hload as ->. reflexivity.
Qed.

(** X24. A POST whose query is empty or white space only, or whose
    answer fails with an exception out of [chatbot_response], appends
    nothing: the directory is as it was, up to the empty session created
    for a request that comes without one.  Neither the message of the
    user nor the apology of line 737 is stored. *)
Theorem unanswered_post_stores_nothing (req : request) (w : world) :
  Forall (fun c => is_space c = true)
    (str (default EmptyString (form_user_query req)))
  ∨ (∃ e, chatbot_response_ (post_query req) data_ = Raise e) →
  chat_dir (home_post_ req w).2 = post_dir uuid4 w
  ∧ (falsy (cookie w) = false →
     chat_dir (home_post_ req w).2 = chat_dir w).
Proof.
  intros Hcase.
  assert (H : chat_dir (home_post_ req w).2 = post_dir uuid4 w).
  { destruct (home_post_dir py_str get_tool_call finbot load_data empty_dict
                cached_data uuid4 chart_exists os_rename req w)
      as [Hd|(hist & r & img & t & _ & Hq & Hr & _)]; [exact Hd|].
    destruct Hcase as [Hblank|[e He]].
    - destruct Hq. by apply strip_blank.
    - rewrite Hr in He. discriminate. }
  split; [exact H|]. intros Hc. rewrite H. unfold post_dir. by rewrite Hc.
Qed.

(** X25. A GET that selects a chat, by the query string or else by the
    session, and does not ask for a new one, writes no file and draws no
    UUID; the page it returns is on that chat, with its stored
    history. *)
Theorem home_get_reads_only (req : request) (w : world) (cid : string) :
  is_post req = false →
  arg_new_chat req ≠ Some "1" →
  selected req w = Some cid →
  cid ≠ EmptyString →
  chat_dir (home_ req w).2 = chat_dir w
  ∧ draws (home_ req w).2 = draws w
  ∧ ∀ h s c p w', home_ req w = (Ok (Page h s c p), w') →
      c = cid ∧ h = history_in (chat_dir w) cid.
Proof.
  intros Hget Hnew Hsel Hne.
  assert (E : home_ req w = render_page (cid, history_in (chat_dir w) cid) w).
  { rewrite home_eq. rewrite Hget.
    unfold when, bind at 1, ret. rewrite bool_decide_eq_false_2 by exact Hnew.
    unfold bind at 1. unfold bind at 1, session_get.
    unfold selected in Hsel. rewrite Hsel.
    by destruct (get_or_create_chat_known_eq cid w Hne) as [-> _]. }
  rewrite E.
  destruct (render_page_world (cid, history_in (chat_dir w) cid) w)
    as (Hd & Hdr & _).
  split; [exact Hd|]. split; [exact Hdr|].
  intros h s c p w' Hpage. apply render_page_Ok in Hpage as (-> & -> & _).
  by split.
Qed.

(** X26. A GET that asks for a new chat, or comes without any chat
    selected, creates one empty session file under the next UUID; the
    page it returns is on that chat, with an empty history, and the
    session entry is set to it. *)
Theorem home_get_new_session (req : request) (w : world) :
  is_post req = false →
  arg_new_chat req = Some "1" ∨ falsy (selected req w) = true →
  let u := uuid_str (uuid4 (draws w)) in
  chat_dir (home_ req w).2
  = <[chat_file u := File (Document (JArr [])) (clock w)]> (chat_dir w)
  ∧ draws (home_ req w).2 = S (draws w)
  ∧ ∀ h s c p w', home_ req w = (Ok (Page h s c p), w') →
      c = u ∧ h = JArr [] ∧ cookie w' = Some u.
Proof.
  intros Hget Hnew u.
  assert (Hch : (if bool_decide (arg_new_chat req = Some "1")
                 then get_or_create_chat uuid4 None true
                 else let* current := session_get in
                      get_or_create_chat uuid4
                        (if falsy (arg_chat_id req) then current
                         else arg_chat_id req) false) w
                = (Ok (u, JArr []), with_new_chat uuid4 w)).
  { case_bool_decide as Harg.
    - by destruct (get_or_create_chat_new None true w) as [-> _]; [left|].
    - destruct Hnew as [?|Hf]; [done|]. unfold bind, session_get.
      fold (selected req w).
      by destruct (get_or_create_chat_new (selected req w) false w)
        as [-> _]; [right|]. }
  assert (E : home_ req w = render_page (u, JArr []) (with_new_chat uuid4 w)).
  { rewrite home_eq. rewrite Hget. unfold when, bind at 1, ret.
    unfold bind at 1. by rewrite Hch. }
  rewrite E.
  destruct (render_page_world (u, JArr []) (with_new_chat uuid4 w))
    as (Hd & Hdr & _).
  split; [exact Hd|]. split; [exact Hdr|].
  intros h s c p w' Hpage. apply render_page_Ok in Hpage as (-> & -> & ? & _).
  by repeat split.
Qed.


(** What the bot's turn writes, with the name of the chart it moved. *)
Lemma bot_turn_image (cid : string) (l : list json) (q : string) (w : world) :
  let w' := (bot_turn_ cid (JArr l) q w).2 in
  chat_dir w' = chat_dir w
  ∨ ∃ r img t,
      chat_dir w'
      = <[chat_file cid :=
            File (Document (JArr (l ++ [bot_message r img]))) t]> (chat_dir w)
      ∧ (img = JNull
         ∨ ∃ k, img = JStr ("media/" +:+ chart_name (uuid4 k))).
Proof.
  intros w'. unfold w'. clear w'.
  unfold bot_turn, try_except, bind, lift, ret, draw_uuid, save_chat_history,
    write_json, py_append.
  destruct (chatbot_response _ _ _ q _) as [r|e]; [|by left].
  destruct (negb _ && _); [destruct (os_rename _ _) as [[]|e]|];
    cbn [fst snd chat_dir]; [|by left|];
    right; eexists _, _, _; (split; [reflexivity|]); eauto.
Qed.

(** X27. With UUIDs in hexadecimal digits, an image path the bot's turn
    stores is [media/] followed by a name [serve_media] looks up as it
    is: sanitising does not change it. *)
Theorem stored_chart_is_served (media_exists : string → bool) (cid : string)
    (l : list json) (q : string) (w : world) :
  (∀ k, Forall (fun c => is_hex c = true) (str (uuid_hex (uuid4 k)))) →
  let w' := (bot_turn_ cid (JArr l) q w).2 in
  chat_dir w' = chat_dir w
  ∨ ∃ r img t,
      chat_dir w' !! chat_file cid
      = Some (File (Document (JArr (l ++ [bot_message r img]))) t)
      ∧ (img = JNull
         ∨ ∃ name,
             img = JStr ("media/" +:+ name)
             ∧ serve_media media_exists name
               = if media_exists name then SendFile name "image/png"
                 else Status "File not found" 404).
Proof.
  intros Hhex w'.
  destruct (bot_turn_image cid l q w) as [H|(r & img & t & Hd & Hi)];
    [by left|]. right. exists r, img, t. fold w' in Hd. rewrite Hd.
  split; [apply lookup_insert_eq|].
  destruct Hi as [->|[k ->]]; [by left|]. right.
  exists (chart_name (uuid4 k)). split; [reflexivity|].
  unfold serve_media. by rewrite (chart_name_fixed _ (Hhex k)).
Qed.

(** X28. The title of a chat whose first message is a user message with
    a non-empty text is that text, cut to the limit; a request to [home]
    does not change it. *)
Theorem chat_title_stable (req : request) (w : world) (cid q : string)
    (others : list json) (m : Z) (is_pinned : bool) :
  chat_dir w !! chat_file cid
  = Some (File (Document (JArr (user_message q :: others))) m) →
  q ≠ EmptyString →
  (∀ k, chat_file (uuid_str (uuid4 k)) ≠ chat_file cid) →
  get_chat_title cid is_pinned w
  = Some (shorten (if is_pinned then 10 else 20) q)
  ∧ get_chat_title cid is_pinned (home_ req w).2
    = get_chat_title cid is_pinned w.
Proof.
  intros Hf Hq Hfresh.
  assert (Htitle : ∀ w1 more t,
    chat_dir w1 !! chat_file cid
    = Some (File (Document (JArr ((user_message q :: others) ++ more))) t) →
    get_chat_title cid is_pinned w1
    = Some (shorten (if is_pinned then 10 else 20) q)).
  { intros w1 more t H1. unfold get_chat_title.
    rewrite load_chat_history_eq. cbn [fst]. unfold history_in. rewrite H1.
    cbn [content py_iter app]. by apply first_title_user. }
  split.
  - apply (Htitle w [] m). by rewrite app_nil_r.
  - rewrite (Htitle w [] m) by by rewrite app_nil_r.
    destruct (home_appends py_str get_tool_call finbot load_data empty_dict
                cached_data uuid4 chart_exists os_rename req w _ _ m Hf Hfresh)
      as (new & m' & Hnew & [->|(r & img & _ & _ & _ & _ & _ & ->)]).
    + apply (Htitle _ [] m'). by rewrite app_nil_r.
    + exact (Htitle _ _ m' Hnew).
Qed.


(** X29. A POST with a query, on a session whose file holds a list,
    that [chatbot_response] answers.  When the answer names no chart that
    exists, the file is rewritten with the user message and the bot
    message, without image, appended.  When it names a chart that exists
    and is moved, the bot message carries the path of the moved chart
    under [media/]. *)
Theorem answered_post_is_stored (req : request) (w : world) (cid : string)
    (old : list json) (m : Z) (r : string) :
  cookie w = Some cid → cid ≠ EmptyString →
  chat_dir w !! chat_file cid = Some (File (Document (JArr old)) m) →
  post_query req ≠ EmptyString →
  chatbot_response_ (post_query req) data_ = Ok r →
  let turn img := [user_message (post_query req); bot_message r img] in
  ((∀ name, extract_image_filename r = Some name → chart_exists name = false) →
   home_post_ req w
   = (Ok (), (save_chat_history cid (JArr (old ++ turn JNull)) w).2))
  ∧ (∀ name,
       extract_image_filename r = Some name →
       chart_exists name = true →
       os_rename name (chart_name (uuid4 (draws w))) = Ok () →
       (home_post_ req w).1 = Ok ()
       ∧ load_chat_history cid (home_post_ req w).2
         = (Ok (JArr (old ++ turn (JStr ("media/"
                                          +:+ chart_name (uuid4 (draws w)))))),
            (home_post_ req w).2)).
Proof.
  intros Hc Hne Hf Hq Hr turn.
  assert (Hh : history_in (chat_dir w) cid = JArr old).
  { unfold history_in. by rewrite Hf. }
  rewrite (home_post_session py_str get_tool_call finbot load_data empty_dict
             cached_data uuid4 chart_exists os_rename req w cid Hc Hne Hq), Hh.
  unfold bind at 1, lift at 1. cbn [py_append].
  split.
  - intros Hno. unfold bind, bot_turn, try_except, bind, lift, ret.
    rewrite Hr.
    replace (negb (falsy (extract_image_filename r))
             && chart_exists (default EmptyString (extract_image_filename r)))
      with false.
    2:{ destruct (extract_image_filename r) as [name|] eqn:E; [|reflexivity].
        cbn [default from_option id]. rewrite (Hno name eq_refl).
        by rewrite andb_false_r. }
    cbn [py_append]. unfold save_chat_history, write_json. cbn [fst snd].
    by rewrite <- app_assoc.
  - intros name Hname Hex Hmv.
    assert (Hfalsy : falsy (Some name) = false).
    { unfold falsy. apply bool_decide_eq_false_2. intros ->.
      unfold extract_image_filename in Hname. revert Hname.
      case_bool_decide; [discriminate|].
      destruct (re_search png_re _) as [caps|] eqn:S; [|discriminate].
      intros [= Hn]. pose proof (f_equal String.length Hn) as Hlen.
      apply search_from_sound in S as (cu0 & cu' & caps0 & M & ->).
      destruct (png_re_group _ _ _ M) as (stem & Hg & _).
      rewrite Hg in Hlen. rewrite <- !length_str, safe_filename_chars in Hlen.
      unfold replace_class in Hlen. rewrite length_fmap in Hlen.
      cbn [default from_option id] in Hlen.
      rewrite str_pystr, length_app in Hlen. cbn in Hlen. lia. }
    unfold bind, bot_turn, try_except, bind, lift, ret, draw_uuid.
    rewrite Hr, Hname, Hfalsy. cbn [default from_option id negb andb].
    rewrite Hex. fold (chart_name (uuid4 (draws w))). rewrite Hmv.
    cbn [py_append]. unfold save_chat_history, write_json. cbn [fst snd].
    split; [reflexivity|]. rewrite load_chat_history_eq. unfold history_in.
    cbn [chat_dir]. rewrite lookup_insert_eq. cbn [content].
    by rewrite <- app_assoc.
Qed.

(** X30. A POST with a query on a session whose file holds a document
    that is not a list raises AttributeError (the [append] of line 713 is
    outside the [try]) and writes nothing. *)
Theorem post_needs_a_list (req : request) (w : world) (cid : string) :
  cookie w = Some cid → cid ≠ EmptyString →
  post_query req ≠ EmptyString →
  (∀ l, history_in (chat_dir w) cid ≠ JArr l) →
  home_post_ req w = (Raise AttributeError, w)
  ∧ (is_post req = true → home_ req w = (Raise AttributeError, w)).
Proof.
  intros Hc Hne Hq Hnl.
  assert (H : home_post_ req w = (Raise AttributeError, w)).
  { rewrite (home_post_session py_str get_tool_call finbot load_data empty_dict
             cached_data uuid4 chart_exists os_rename req w cid Hc Hne Hq).
    unfold bind, lift. destruct (history_in (chat_dir w) cid) as [| | | |l|];
      try reflexivity. by destruct (Hnl l). }
  split; [exact H|]. intros Hp. rewrite home_eq. unfold bind at 1.
  rewrite Hp. unfold when. by rewrite H.
Qed.

End MoreWeb.

(** ** Instances of the further properties *)

Lemma not_pinned_c : JStr "c" ∉ [JStr "a"; JStr "b"].
Proof.
  intros H. rewrite !elem_of_cons in H.
  destruct H as [H|[H|H]]; [discriminate..|]. by apply elem_of_nil in H.
Qed.

Lemma pin_chat_needs_a_list_witness :
  ∃ e, pin_chat "a" pinned_object = (Raise e, pinned_object)
       ∧ e ∈ [UnicodeDecodeError; TypeError; AttributeError].
Proof.
  apply (proj2 (pin_chat_needs_a_list "a" pinned_object)).
  intros l. vm_compute. discriminate.
Defined.

Lemma pin_then_unpin_witness :
  pinned (pin_chat "c" (pin_chat "c" two_pinned).2).2
  = Ok (JArr [JStr "a"; JStr "b"])
  ∧ pinned (pin_chat "b" (pin_chat "b" two_pinned).2).2
    = Ok (JArr [JStr "b"; JStr "a"]).
Proof.
  assert (H : pinned two_pinned = Ok (JArr [JStr "a"; JStr "b"]))
    by (vm_compute; reflexivity).
  split.
  - apply (proj1 (pin_then_unpin "c" two_pinned _ H)). exact not_pinned_c.
  - apply (proj2 (pin_then_unpin "b" two_pinned _ H)); [|exact NoDup_a_b].
    rewrite !elem_of_cons. auto.
Defined.

Lemma delete_chat_session_witness :
  (delete_chat "s" one_session).1 = Ok (Redirect "home" [("new_chat", "1")])
  ∧ cookie (delete_chat "s" one_session).2 = None
  ∧ cookie (delete_chat "s" one_session).2 ≠ Some "s".
Proof.
  apply (delete_chat_session "s" one_session []). vm_compute. reflexivity.
Defined.

Lemma handlers_keep_pinned_set_witness :
  (∃ l', pinned (pin_chat "a" two_pinned).2 = Ok (JArr l') ∧ NoDup l')
  ∧ (∃ l', pinned (delete_chat "a" two_pinned).2 = Ok (JArr l') ∧ NoDup l').
Proof.
  apply (handlers_keep_pinned_set "a" two_pinned [JStr "a"; JStr "b"]).
  - vm_compute. reflexivity.
  - exact NoDup_a_b.
Defined.

Lemma unpinned_sessions_newest_first_witness :
  ∃ unpinned,
    (list_chat_sessions ghost_pinned).1
    = Ok (filter (is_session ghost_pinned) ["b"; "ghost"; "a"] ++ unpinned)
    ∧ (∀ cid, cid ∈ unpinned
              ↔ is_session ghost_pinned cid ∧ cid ∉ ["b"; "ghost"; "a"])
    ∧ StronglySorted (newer ghost_pinned) unpinned.
Proof.
  apply (unpinned_sessions_newest_first ghost_pinned ["b"; "ghost"; "a"]).
  vm_compute. reflexivity.
Defined.

Lemma pinned_session_listed_first_witness :
  ∃ others,
    (list_chat_sessions (pin_chat "c" ghost_pinned).2).1 = Ok ("c" :: others).
Proof.
  apply (pinned_session_listed_first "c" ghost_pinned ["b"; "ghost"; "a"]).
  - vm_compute. reflexivity.
  - apply (bool_decide_unpack _). vm_compute. exact I.
  - split; [|discriminate]. vm_compute. by eexists.
Defined.

Lemma deleted_session_not_listed_witness :
  ∃ l, (list_chat_sessions (delete_chat "b" ghost_pinned).2).1 = Ok l
       ∧ "b" ∉ l.
Proof.
  apply (deleted_session_not_listed "b" ghost_pinned ["b"; "ghost"; "a"]).
  - vm_compute. reflexivity.
  - vm_compute. reflexivity.
Defined.

Lemma list_chat_sessions_unhashable_witness :
  list_chat_sessions pinned_nested = (Raise TypeError, pinned_nested).
Proof.
  apply (list_chat_sessions_unhashable pinned_nested [JArr [JStr "a"]]).
  - vm_compute. reflexivity.
  - reflexivity.
Defined.

Lemma markdown_to_html_plain_witness :
  markdown_to_html "I'm not sure how to do that. Please try rephrasing."
  = escape "I'm not sure how to do that. Please try rephrasing.".
Proof.
  apply (proj1 (markdown_to_html_plain
                  "I'm not sure how to do that. Please try rephrasing."
                  ltac:(by repeat constructor))).
Defined.

Lemma extract_image_filename_shape_witness :
  ∃ stem, "spending.png" = pystr (stem ++ str ".png")
          ∧ stem ≠ []
          ∧ Forall (fun c => png_name_char c = true) stem
          ∧ Forall (fun c => filename_char c = true) (str "spending.png").
Proof.
  apply (extract_image_filename_shape "Saved *spending.png* for you.").
  vm_compute. reflexivity.
Defined.

Lemma markdown_to_html_heading_witness :
  markdown_to_html ("## " +:+ "Food & drink")
  = "<h2>" +:+ escape "Food & drink" +:+ "</h2>"
  ∧ markdown_to_html ("### " +:+ "Food & drink")
    = "&lt;h3&gt;" +:+ escape (escape "Food & drink") +:+ "&lt;/h3&gt;".
Proof.
  apply (markdown_to_html_heading "Food & drink"). by repeat constructor.
Defined.

Lemma get_chat_title_length_witness :
  String.length (shorten 20 "What did I spend on food in March?")
  ≤ (if false then 13 else 23).
Proof.
  apply (get_chat_title_length "s" false titled_session).
  vm_compute. reflexivity.
Defined.

Lemma chatbot_response_raises_witness :
  chatbot_response (fun s : string => s) list_plan demo_finbot "q" "d"
  = Raise AttributeError.
Proof.
  apply (chatbot_response_raises (fun s : string => s) list_plan demo_finbot
           "q" "d" AttributeError).
  left. by split.
Defined.

Lemma tool_receives_data_witness :
  call_arguments None "d" !! "data"
  = Some (default "d" ((∅ : gmap string string) !! "data"))
  ∧ (∀ k, k ≠ "data" →
          call_arguments None "d" !! k = (∅ : gmap string string) !! k)
  ∧ chatbot_response (fun s : string => s) chart_plan chart_finbot "q" "d"
    = Ok (markdown_to_html
            match chart_finbot "visualize_spending" (call_arguments None "d")
            with
            | Returns v => v
            | Throws e => "An error occurred while running the tool: " +:+ e
            end).
Proof.
  apply (tool_receives_data (fun s : string => s) chart_plan chart_finbot
           "q" "d" "visualize_spending" None).
  - reflexivity.
  - apply (bool_decide_unpack _). vm_compute. exact I.
Defined.

Lemma chatbot_response_without_tools_witness :
  chatbot_response (fun s : string => s) greeting_plan demo_finbot "hello" "d"
  = Ok "Hi! How can I help?".
Proof.
  apply (proj2 (chatbot_response_without_tools (fun s : string => s)
                  greeting_plan demo_finbot "hello" "d" chart_finbot) None).
  reflexivity.
Defined.

Lemma get_or_create_chat_known_witness :
  get_or_create_chat demo_uuid (Some "ghost") false empty_world
  = (Ok ("ghost", JArr []), empty_world).
Proof.
  apply (get_or_create_chat_known demo_uuid "ghost" empty_world).
  - discriminate.
  - apply lookup_empty.
Defined.

Lemma home_page_reflects_store_witness :
  cookie (demo_home post_hi one_session).2 = Some "s"
  ∧ load_chat_history "s" (demo_home post_hi one_session).2
    = (Ok (JArr [user_message "hi"; bot_message not_sure JNull]),
       (demo_home post_hi one_session).2)
  ∧ load_pinned_chats (demo_home post_hi one_session).2
    = (Ok (JArr []), (demo_home post_hi one_session).2)
  ∧ list_chat_sessions (demo_home post_hi one_session).2
    = (Ok ["s"], (demo_home post_hi one_session).2).
Proof.
  apply (home_page_reflects_store (fun s : string => s) demo_plan demo_finbot
           (Returns "data") "{}" None demo_uuid (fun _ => false)
           (fun _ _ => Ok ()) post_hi one_session).
  apply injective_projections; [vm_compute; reflexivity | reflexivity].
Defined.

Lemma unanswered_post_stores_nothing_witness :
  chat_dir (demo_home_post post_blank one_session).2
  = post_dir demo_uuid one_session
  ∧ (falsy (cookie one_session) = false →
     chat_dir (demo_home_post post_blank one_session).2
     = chat_dir one_session).
Proof.
  apply (unanswered_post_stores_nothing (fun s : string => s) demo_plan
           demo_finbot (Returns "data") "{}" None demo_uuid (fun _ => false)
           (fun _ _ => Ok ()) post_blank one_session).
  left. by repeat constructor.
Defined.

Lemma home_get_reads_only_witness :
  chat_dir (demo_home get_home one_session).2 = chat_dir one_session
  ∧ draws (demo_home get_home one_session).2 = draws one_session
  ∧ ∀ h s c p w',
      demo_home get_home one_session = (Ok (Page h s c p), w') →
      c = "s" ∧ h = history_in (chat_dir one_session) "s".
Proof.
  apply (home_get_reads_only (fun s : string => s) demo_plan demo_finbot
           (Returns "data") "{}" None demo_uuid (fun _ => false)
           (fun _ _ => Ok ()) get_home one_session "s");
    [reflexivity | discriminate | reflexivity | discriminate].
Defined.

Lemma home_get_new_session_witness :
  chat_dir (demo_home get_home empty_world).2
  = <[chat_file (uuid_str (demo_uuid 0)) := File (Document (JArr [])) 0]> ∅
  ∧ draws (demo_home get_home empty_world).2 = 1
  ∧ ∀ h s c p w',
      demo_home get_home empty_world = (Ok (Page h s c p), w') →
      c = uuid_str (demo_uuid 0) ∧ h = JArr []
      ∧ cookie w' = Some (uuid_str (demo_uuid 0)).
Proof.
  apply (home_get_new_session (fun s : string => s) demo_plan demo_finbot
           (Returns "data") "{}" None demo_uuid (fun _ => false)
           (fun _ _ => Ok ()) get_home empty_world);
    [reflexivity | by right].
Defined.

Lemma hex_uuid_digits (k : nat) :
  Forall (fun c => is_hex c = true) (str (uuid_hex (hex_uuid k))).
Proof. by repeat constructor. Qed.

Lemma stored_chart_is_served_witness :
  let w' := (chart_bot_turn "s" (JArr []) "q" one_session).2 in
  chat_dir w' = chat_dir one_session
  ∨ ∃ r img t,
      chat_dir w' !! chat_file "s"
      = Some (File (Document (JArr ([] ++ [bot_message r img]))) t)
      ∧ (img = JNull
         ∨ ∃ name,
             img = JStr ("media/" +:+ name)
             ∧ serve_media (fun _ => true) name
               = if (fun _ : string => true) name
                 then SendFile name "image/png"
                 else Status "File not found" 404).
Proof.
  exact (stored_chart_is_served (fun s : string => s) chart_plan chart_finbot
           (Returns "data") "{}" None hex_uuid chart_there (fun _ _ => Ok ())
           (fun _ => true) "s" [] "q" one_session hex_uuid_digits).
Defined.

Lemma chat_title_stable_witness :
  get_chat_title "s" false titled_session
  = Some (shorten 20 "What did I spend on food in March?")
  ∧ get_chat_title "s" false (demo_home post_hi titled_session).2
    = get_chat_title "s" false titled_session.
Proof.
  apply (chat_title_stable (fun s : string => s) demo_plan demo_finbot
           (Returns "data") "{}" None demo_uuid (fun _ => false)
           (fun _ _ => Ok ()) post_hi titled_session "s"
           "What did I spend on food in March?"
           [bot_message "A lot." JNull] 0).
  - vm_compute. reflexivity.
  - discriminate.
  - exact demo_uuid_fresh.
Defined.

Lemma answered_post_is_stored_witness :
  (chart_home_post post_hi one_session).1 = Ok ()
  ∧ load_chat_history "s" (chart_home_post post_hi one_session).2
    = (Ok (JArr ([] ++ [user_message (post_query post_hi);
                        bot_message "Saved spending.png"
                          (JStr ("media/"
                                 +:+ chart_name
                                       (hex_uuid (draws one_session))))])),
       (chart_home_post post_hi one_session).2).
Proof.
  apply (proj2 (answered_post_is_stored (fun s : string => s) chart_plan
                  chart_finbot (Returns "data") "{}" None hex_uuid chart_there
                  (fun _ _ => Ok ()) post_hi one_session "s" [] 0
                  "Saved spending.png" eq_refl ltac:(discriminate)
                  one_session_file ltac:(discriminate)
                  ltac:(vm_compute; reflexivity))
           "spending.png");
    [vm_compute; reflexivity | reflexivity | reflexivity].
Defined.

Lemma post_needs_a_list_witness :
  demo_home_post post_hi object_session = (Raise AttributeError, object_session)
  ∧ (is_post post_hi = true →
     demo_home post_hi object_session = (Raise AttributeError, object_session)).
Proof.
  apply (post_needs_a_list (fun s : string => s) demo_plan demo_finbot
           (Returns "data") "{}" None demo_uuid (fun _ => false)
           (fun _ _ => Ok ()) post_hi object_session "s");
    [reflexivity | discriminate | discriminate |].
  intros l. vm_compute. discriminate.
Defined.
